(** * GPT-2 training script ([GPT-2/train_gpt2.py]): model, schedule, clipping

    A shallow embedding of the transformer forward pass, the optimizer
    configuration, the learning-rate schedule, gradient clipping and the
    gradient-accumulation loop of [train_gpt2.py].

    Numbers: Python floats and torch tensors of floats are embedded as
    real numbers ([R]); the development is about the exact-arithmetic
    meaning of the code, rounding is not modelled.  Decimal literals of
    the source ([0.02], [6e-4], [1e-8]) are the same decimal literals
    here.  Python integers are [Z], sizes and positions are [nat]. *)

From Stdlib Require Import String.
From Stdlib Require Import Reals Lra Lia ZArith Bool List Permutation DecimalString.
From Stdlib Require Import Sorted DecimalNat.
Import ListNotations.
Open Scope R_scope.

(** ** Python exceptions and fallible results *)

Inductive exn : Type :=
| AssertionError
| IndexError
| ValueError
| TypeError
| ZeroDivisionError.

Inductive result (A : Type) : Type :=
| Ok (a : A)
| Raise (e : exn).
Arguments Ok {A} a.
Arguments Raise {A} e.

Definition bind {A B : Type} (m : result A) (k : A -> result B) : result B :=
  match m with
  | Ok a => k a
  | Raise e => Raise e
  end.

Notation "x <- m ;; k" := (bind m (fun x => k))
  (at level 61, m at next level, right associativity).

(** Python's [a / b] on numbers: [ZeroDivisionError] when the divisor is the
    integer zero. *)
Definition py_truediv (a : R) (b : Z) : result R :=
  if (b =? 0)%Z then Raise ZeroDivisionError else Ok (a / IZR b).

(** [assert c]: continue when [c] holds, [AssertionError] otherwise. *)
Definition py_assert (c : bool) : result unit :=
  if c then Ok tt else Raise AssertionError.

(** The chained comparison [a <= x <= b] on floats. *)
Definition Rle_le_dec (a x b : R) : {a <= x <= b} + {~ (a <= x <= b)} :=
  match Rle_dec a x, Rle_dec x b with
  | left H1, left H2 => left (conj H1 H2)
  | right N, _ => right (fun H => N (proj1 H))
  | _, right N => right (fun H => N (proj2 H))
  end.

Definition Rle_le_b (a x b : R) : bool :=
  if Rle_le_dec a x b then true else false.

(** ** Learning-rate schedule: [get_lr] (lines 399-417) *)

Module Schedule.
Section Config.
(** The module-level constants the function closes over. *)
Variable max_lr : R.
Variables warmup_steps max_steps : Z.

Definition min_lr : R := max_lr * 0.1.

Definition get_lr (it : Z) : result R :=
  (* 1) linear warmup *)
  if (it <? warmup_steps)%Z then
    py_truediv (max_lr * IZR (it + 1)) warmup_steps
  (* 2) if it > lr_decay_iters, return min lr *)
  else if (it >? max_steps)%Z then
    Ok min_lr
  else
    (* 3) in between, use cosine decay down to min lr *)
    decay_ratio <- py_truediv (IZR (it - warmup_steps)) (max_steps - warmup_steps) ;;
    _ <- py_assert (Rle_le_b 0 decay_ratio 1) ;;
    let coeff := 0.5 * (1.0 + cos (PI * decay_ratio)) in
    Ok (min_lr + coeff * (max_lr - min_lr)).

(** The schedule as the specification words it (section 4.6), a total
    function on reals; used only to compare [get_lr] with it. *)
Definition spec_min_lr : R := 0.1 * max_lr.

Definition spec_lr (step : Z) : R :=
  if (step <? warmup_steps)%Z then
    max_lr * (IZR step + 1) / IZR warmup_steps
  else if (step >? max_steps)%Z then
    spec_min_lr
  else
    let decay_ratio :=
      (IZR step - IZR warmup_steps) / (IZR max_steps - IZR warmup_steps) in
    let coeff := 0.5 * (1 + cos (PI * decay_ratio)) in
    spec_min_lr + coeff * (max_lr - spec_min_lr).
End Config.
End Schedule.

(** The constants of the script (lines 399-404). *)
Module Script.
Definition max_lr : R := 6e-4.
Definition min_lr : R := max_lr * 0.1.
Definition warmup_steps : Z := 715.
Definition max_steps : Z := 19073.
Definition get_lr : Z -> result R :=
  Schedule.get_lr max_lr warmup_steps max_steps.
End Script.

(** ** Tensors of reals as nested lists *)

Definition Rsum (l : list R) : R := fold_right Rplus 0 l.

Fixpoint zip_with {A B C : Type} (f : A -> B -> C)
         (l1 : list A) (l2 : list B) : list C :=
  match l1, l2 with
  | a :: l1', b :: l2' => f a b :: zip_with f l1' l2'
  | _, _ => []
  end.

Fixpoint imap_from {A B : Type} (f : nat -> A -> B) (i : nat) (l : list A)
  : list B :=
  match l with
  | [] => []
  | a :: l' => f i a :: imap_from f (S i) l'
  end.

(** [imap f l]: [f] applied to every element together with its index. *)
Definition imap {A B : Type} (f : nat -> A -> B) (l : list A) : list B :=
  imap_from f 0 l.

Fixpoint mapM {A B : Type} (f : A -> result B) (l : list A) : result (list B) :=
  match l with
  | [] => Ok []
  | a :: l' => b <- f a ;; bs <- mapM f l' ;; Ok (b :: bs)
  end.

Definition dot (a b : list R) : R := Rsum (zip_with Rmult a b).

(** Elementwise sum of two vectors, and of two (T, C) activations. *)
Definition vadd (a b : list R) : list R := zip_with Rplus a b.
Definition madd (a b : list (list R)) : list (list R) := zip_with vadd a b.

Definition column (c : nat) (m : list (list R)) : list R :=
  map (fun row => nth c row 0) m.

(** A 2-D tensor of integers (token ids): [size1] columns, [length rows]
    rows.  A torch tensor is rectangular: [well_formed]. *)
Record LongTensor : Type := {
  size1 : nat;
  rows : list (list Z)
}.

Definition size0 (t : LongTensor) : nat := length (rows t).

Definition well_formed (t : LongTensor) : Prop :=
  Forall (fun r => length r = size1 t) (rows t).

(** [torch.cat] of same-width batches along dimension 0. *)
Definition cat (ts : list LongTensor) (T : nat) : LongTensor :=
  {| size1 := T; rows := concat (map rows ts) |}.

(** ** [nn.Linear], [nn.Embedding], [nn.LayerNorm], [nn.GELU] *)

Module Linear.
(** [weight] has shape (out_features, in_features); [bias] is [None] for
    [bias=False]. *)
Record t : Type := {
  weight : list (list R);
  bias : option (list R)
}.

(** [x @ weight.T + bias] on one position. *)
Definition forward (l : t) (x : list R) : list R :=
  let y := map (fun w => dot x w) (weight l) in
  match bias l with
  | Some b => vadd y b
  | None => y
  end.

Definition shaped (in_features out_features : nat) (has_bias : bool)
           (l : t) : Prop :=
  length (weight l) = out_features
  /\ Forall (fun w => length w = in_features) (weight l)
  /\ match bias l with
     | Some b => has_bias = true /\ length b = out_features
     | None => has_bias = false
     end.
End Linear.

Module Embedding.
(** [weight] has shape (num_embeddings, embedding_dim). *)
Record t : Type := { weight : list (list R) }.

(** One index: [IndexError] outside [0, num_embeddings). *)
Definition lookup (e : t) (id : Z) : result (list R) :=
  if ((0 <=? id)%Z && (id <? Z.of_nat (length (weight e)))%Z)%bool
  then Ok (nth (Z.to_nat id) (weight e) [])
  else Raise IndexError.

Definition forward (e : t) (ids : list Z) : result (list (list R)) :=
  mapM (lookup e) ids.

Definition shaped (num_embeddings embedding_dim : nat) (e : t) : Prop :=
  length (weight e) = num_embeddings
  /\ Forall (fun w => length w = embedding_dim) (weight e).
End Embedding.

Module LayerNorm.
Record t : Type := {
  weight : list R;
  bias : list R
}.

Definition eps : R := 1e-5.

Definition mean (x : list R) : R := Rsum x / INR (length x).

(** Normalisation over the last dimension with the biased variance, then
    the learned scale and shift. *)
Definition forward (ln : t) (x : list R) : list R :=
  let mu := mean x in
  let var := mean (map (fun a => (a - mu) * (a - mu)) x) in
  let xhat := map (fun a => (a - mu) / sqrt (var + eps)) x in
  vadd (zip_with Rmult xhat (weight ln)) (bias ln).

Definition shaped (n : nat) (ln : t) : Prop :=
  length (weight ln) = n /\ length (bias ln) = n.
End LayerNorm.

(** [nn.GELU(approximate='tanh')]. *)
Definition gelu (x : R) : R :=
  0.5 * x * (1 + tanh (sqrt (2 / PI) * (x + 0.044715 * (x * x * x)))).

(** ** [F.scaled_dot_product_attention(q, k, v, is_causal=True)] *)

(** Attention scores are floats that may be minus infinity. *)
Inductive score : Type :=
| Finite (r : R)
| NegInf.

Definition score_add (a b : score) : score :=
  match a, b with
  | Finite x, Finite y => Finite (x + y)
  | _, _ => NegInf
  end.

Definition score_exp (a : score) : R :=
  match a with
  | Finite x => exp x
  | NegInf => 0
  end.

(** [torch.softmax] over one row of scores. *)
Definition softmax (s : list score) : list R :=
  let e := map score_exp s in
  map (fun a => a / Rsum e) e.

(** The causal bias: zero on and below the diagonal ([tril]), minus
    infinity above it. *)
Definition attn_bias (i j : nat) : score :=
  if (j <=? i)%nat then Finite 0 else NegInf.

(** Row [i] of [softmax(q @ k.T * scale + attn_bias) @ v], for a head of
    size [hs]. *)
Definition attention_row (hs : nat) (k v : list (list R)) (i : nat)
           (qi : list R) : list R :=
  let scale_factor := 1 / sqrt (INR hs) in
  let attn_weight :=
    imap (fun j kj => score_add (Finite (dot qi kj * scale_factor))
                                (attn_bias i j)) k in
  let attn_weight := softmax attn_weight in
  map (fun c => dot attn_weight (column c v)) (seq 0 hs).

Definition scaled_dot_product_attention (hs : nat) (q k v : list (list R))
  : list (list R) :=
  imap (attention_row hs k v) q.

(** ** [F.cross_entropy(input, target)] with the default mean reduction *)

Definition ignore_index : Z := (-100)%Z.

(** The loss of one row of logits against its target class:
    [-log_softmax(row)[target]].  A target equal to [ignore_index] is left
    out of the reduction ([None]); any other target outside [0, C) is an
    [IndexError]. *)
Definition nll_row (row : list R) (target : Z) : result (option R) :=
  if (target =? ignore_index)%Z then Ok None
  else if ((0 <=? target)%Z && (target <? Z.of_nat (length row))%Z)%bool
       then Ok (Some (- (nth (Z.to_nat target) row 0 - ln (Rsum (map exp row)))))
       else Raise IndexError.

Fixpoint keep_some {A : Type} (l : list (option A)) : list A :=
  match l with
  | [] => []
  | Some a :: l' => a :: keep_some l'
  | None :: l' => keep_some l'
  end.

(** [input] is (N, C), [target] is (N); the mean runs over the targets that
    are not ignored.  With no such target the float result is nan, which no
    real number stands for: the quotient by zero of [R] that is returned
    then has no meaning, and what is proved about the value of a loss
    assumes a target that is kept. *)
Definition cross_entropy (input : list (list R)) (target : list Z) : result R :=
  if (length input =? length target)%nat then
    losses <- mapM (fun rt => nll_row (fst rt) (snd rt)) (combine input target) ;;
    let kept := keep_some losses in
    Ok (Rsum kept / INR (length kept))
  else Raise ValueError.

(** ** The model classes *)

Module GPTConfig.
Record t : Type := {
  block_size : nat;
  vocab_size : nat;
  n_layer : nat;
  n_head : nat;
  n_embed : nat
}.
End GPTConfig.

Module CausalSelfAttention.
(** The registered buffer [bias] (the lower-triangular mask) is left out:
    [forward] masks through [is_causal=True] and never reads it. *)
Record t : Type := {
  c_attn : Linear.t;
  c_proj : Linear.t;
  n_head : nat;
  n_embed : nat
}.

(** Piece number [k] of [row.split(n)]. *)
Definition chunk (n k : nat) (row : list R) : list R :=
  firstn n (skipn (k * n) row).

(** Head [h] of [x.view(T, n_head, hs).transpose(0, 1)]: a (T, hs)
    sequence. *)
Definition head (hs h : nat) (x : list (list R)) : list (list R) :=
  map (chunk hs h) x.

(** [y.transpose(0, 1).contiguous().view(T, C)] for [y] given head by
    head: position [t] holds the heads' outputs side by side. *)
Definition merge_heads (T : nat) (y : list (list (list R))) : list (list R) :=
  map (fun t => concat (map (fun yh => nth t yh []) y)) (seq 0 T).

(** [forward] on one sequence of the batch, an activation of shape (T, C);
    [C], the last size of [x], is [n_embed] for every input [c_attn]
    accepts, and [n_head] divides it by the assertion of [__init__]. *)
Definition forward (a : t) (x : list (list R)) : list (list R) :=
  let T := length x in
  let C := n_embed a in
  let qkv := map (Linear.forward (c_attn a)) x in
  let q := map (chunk (n_embed a) 0) qkv in
  let k := map (chunk (n_embed a) 1) qkv in
  let v := map (chunk (n_embed a) 2) qkv in
  let hs := (C / n_head a)%nat in
  let y := map (fun h => scaled_dot_product_attention hs
                           (head hs h q) (head hs h k) (head hs h v))
               (seq 0 (n_head a)) in
  let y := merge_heads T y in
  map (Linear.forward (c_proj a)) y.

Definition shaped (config : GPTConfig.t) (a : t) : Prop :=
  Linear.shaped (GPTConfig.n_embed config) (3 * GPTConfig.n_embed config) true
                (c_attn a)
  /\ Linear.shaped (GPTConfig.n_embed config) (GPTConfig.n_embed config) true
                   (c_proj a)
  /\ n_head a = GPTConfig.n_head config
  /\ n_embed a = GPTConfig.n_embed config.
End CausalSelfAttention.

Module MLP.
Record t : Type := {
  c_fc : Linear.t;
  c_proj : Linear.t
}.

(** [forward] on one position. *)
Definition forward (m : t) (x : list R) : list R :=
  let x := Linear.forward (c_fc m) x in
  let x := map gelu x in
  let x := Linear.forward (c_proj m) x in
  x.

Definition shaped (config : GPTConfig.t) (m : t) : Prop :=
  Linear.shaped (GPTConfig.n_embed config) (4 * GPTConfig.n_embed config) true
                (c_fc m)
  /\ Linear.shaped (4 * GPTConfig.n_embed config) (GPTConfig.n_embed config)
                   true (c_proj m).
End MLP.

Module Block.
Record t : Type := {
  ln_1 : LayerNorm.t;
  attn : CausalSelfAttention.t;
  ln_2 : LayerNorm.t;
  mlp : MLP.t
}.

(** [forward] on one sequence of the batch, shape (T, C). *)
Definition forward (b : t) (x : list (list R)) : list (list R) :=
  let x := madd x (CausalSelfAttention.forward (attn b)
                     (map (LayerNorm.forward (ln_1 b)) x)) in
  let x := madd x (map (MLP.forward (mlp b))
                     (map (LayerNorm.forward (ln_2 b)) x)) in
  x.

Definition shaped (config : GPTConfig.t) (b : t) : Prop :=
  LayerNorm.shaped (GPTConfig.n_embed config) (ln_1 b)
  /\ CausalSelfAttention.shaped config (attn b)
  /\ LayerNorm.shaped (GPTConfig.n_embed config) (ln_2 b)
  /\ MLP.shaped config (mlp b).
End Block.

Module GPT.
(** The parameter values of a model; [wte], [wpe], [h] and [ln_f] are the
    entries of [self.transformer]. *)
Record t : Type := {
  config : GPTConfig.t;
  wte : Embedding.t;
  wpe : Embedding.t;
  h : list Block.t;
  ln_f : LayerNorm.t;
  lm_head : Linear.t
}.

Definition forward (m : t) (idx : LongTensor) (targets : option LongTensor)
  : result (list (list (list R)) * option R) :=
  (* idx shape (B, T) *)
  let T := size1 idx in
  _ <- py_assert (T <=? GPTConfig.block_size (config m))%nat ;;
  let pos := map Z.of_nat (seq 0 T) in
  pos_emb <- Embedding.forward (wpe m) pos ;;
  tok_emb <- mapM (Embedding.forward (wte m)) (rows idx) ;;
  let x := map (fun te => madd te pos_emb) tok_emb in
  let x := fold_left (fun x block => map (Block.forward block) x) (h m) x in
  let x := map (map (LayerNorm.forward (ln_f m))) x in
  let logits := map (map (Linear.forward (lm_head m))) x in
  match targets with
  | None => Ok (logits, None)
  | Some targets =>
      loss <- cross_entropy (concat logits) (concat (rows targets)) ;;
      Ok (logits, Some loss)
  end.

(** The shapes [__init__] gives the parameters, with the token embedding
    and the output projection holding the same matrix (line 104). *)
Definition shaped (m : t) : Prop :=
  let c := config m in
  Embedding.shaped (GPTConfig.vocab_size c) (GPTConfig.n_embed c) (wte m)
  /\ Embedding.shaped (GPTConfig.block_size c) (GPTConfig.n_embed c) (wpe m)
  /\ length (h m) = GPTConfig.n_layer c
  /\ Forall (Block.shaped c) (h m)
  /\ LayerNorm.shaped (GPTConfig.n_embed c) (ln_f m)
  /\ Linear.shaped (GPTConfig.n_embed c) (GPTConfig.vocab_size c) false
                   (lm_head m)
  /\ Embedding.weight (wte m) = Linear.weight (lm_head m).
End GPT.

(** Token ids the embedding table (or the loss) accepts. *)
Definition valid_ids (vocab : nat) (t : LongTensor) : Prop :=
  Forall (Forall (fun id => (0 <= id < Z.of_nat vocab)%Z)) (rows t).

(** The part of [GPT.forward] after the embeddings, on one sequence. *)
Definition decode (m : GPT.t) (x : list (list R)) : list (list R) :=
  map (Linear.forward (GPT.lm_head m))
      (map (LayerNorm.forward (GPT.ln_f m))
           (fold_left (fun x block => Block.forward block x) (GPT.h m) x)).

(** What [GPT.forward] computes when no lookup fails: the embedded
    sequence of one row of ids, and the logits of a whole batch. *)
Definition embed (m : GPT.t) (T : nat) (row : list Z) : list (list R) :=
  madd (map (fun id => nth (Z.to_nat id) (Embedding.weight (GPT.wte m)) []) row)
       (map (fun p => nth (Z.to_nat p) (Embedding.weight (GPT.wpe m)) [])
            (map Z.of_nat (seq 0 T))).

Definition logits_of (m : GPT.t) (idx : LongTensor) : list (list (list R)) :=
  map (fun row => decode m (embed m (size1 idx) row)) (rows idx).

(** Entry (b, t) of a batch of token ids and of a batch of logits. *)
Definition token_at (idx : LongTensor) (b t : nat) : Z :=
  nth t (nth b (rows idx) []) 0%Z.

Definition logits_at (logits : list (list (list R))) (b t : nat) : list R :=
  nth t (nth b logits []) [].

(** Two batches agree at every position [<= i] of every row. *)
Definition agree_upto (i : nat) (idx idx' : LongTensor) : Prop :=
  forall b t, (t <= i)%nat -> token_at idx b t = token_at idx' b t.

(** A (B, T, V) tensor. *)
Definition has_shape3 (B T V : nat) (x : list (list (list R))) : Prop :=
  length x = B
  /\ Forall (fun xb => length xb = T /\ Forall (fun v => length v = V) xb) x.

(** The loss as the specification words it: the cross-entropy of the logits
    at position (b, t) against the target at position (b, t), averaged over
    all [B * T] positions. *)
Definition token_ce (logit : list R) (target : Z) : R :=
  - (nth (Z.to_nat target) logit 0 - ln (Rsum (map exp logit))).

Definition mean_token_ce (logits : list (list (list R))) (targets : LongTensor)
           (B T : nat) : R :=
  Rsum (map (fun b =>
               Rsum (map (fun t => token_ce (logits_at logits b t)
                                            (token_at targets b t))
                         (seq 0 T)))
            (seq 0 B))
  / INR (B * T).

(** ** [torch.nn.utils.clip_grad_norm_(parameters, max_norm)] (line 572)

    The library function the loop calls with [max_norm = 1.0] and the
    default [norm_type = 2.0]: the norm of the per-tensor norms, the
    coefficient [max_norm / (total_norm + 1e-6)] clamped to at most 1, and
    every gradient multiplied by it in place.  The argument is the list of
    the parameters' gradients, each one flattened; the result is the
    gradients after the call and the returned total norm. *)

Definition vector_norm (g : list R) : R :=
  sqrt (Rsum (map (fun x => x * x) g)).

Definition clip_grad_norm_ (grads : list (list R)) (max_norm : R)
  : list (list R) * R :=
  let norms := map vector_norm grads in
  let total_norm := vector_norm norms in
  let clip_coef := max_norm / (total_norm + 1e-6) in
  let clip_coef_clamped := Rmin clip_coef 1.0 in
  (map (map (fun g => g * clip_coef_clamped)) grads, total_norm).

(** The global L2 norm of the specification: all gradient entries taken as
    one vector. *)
Definition global_norm (grads : list (list R)) : R :=
  vector_norm (concat grads).

(** ** Parameter objects, module objects and the parameter store

    A [torch.nn.Parameter] is an object with an identity: two attributes
    may hold the same one.  Identities are named after the place of the
    constructor that creates the parameter; the values live in a store
    indexed by identity, which in-place operations update. *)

Inductive block_param : Type :=
| ln_1_weight | ln_1_bias
| attn_c_attn_weight | attn_c_attn_bias
| attn_c_proj_weight | attn_c_proj_bias
| ln_2_weight | ln_2_bias
| mlp_c_fc_weight | mlp_c_fc_bias
| mlp_c_proj_weight | mlp_c_proj_bias.

Inductive param_id : Type :=
| wte_weight
| wpe_weight
| h_param (layer : nat) (p : block_param)
| ln_f_weight
| ln_f_bias
| lm_head_weight.

Definition block_param_eq_dec (a b : block_param) : {a = b} + {a <> b}.
Proof. decide equality. Defined.

Definition param_id_eq_dec (a b : param_id) : {a = b} + {a <> b}.
Proof.
  decide equality; [apply block_param_eq_dec | apply Nat.eq_dec].
Defined.

(** The flattened (row-major) data of every parameter. *)
Definition store : Type := param_id -> list R.

Definition store_set (s : store) (i : param_id) (v : list R) : store :=
  fun j => if param_id_eq_dec j i then v else s j.

Module Param.
Record t : Type := {
  id : param_id;
  shape : list nat;
  requires_grad : bool
}.

Definition dim (p : t) : nat := length (shape p).

Definition numel (p : t) : nat := fold_right Nat.mul 1%nat (shape p).

(** [nn.Parameter(torch.empty(shape))]. *)
Definition new (i : param_id) (shape : list nat) : t :=
  {| id := i; shape := shape; requires_grad := true |}.
End Param.

Module Obj.
Module Linear.
Record t : Type := {
  weight : Param.t;
  bias : option Param.t;
  (** [hasattr(module, "NANOGPT_SCALE_INIT")] *)
  NANOGPT_SCALE_INIT : bool
}.
End Linear.

Module Embedding.
Record t : Type := { weight : Param.t }.
End Embedding.

Module LayerNorm.
Record t : Type := {
  weight : Param.t;
  bias : Param.t
}.
End LayerNorm.

Module CausalSelfAttention.
Record t : Type := {
  c_attn : Linear.t;
  c_proj : Linear.t;
  n_head : nat;
  n_embed : nat
}.
End CausalSelfAttention.

Module MLP.
Record t : Type := {
  c_fc : Linear.t;
  c_proj : Linear.t
}.
End MLP.

Module Block.
Record t : Type := {
  ln_1 : LayerNorm.t;
  attn : CausalSelfAttention.t;
  ln_2 : LayerNorm.t;
  mlp : MLP.t
}.
End Block.

Module GPT.
Record t : Type := {
  config : GPTConfig.t;
  wte : Embedding.t;
  wpe : Embedding.t;
  h : list Block.t;
  ln_f : LayerNorm.t;
  lm_head : Linear.t
}.
End GPT.
End Obj.

(** The module objects of a model, as [isinstance] tells them apart. *)
Inductive module : Type :=
| IsLinear (l : Obj.Linear.t)
| IsEmbedding (e : Obj.Embedding.t)
| IsLayerNorm (n : Obj.LayerNorm.t)
| IsGELU
| IsCausalSelfAttention (a : Obj.CausalSelfAttention.t)
| IsMLP (m : Obj.MLP.t)
| IsBlock (b : Obj.Block.t)
| IsModuleList (l : list Obj.Block.t)
| IsModuleDict (g : Obj.GPT.t)
| IsGPT (g : Obj.GPT.t).

(** The order in which [model.apply(fn)] visits the modules: the children
    in registration order, each with its own children first, then the module
    itself. *)
Definition attn_modules (a : Obj.CausalSelfAttention.t) : list module :=
  [IsLinear (Obj.CausalSelfAttention.c_attn a);
   IsLinear (Obj.CausalSelfAttention.c_proj a);
   IsCausalSelfAttention a].

Definition mlp_modules (m : Obj.MLP.t) : list module :=
  [IsLinear (Obj.MLP.c_fc m); IsGELU; IsLinear (Obj.MLP.c_proj m); IsMLP m].

Definition block_modules (b : Obj.Block.t) : list module :=
  [IsLayerNorm (Obj.Block.ln_1 b)] ++ attn_modules (Obj.Block.attn b)
  ++ [IsLayerNorm (Obj.Block.ln_2 b)] ++ mlp_modules (Obj.Block.mlp b)
  ++ [IsBlock b].

Definition apply_order (g : Obj.GPT.t) : list module :=
  [IsEmbedding (Obj.GPT.wte g); IsEmbedding (Obj.GPT.wpe g)]
  ++ flat_map block_modules (Obj.GPT.h g)
  ++ [IsModuleList (Obj.GPT.h g); IsLayerNorm (Obj.GPT.ln_f g); IsModuleDict g]
  ++ [IsLinear (Obj.GPT.lm_head g); IsGPT g].

(** [model.named_parameters()]: the parameters in registration order under
    their dotted names, a parameter reachable under two names listed once,
    under the first. *)
Definition string_of_nat (n : nat) : string :=
  NilZero.string_of_uint (Nat.to_uint n).

Definition linear_params (prefix : string) (l : Obj.Linear.t)
  : list (string * Param.t) :=
  (prefix ++ "weight", Obj.Linear.weight l)%string
  :: match Obj.Linear.bias l with
     | Some b => [((prefix ++ "bias")%string, b)]
     | None => []
     end.

Definition layer_norm_params (prefix : string) (n : Obj.LayerNorm.t)
  : list (string * Param.t) :=
  [((prefix ++ "weight")%string, Obj.LayerNorm.weight n);
   ((prefix ++ "bias")%string, Obj.LayerNorm.bias n)].

Definition block_params (prefix : string) (b : Obj.Block.t)
  : list (string * Param.t) :=
  layer_norm_params (prefix ++ "ln_1.") (Obj.Block.ln_1 b)
  ++ linear_params (prefix ++ "attn.c_attn.")
       (Obj.CausalSelfAttention.c_attn (Obj.Block.attn b))
  ++ linear_params (prefix ++ "attn.c_proj.")
       (Obj.CausalSelfAttention.c_proj (Obj.Block.attn b))
  ++ layer_norm_params (prefix ++ "ln_2.") (Obj.Block.ln_2 b)
  ++ linear_params (prefix ++ "mlp.c_fc.") (Obj.MLP.c_fc (Obj.Block.mlp b))
  ++ linear_params (prefix ++ "mlp.c_proj.") (Obj.MLP.c_proj (Obj.Block.mlp b)).

Fixpoint remove_duplicate (seen : list param_id)
         (l : list (string * Param.t)) : list (string * Param.t) :=
  match l with
  | [] => []
  | (name, p) :: l' =>
      if in_dec param_id_eq_dec (Param.id p) seen
      then remove_duplicate seen l'
      else (name, p) :: remove_duplicate (Param.id p :: seen) l'
  end.

Definition named_parameters (g : Obj.GPT.t) : list (string * Param.t) :=
  remove_duplicate []
    ([("transformer.wte.weight"%string, Obj.Embedding.weight (Obj.GPT.wte g));
      ("transformer.wpe.weight"%string, Obj.Embedding.weight (Obj.GPT.wpe g))]
     ++ concat (imap (fun i b =>
                        block_params ("transformer.h." ++ string_of_nat i ++ ".") b)
                     (Obj.GPT.h g))
     ++ layer_norm_params "transformer.ln_f." (Obj.GPT.ln_f g)
     ++ linear_params "lm_head." (Obj.GPT.lm_head g)).

Definition parameters (g : Obj.GPT.t) : list Param.t :=
  map snd (named_parameters g).

(** ** Construction and initialization: [GPT.__init__], [_init_weights] *)

Section Construction.
(** The random number generator and the samplers of torch: a call draws
    the given number of values and advances the generator. *)
Variable generator : Type.
Variable normal_sample : generator -> nat -> R -> R -> list R * generator.
Variable uniform_sample : generator -> nat -> R -> R -> list R * generator.

Record world : Type := {
  params : store;
  rng : generator
}.

(** [torch.nn.init]: in-place fills of one parameter. *)
Definition normal_ (p : Param.t) (mean std : R) (w : world) : world :=
  let (v, g) := normal_sample (rng w) (Param.numel p) mean std in
  {| params := store_set (params w) (Param.id p) v; rng := g |}.

Definition uniform_ (p : Param.t) (a b : R) (w : world) : world :=
  let (v, g) := uniform_sample (rng w) (Param.numel p) a b in
  {| params := store_set (params w) (Param.id p) v; rng := g |}.

Definition zeros_ (p : Param.t) (w : world) : world :=
  {| params := store_set (params w) (Param.id p) (repeat 0 (Param.numel p));
     rng := rng w |}.

Definition ones_ (p : Param.t) (w : world) : world :=
  {| params := store_set (params w) (Param.id p) (repeat 1 (Param.numel p));
     rng := rng w |}.

(** [nn.Linear(in_features, out_features, bias)]: fresh parameters, filled
    by the library's default ([kaiming_uniform_] with [a = sqrt 5], that is
    uniform on [-1/sqrt fan_in, 1/sqrt fan_in], for the weight and the same
    interval for the bias). *)
Definition Linear_new (wid : param_id) (bid : option param_id)
           (in_features out_features : nat) (w : world)
  : Obj.Linear.t * world :=
  let weight := Param.new wid [out_features; in_features] in
  let bound := 1 / sqrt (INR in_features) in
  let w := uniform_ weight (- bound) bound w in
  match bid with
  | Some bid =>
      let bias := Param.new bid [out_features] in
      let w := uniform_ bias (- bound) bound w in
      ({| Obj.Linear.weight := weight; Obj.Linear.bias := Some bias;
          Obj.Linear.NANOGPT_SCALE_INIT := false |}, w)
  | None =>
      ({| Obj.Linear.weight := weight; Obj.Linear.bias := None;
          Obj.Linear.NANOGPT_SCALE_INIT := false |}, w)
  end.

(** [module.NANOGPT_SCALE_INIT = 1]. *)
Definition set_NANOGPT_SCALE_INIT (l : Obj.Linear.t) : Obj.Linear.t :=
  {| Obj.Linear.weight := Obj.Linear.weight l;
     Obj.Linear.bias := Obj.Linear.bias l;
     Obj.Linear.NANOGPT_SCALE_INIT := true |}.

(** [nn.Embedding(num_embeddings, embedding_dim)]: standard normal by
    default. *)
Definition Embedding_new (wid : param_id) (num_embeddings embedding_dim : nat)
           (w : world) : Obj.Embedding.t * world :=
  let weight := Param.new wid [num_embeddings; embedding_dim] in
  ({| Obj.Embedding.weight := weight |}, normal_ weight 0 1 w).

(** [nn.LayerNorm(n)]: scale one, shift zero. *)
Definition LayerNorm_new (wid bid : param_id) (n : nat) (w : world)
  : Obj.LayerNorm.t * world :=
  let weight := Param.new wid [n] in
  let bias := Param.new bid [n] in
  ({| Obj.LayerNorm.weight := weight; Obj.LayerNorm.bias := bias |},
   zeros_ bias (ones_ weight w)).

(** Python's [a % b == 0] on sizes, with its [ZeroDivisionError]. *)
Definition py_divides (b a : nat) : result bool :=
  if (b =? 0)%nat then Raise ZeroDivisionError else Ok ((a mod b) =? 0)%nat.

(** [CausalSelfAttention.__init__] for the block at index [layer]. *)
Definition CausalSelfAttention_new (config : GPTConfig.t) (layer : nat)
           (w : world) : result (Obj.CausalSelfAttention.t * world) :=
  ok <- py_divides (GPTConfig.n_head config) (GPTConfig.n_embed config) ;;
  _ <- py_assert ok ;;
  let C := GPTConfig.n_embed config in
  let (c_attn, w) :=
    Linear_new (h_param layer attn_c_attn_weight)
               (Some (h_param layer attn_c_attn_bias)) C (3 * C) w in
  let (c_proj, w) :=
    Linear_new (h_param layer attn_c_proj_weight)
               (Some (h_param layer attn_c_proj_bias)) C C w in
  let c_proj := set_NANOGPT_SCALE_INIT c_proj in
  Ok ({| Obj.CausalSelfAttention.c_attn := c_attn;
         Obj.CausalSelfAttention.c_proj := c_proj;
         Obj.CausalSelfAttention.n_head := GPTConfig.n_head config;
         Obj.CausalSelfAttention.n_embed := C |}, w).

Definition MLP_new (config : GPTConfig.t) (layer : nat) (w : world)
  : Obj.MLP.t * world :=
  let C := GPTConfig.n_embed config in
  let (c_fc, w) :=
    Linear_new (h_param layer mlp_c_fc_weight)
               (Some (h_param layer mlp_c_fc_bias)) C (4 * C) w in
  let (c_proj, w) :=
    Linear_new (h_param layer mlp_c_proj_weight)
               (Some (h_param layer mlp_c_proj_bias)) (4 * C) C w in
  let c_proj := set_NANOGPT_SCALE_INIT c_proj in
  ({| Obj.MLP.c_fc := c_fc; Obj.MLP.c_proj := c_proj |}, w).

Definition Block_new (config : GPTConfig.t) (layer : nat) (w : world)
  : result (Obj.Block.t * world) :=
  let C := GPTConfig.n_embed config in
  let (ln_1, w) :=
    LayerNorm_new (h_param layer ln_1_weight) (h_param layer ln_1_bias) C w in
  aw <- CausalSelfAttention_new config layer w ;;
  let (attn, w) := aw : Obj.CausalSelfAttention.t * world in
  let (ln_2, w) :=
    LayerNorm_new (h_param layer ln_2_weight) (h_param layer ln_2_bias) C w in
  let (mlp, w) := MLP_new config layer w in
  Ok ({| Obj.Block.ln_1 := ln_1; Obj.Block.attn := attn;
         Obj.Block.ln_2 := ln_2; Obj.Block.mlp := mlp |}, w).

(** [[Block(config) for _ in range(n)]], the blocks numbered from
    [layer]. *)
Fixpoint Blocks_new (config : GPTConfig.t) (layer n : nat) (w : world)
  : result (list Obj.Block.t * world) :=
  match n with
  | O => Ok ([], w)
  | S n' =>
      bw <- Block_new config layer w ;;
      let (b, w) := bw : Obj.Block.t * world in
      bsw <- Blocks_new config (S layer) n' w ;;
      let (bs, w) := bsw : list Obj.Block.t * world in
      Ok (b :: bs, w)
  end.

(** [GPT._init_weights(module)]. *)
Definition _init_weights (config : GPTConfig.t) (m : module) (w : world)
  : world :=
  match m with
  | IsLinear l =>
      let std := 0.02 in
      let std :=
        if Obj.Linear.NANOGPT_SCALE_INIT l
        then std * Rpower (INR (2 * GPTConfig.n_layer config)) (- 0.5)
        else std in
      let w := normal_ (Obj.Linear.weight l) 0.0 std w in
      match Obj.Linear.bias l with
      | Some bias => zeros_ bias w
      | None => w
      end
  | IsEmbedding e => normal_ (Obj.Embedding.weight e) 0.0 0.02 w
  | _ => w
  end.

(** [self.apply(fn)]. *)
Definition apply (fn : module -> world -> world) (g : Obj.GPT.t) (w : world)
  : world :=
  fold_left (fun w m => fn m w) (apply_order g) w.

(** [GPT.__init__(config)]. *)
Definition GPT_new (config : GPTConfig.t) (w : world)
  : result (Obj.GPT.t * world) :=
  let C := GPTConfig.n_embed config in
  let (wte, w) := Embedding_new wte_weight (GPTConfig.vocab_size config) C w in
  let (wpe, w) := Embedding_new wpe_weight (GPTConfig.block_size config) C w in
  hw <- Blocks_new config 0 (GPTConfig.n_layer config) w ;;
  let (h, w) := hw : list Obj.Block.t * world in
  let (ln_f, w) := LayerNorm_new ln_f_weight ln_f_bias C w in
  let (lm_head, w) :=
    Linear_new lm_head_weight None C (GPTConfig.vocab_size config) w in
  (* weight sharing scheme *)
  let wte := {| Obj.Embedding.weight := Obj.Linear.weight lm_head |} in
  let self := {| Obj.GPT.config := config; Obj.GPT.wte := wte;
                 Obj.GPT.wpe := wpe; Obj.GPT.h := h; Obj.GPT.ln_f := ln_f;
                 Obj.GPT.lm_head := lm_head |} in
  (* init params *)
  Ok (self, apply (_init_weights config) self w).
End Construction.

Arguments params {generator} w.
Arguments rng {generator} w.

(** ** Reading a model's parameter values out of the store *)

(** [data.view(nrows, ncols)]. *)
Definition reshape (nrows ncols : nat) (data : list R) : list (list R) :=
  map (fun i => firstn ncols (skipn (i * ncols) data)) (seq 0 nrows).

Definition vector_of (s : store) (p : Param.t) : list R := s (Param.id p).

Definition matrix_of (s : store) (p : Param.t) : list (list R) :=
  match Param.shape p with
  | [nrows; ncols] => reshape nrows ncols (s (Param.id p))
  | _ => []
  end.

Definition load_linear (s : store) (l : Obj.Linear.t) : Linear.t :=
  {| Linear.weight := matrix_of s (Obj.Linear.weight l);
     Linear.bias := option_map (vector_of s) (Obj.Linear.bias l) |}.

Definition load_embedding (s : store) (e : Obj.Embedding.t) : Embedding.t :=
  {| Embedding.weight := matrix_of s (Obj.Embedding.weight e) |}.

Definition load_layer_norm (s : store) (n : Obj.LayerNorm.t) : LayerNorm.t :=
  {| LayerNorm.weight := vector_of s (Obj.LayerNorm.weight n);
     LayerNorm.bias := vector_of s (Obj.LayerNorm.bias n) |}.

Definition load_block (s : store) (b : Obj.Block.t) : Block.t :=
  let a := Obj.Block.attn b in
  let m := Obj.Block.mlp b in
  {| Block.ln_1 := load_layer_norm s (Obj.Block.ln_1 b);
     Block.attn :=
       {| CausalSelfAttention.c_attn :=
            load_linear s (Obj.CausalSelfAttention.c_attn a);
          CausalSelfAttention.c_proj :=
            load_linear s (Obj.CausalSelfAttention.c_proj a);
          CausalSelfAttention.n_head := Obj.CausalSelfAttention.n_head a;
          CausalSelfAttention.n_embed := Obj.CausalSelfAttention.n_embed a |};
     Block.ln_2 := load_layer_norm s (Obj.Block.ln_2 b);
     Block.mlp :=
       {| MLP.c_fc := load_linear s (Obj.MLP.c_fc m);
          MLP.c_proj := load_linear s (Obj.MLP.c_proj m) |} |}.

(** The parameter values a model object currently has. *)
Definition load (s : store) (g : Obj.GPT.t) : GPT.t :=
  {| GPT.config := Obj.GPT.config g;
     GPT.wte := load_embedding s (Obj.GPT.wte g);
     GPT.wpe := load_embedding s (Obj.GPT.wpe g);
     GPT.h := map (load_block s) (Obj.GPT.h g);
     GPT.ln_f := load_layer_norm s (Obj.GPT.ln_f g);
     GPT.lm_head := load_linear s (Obj.GPT.lm_head g) |}.

(** [model(idx, targets)] on a model object: the forward pass reads the
    store and leaves it as it is. *)
Definition call (g : Obj.GPT.t) (s : store) (idx : LongTensor)
           (targets : option LongTensor)
  : result (list (list (list R)) * option R) :=
  GPT.forward (load s g) idx targets.

(** ** [torch.optim.AdamW] and [GPT.configure_optimizers] *)

Module AdamW.
Record param_group : Type := {
  params : list Param.t;
  lr : R;
  betas : R * R;
  eps : R;
  weight_decay : R
}.

(** The optimizer state of one parameter. *)
Record moments : Type := {
  step_count : nat;
  exp_avg : list R;
  exp_avg_sq : list R
}.

Record t : Type := {
  param_groups : list param_group;
  fused : bool;
  state : param_id -> option moments
}.

Definition Rle_b (a b : R) : bool := if Rle_dec a b then true else false.
Definition Rlt_b (a b : R) : bool := if Rlt_dec a b then true else false.

(** [AdamW(groups, lr=, betas=, eps=, fused=)]: every group is a pair of
    its parameters and its own weight decay and takes the remaining options
    from the arguments; invalid options are a [ValueError]. *)
Definition new (groups : list (list Param.t * R)) (lr : R) (betas : R * R)
           (eps : R) (fused : bool) : result t :=
  if negb (Rle_b 0 lr) then Raise ValueError
  else if negb (Rle_b 0 eps) then Raise ValueError
  else if negb (Rle_b 0 (fst betas) && Rlt_b (fst betas) 1) then Raise ValueError
  else if negb (Rle_b 0 (snd betas) && Rlt_b (snd betas) 1) then Raise ValueError
  else
    Ok {| param_groups :=
            map (fun g => {| params := fst g; lr := lr; betas := betas;
                             eps := eps; weight_decay := snd g |}) groups;
          fused := fused;
          state := fun _ => None |}.

(** [param_group['lr'] = lr] for every group. *)
Definition set_lr (opt : t) (new_lr : R) : t :=
  {| param_groups :=
       map (fun g => {| params := params g; lr := new_lr; betas := betas g;
                        eps := eps g; weight_decay := weight_decay g |})
           (param_groups opt);
     fused := fused opt;
     state := state opt |}.

(** The decoupled-weight-decay Adam update of one parameter with gradient
    [grad], in place. *)
Definition update (g : param_group) (grad : list R) (st : option moments)
           (p : list R) : moments * list R :=
  let st := match st with
            | Some st => st
            | None => {| step_count := 0;
                         exp_avg := repeat 0 (length p);
                         exp_avg_sq := repeat 0 (length p) |}
            end in
  let step := S (step_count st) in
  let beta1 := fst (betas g) in
  let beta2 := snd (betas g) in
  let p := map (fun x => x * (1 - lr g * weight_decay g)) p in
  let exp_avg :=
    zip_with (fun m gr => beta1 * m + (1 - beta1) * gr) (exp_avg st) grad in
  let exp_avg_sq :=
    zip_with (fun v gr => beta2 * v + (1 - beta2) * (gr * gr))
             (exp_avg_sq st) grad in
  let bias_correction1 := 1 - beta1 ^ step in
  let bias_correction2 := 1 - beta2 ^ step in
  let step_size := lr g / bias_correction1 in
  let denom :=
    map (fun v => sqrt v / sqrt bias_correction2 + eps g) exp_avg_sq in
  let p := zip_with (fun x u => x - step_size * u) p
                    (zip_with Rdiv exp_avg denom) in
  ({| step_count := step; exp_avg := exp_avg; exp_avg_sq := exp_avg_sq |}, p).

Definition set_state (opt : t) (i : param_id) (m : moments) : t :=
  {| param_groups := param_groups opt;
     fused := fused opt;
     state := fun j => if param_id_eq_dec j i then Some m else state opt j |}.

(** [optimizer.step()]: every parameter of every group that has a gradient
    is updated in the store. *)
Definition step_param (grad : param_id -> option (list R)) (g : param_group)
           (os : t * store) (p : Param.t) : t * store :=
  match grad (Param.id p) with
  | None => os
  | Some gr =>
      let (m, v) := update g gr (state (fst os) (Param.id p))
                           (snd os (Param.id p)) in
      (set_state (fst os) (Param.id p) m, store_set (snd os) (Param.id p) v)
  end.

Definition step (opt : t) (grad : param_id -> option (list R)) (s : store)
  : t * store :=
  fold_left (fun os g => fold_left (step_param grad g) (params g) os)
            (param_groups opt) (opt, s).
End AdamW.

(** A Python [dict] built from (key, value) items: a repeated key keeps its
    first position and takes the last value. *)
Fixpoint dict_set {V : Type} (d : list (string * V)) (k : string) (v : V)
  : list (string * V) :=
  match d with
  | [] => [(k, v)]
  | (k', v') :: d' =>
      if String.eqb k' k then (k', v) :: d' else (k', v') :: dict_set d' k v
  end.

Definition dict_of {V : Type} (items : list (string * V)) : list (string * V) :=
  fold_left (fun d kv => dict_set d (fst kv) (snd kv)) items [].

(** The body of [configure_optimizers] for the given result of
    [self.named_parameters()]; [fused_available] says whether the installed
    [AdamW] has a [fused] option.  The call of [AdamW] passes [fused=] in
    either case, so an [AdamW] without that option rejects the call with a
    [TypeError]. *)
Definition configure_optimizers_for (named : list (string * Param.t))
           (weight_decay learning_rate : R) (device_type : string)
           (fused_available : bool) : result AdamW.t :=
  (* get all params that require grad *)
  let param_dict := dict_of named in
  let param_dict :=
    filter (fun np => Param.requires_grad (snd np)) param_dict in
  (* create optim groups *)
  let decay_params :=
    map snd (filter (fun np => (2 <=? Param.dim (snd np))%nat) param_dict) in
  let nodecay_params :=
    map snd (filter (fun np => (Param.dim (snd np) <? 2)%nat) param_dict) in
  let optim_groups := [(decay_params, weight_decay); (nodecay_params, 0.0)] in
  let use_fused := (fused_available && String.eqb device_type "cuda")%bool in
  if fused_available then
    AdamW.new optim_groups learning_rate (0.9, 0.95) 1e-8 use_fused
  else Raise TypeError.

Definition configure_optimizers (self : Obj.GPT.t)
           (weight_decay learning_rate : R) (device_type : string)
           (fused_available : bool) : result AdamW.t :=
  configure_optimizers_for (named_parameters self) weight_decay learning_rate
                           device_type fused_available.

(** The trainable parameters: the values of the dictionary that require a
    gradient. *)
Definition trainable (named : list (string * Param.t)) : list Param.t :=
  filter Param.requires_grad (map snd (dict_of named)).

(** ** The object graph of a constructed model and its initialization plan

    What [GPT_new] builds does not depend on the random draws: the module
    objects below, and for every parameter the last fill [_init_weights]
    applies to it. *)

Definition linear_obj (wid : param_id) (bid : option param_id)
           (in_features out_features : nat) (scale_init : bool)
  : Obj.Linear.t :=
  {| Obj.Linear.weight := Param.new wid [out_features; in_features];
     Obj.Linear.bias := option_map (fun b => Param.new b [out_features]) bid;
     Obj.Linear.NANOGPT_SCALE_INIT := scale_init |}.

Definition layer_norm_obj (wid bid : param_id) (n : nat) : Obj.LayerNorm.t :=
  {| Obj.LayerNorm.weight := Param.new wid [n];
     Obj.LayerNorm.bias := Param.new bid [n] |}.

Definition block_obj (config : GPTConfig.t) (layer : nat) : Obj.Block.t :=
  let C := GPTConfig.n_embed config in
  {| Obj.Block.ln_1 :=
       layer_norm_obj (h_param layer ln_1_weight) (h_param layer ln_1_bias) C;
     Obj.Block.attn :=
       {| Obj.CausalSelfAttention.c_attn :=
            linear_obj (h_param layer attn_c_attn_weight)
                       (Some (h_param layer attn_c_attn_bias)) C (3 * C) false;
          Obj.CausalSelfAttention.c_proj :=
            linear_obj (h_param layer attn_c_proj_weight)
                       (Some (h_param layer attn_c_proj_bias)) C C true;
          Obj.CausalSelfAttention.n_head := GPTConfig.n_head config;
          Obj.CausalSelfAttention.n_embed := C |};
     Obj.Block.ln_2 :=
       layer_norm_obj (h_param layer ln_2_weight) (h_param layer ln_2_bias) C;
     Obj.Block.mlp :=
       {| Obj.MLP.c_fc :=
            linear_obj (h_param layer mlp_c_fc_weight)
                       (Some (h_param layer mlp_c_fc_bias)) C (4 * C) false;
          Obj.MLP.c_proj :=
            linear_obj (h_param layer mlp_c_proj_weight)
                       (Some (h_param layer mlp_c_proj_bias)) (4 * C) C true |} |}.

Definition gpt_obj (config : GPTConfig.t) : Obj.GPT.t :=
  let C := GPTConfig.n_embed config in
  let lm_head := linear_obj lm_head_weight None C (GPTConfig.vocab_size config)
                            false in
  {| Obj.GPT.config := config;
     Obj.GPT.wte := {| Obj.Embedding.weight := Obj.Linear.weight lm_head |};
     Obj.GPT.wpe :=
       {| Obj.Embedding.weight :=
            Param.new wpe_weight [GPTConfig.block_size config; C] |};
     Obj.GPT.h := map (block_obj config) (seq 0 (GPTConfig.n_layer config));
     Obj.GPT.ln_f := layer_norm_obj ln_f_weight ln_f_bias C;
     Obj.GPT.lm_head := lm_head |}.






Section Drawn.
Variable generator : Type.
Variable normal_sample : generator -> nat -> R -> R -> list R * generator.



End Drawn.

(** ** Operations on a constructed model *)

(** The token embedding and the output projection hold the same parameter
    object. *)
Definition tied (g : Obj.GPT.t) : Prop :=
  Obj.Embedding.weight (Obj.GPT.wte g) = Obj.Linear.weight (Obj.GPT.lm_head g).

Section Operations.
Variable generator : Type.
Variable normal_sample : generator -> nat -> R -> R -> list R * generator.

Record training_state : Type := {
  model : Obj.GPT.t;
  state_world : world generator;
  optimizer : AdamW.t
}.

Inductive operation : Type :=
| Initialize
| Forward (idx : LongTensor) (targets : option LongTensor)
| OptimizerStep (grad : param_id -> option (list R))
| CopyIntoTokenEmbedding (v : list R)
| CopyIntoOutputProjection (v : list R).

(** [self.apply(self._init_weights)], [model(idx, targets)] (its result is
    dropped here), [optimizer.step()] with the gradients the parameters
    carry, and in-place copies into the weight reached through
    [transformer.wte] or through [lm_head]. *)
Definition run (op : operation) (st : training_state) : training_state :=
  match op with
  | Initialize =>
      {| model := model st;
         state_world :=
           apply generator
                 (_init_weights generator normal_sample
                                (Obj.GPT.config (model st)))
                 (model st) (state_world st);
         optimizer := optimizer st |}
  | Forward idx targets =>
      match call (model st) (params (state_world st)) idx targets with
      | _ => st
      end
  | OptimizerStep grad =>
      let (opt, s) := AdamW.step (optimizer st) grad (params (state_world st)) in
      {| model := model st;
         state_world := {| params := s; rng := rng (state_world st) |};
         optimizer := opt |}
  | CopyIntoTokenEmbedding v =>
      {| model := model st;
         state_world :=
           {| params :=
                store_set (params (state_world st))
                  (Param.id (Obj.Embedding.weight (Obj.GPT.wte (model st)))) v;
              rng := rng (state_world st) |};
         optimizer := optimizer st |}
  | CopyIntoOutputProjection v =>
      {| model := model st;
         state_world :=
           {| params :=
                store_set (params (state_world st))
                  (Param.id (Obj.Linear.weight (Obj.GPT.lm_head (model st)))) v;
              rng := rng (state_world st) |};
         optimizer := optimizer st |}
  end.

Definition run_all (ops : list operation) (st : training_state)
  : training_state :=
  fold_left (fun st op => run op st) ops st.

(** The data read through either name. *)
Definition token_embedding_data (st : training_state) : list R :=
  vector_of (params (state_world st))
            (Obj.Embedding.weight (Obj.GPT.wte (model st))).

Definition output_projection_data (st : training_state) : list R :=
  vector_of (params (state_world st))
            (Obj.Linear.weight (Obj.GPT.lm_head (model st))).
End Operations.

(** ** The gradient-accumulation loop (lines 543-569) *)

Definition vscale (c : R) (v : list R) : list R := map (fun x => c * x) v.

(** The sum of a non-empty list of vectors. *)
Definition vsum (vs : list (list R)) : list R :=
  match vs with
  | [] => []
  | v :: vs' => fold_left vadd vs' v
  end.

(** A scalar of the autograd graph that depends on the parameters through
    the mean cross-entropy of the current batch only: its value, and its
    derivative with respect to that mean. *)
Record scalar : Type := {
  value : R;
  wrt_loss : R
}.

Definition scalar_div (s : scalar) (k : R) : scalar :=
  {| value := value s / k; wrt_loss := wrt_loss s / k |}.

(** One training process: the gradient accumulator of its parameters (all
    of them flattened into one vector; [None] after [zero_grad]) and its
    [loss_accum]. *)
Record worker : Type := {
  grad : option (list R);
  loss_accum : R
}.

Section Accumulation.
(** The reverse pass is not derived here.  [token_grad m row t target] is
    the gradient, with respect to the parameters of [m], of the
    cross-entropy term of position [t] of a row of token ids with that
    target. *)
Variable token_grad : GPT.t -> list Z -> nat -> Z -> list R.

(** The gradients of all position terms of a batch, row by row. *)
Definition position_grads (m : GPT.t) (x y : LongTensor) : list (list R) :=
  concat (zip_with (fun row targets =>
                      imap (fun t target => token_grad m row t target) targets)
                   (rows x) (rows y)).

(** The gradient of the loss [forward] returns: the loss is the mean of the
    position terms, so its gradient is the mean of their gradients. *)
Definition loss_grad (m : GPT.t) (x y : LongTensor) : list R :=
  let gs := position_grads m x y in
  vscale (1 / INR (length gs)) (vsum gs).

(** [loss.backward()]: the gradient of the scalar is added into the
    accumulator (or becomes it, when there is none yet). *)
Definition backward (m : GPT.t) (x y : LongTensor) (loss : scalar)
           (acc : option (list R)) : option (list R) :=
  let g := vscale (wrt_loss loss) (loss_grad m x y) in
  match acc with
  | None => Some g
  | Some a => Some (vadd a g)
  end.

(** The body of the micro-step loop on one process, without the collective
    communication. *)
Definition micro_step (m : GPT.t) (grad_accum_steps : nat)
           (xy : LongTensor * LongTensor) (wk : worker) : result worker :=
  let (x, y) := xy in
  out <- GPT.forward m x (Some y) ;;
  match snd out with
  | None => Raise TypeError
  | Some l =>
      let loss := {| value := l; wrt_loss := 1 |} in
      let loss := scalar_div loss (INR grad_accum_steps) in
      let loss_accum := loss_accum wk + value loss in
      Ok {| grad := backward m x y loss (grad wk); loss_accum := loss_accum |}
  end.

(** The gradient all-reduce of DDP: every process ends up with the average
    of the processes' accumulators. *)
Definition all_reduce_grad (ws : list worker) : list worker :=
  let avg := vscale (1 / INR (length ws))
                    (vsum (map (fun wk => match grad wk with
                                          | Some g => g
                                          | None => []
                                          end) ws)) in
  map (fun wk => {| grad := Some avg; loss_accum := loss_accum wk |}) ws.

(** [dist.all_reduce(loss_accum, op=dist.ReduceOp.AVG)]. *)
Definition all_reduce_loss (ws : list worker) : list worker :=
  let avg := Rsum (map loss_accum ws) / INR (length ws) in
  map (fun wk => {| grad := grad wk; loss_accum := avg |}) ws.

(** The micro-step loop of all processes in lock step; process [rank]
    fetches [loader rank micro_step] at each micro-step, and with DDP the
    backward pass of the last micro-step, and only that one, synchronizes
    the gradients. *)
Fixpoint micro_steps (m : GPT.t) (ddp : bool) (grad_accum_steps : nat)
         (loader : nat -> nat -> LongTensor * LongTensor)
         (steps : list nat) (ws : list worker) : result (list worker) :=
  match steps with
  | [] => Ok ws
  | micro_step_index :: steps' =>
      let require_backward_grad_sync :=
        (ddp && (micro_step_index =? grad_accum_steps - 1)%nat)%bool in
      ws <- mapM (fun rw => micro_step m grad_accum_steps
                                       (loader (fst rw) micro_step_index)
                                       (snd rw))
                 (combine (seq 0 (length ws)) ws) ;;
      let ws := if require_backward_grad_sync then all_reduce_grad ws else ws in
      micro_steps m ddp grad_accum_steps loader steps' ws
  end.

(** One optimization step up to the clipping: [zero_grad], [loss_accum =
    0.0], the micro-step loop, and with DDP the averaging of
    [loss_accum]. *)
Definition accumulate (m : GPT.t) (ddp : bool) (world_size : nat)
           (grad_accum_steps : nat)
           (loader : nat -> nat -> LongTensor * LongTensor)
  : result (list worker) :=
  let ws := repeat {| grad := None; loss_accum := 0.0 |} world_size in
  ws <- micro_steps m ddp grad_accum_steps loader (seq 0 grad_accum_steps) ws ;;
  Ok (if ddp then all_reduce_loss ws else ws).

(** All micro-batches of the step, process by process. *)
Definition all_batches (world_size grad_accum_steps : nat)
           (loader : nat -> nat -> LongTensor * LongTensor)
  : list (LongTensor * LongTensor) :=
  flat_map (fun rank => map (loader rank) (seq 0 grad_accum_steps))
           (seq 0 world_size).
End Accumulation.

(** A micro-batch the model accepts: inputs and targets of shape (B, T)
    with valid token ids. *)
Definition valid_batch (m : GPT.t) (B T : nat) (xy : LongTensor * LongTensor)
  : Prop :=
  let V := GPTConfig.vocab_size (GPT.config m) in
  well_formed (fst xy) /\ size0 (fst xy) = B /\ size1 (fst xy) = T
  /\ valid_ids V (fst xy)
  /\ well_formed (snd xy) /\ size0 (snd xy) = B /\ size1 (snd xy) = T
  /\ valid_ids V (snd xy).

(** The loop seen from one process, once the forward passes are known to
    succeed: the loss of a micro-batch, the state after one micro-step and
    after a list of micro-steps. *)
Definition batch_loss (m : GPT.t) (xy : LongTensor * LongTensor) : R :=
  Rsum (zip_with token_ce (concat (logits_of m (fst xy)))
                 (concat (rows (snd xy))))
  / INR (length (concat (logits_of m (fst xy)))).

Section LocalRun.
Variable token_grad : GPT.t -> list Z -> nat -> Z -> list R.
Variable m : GPT.t.
Variable grad_accum_steps : nat.
Variable loader : nat -> nat -> LongTensor * LongTensor.

Definition local_step (rank : nat) (wk : worker) (k : nat) : worker :=
  let xy := loader rank k in
  let loss := scalar_div {| value := batch_loss m xy; wrt_loss := 1 |}
                         (INR grad_accum_steps) in
  {| grad := backward token_grad m (fst xy) (snd xy) loss (grad wk);
     loss_accum := loss_accum wk + value loss |}.

Definition local_run (rank : nat) (steps : list nat) (wk : worker) : worker :=
  fold_left (local_step rank) steps wk.
End LocalRun.

(** ** A small model and small batches, used to instantiate the theorems *)

Module Fixture.
(** A model of the given configuration with every weight equal to [w] and
    every bias zero. *)
Definition linear (in_features out_features : nat) (has_bias : bool) (w : R)
  : Linear.t :=
  {| Linear.weight := repeat (repeat w in_features) out_features;
     Linear.bias := if has_bias then Some (repeat 0 out_features) else None |}.

Definition layer_norm (n : nat) : LayerNorm.t :=
  {| LayerNorm.weight := repeat 1 n; LayerNorm.bias := repeat 0 n |}.

Definition block (c : GPTConfig.t) (w : R) : Block.t :=
  let C := GPTConfig.n_embed c in
  {| Block.ln_1 := layer_norm C;
     Block.attn :=
       {| CausalSelfAttention.c_attn := linear C (3 * C) true w;
          CausalSelfAttention.c_proj := linear C C true w;
          CausalSelfAttention.n_head := GPTConfig.n_head c;
          CausalSelfAttention.n_embed := C |};
     Block.ln_2 := layer_norm C;
     Block.mlp :=
       {| MLP.c_fc := linear C (4 * C) true w;
          MLP.c_proj := linear (4 * C) C true w |} |}.

Definition model (c : GPTConfig.t) (w : R) : GPT.t :=
  let C := GPTConfig.n_embed c in
  {| GPT.config := c;
     GPT.wte := {| Embedding.weight := repeat (repeat w C) (GPTConfig.vocab_size c) |};
     GPT.wpe := {| Embedding.weight := repeat (repeat w C) (GPTConfig.block_size c) |};
     GPT.h := repeat (block c w) (GPTConfig.n_layer c);
     GPT.ln_f := layer_norm C;
     GPT.lm_head := linear C (GPTConfig.vocab_size c) false w |}.

Definition tiny_config : GPTConfig.t :=
  {| GPTConfig.block_size := 2; GPTConfig.vocab_size := 3;
     GPTConfig.n_layer := 1; GPTConfig.n_head := 1; GPTConfig.n_embed := 2 |}.

Definition tiny : GPT.t := model tiny_config 0.02.

(** Batches of shape (1, 2) and (1, 3). *)
Definition batch_01 : LongTensor := {| size1 := 2; rows := [[0; 1]%Z] |}.
Definition batch_02 : LongTensor := {| size1 := 2; rows := [[0; 2]%Z] |}.
Definition batch_12 : LongTensor := {| size1 := 2; rows := [[1; 2]%Z] |}.
Definition batch_long : LongTensor := {| size1 := 3; rows := [[0; 1; 2]%Z] |}.
(** A (1, 1) batch whose only entry is not a token id of the tiny model. *)
Definition batch_bad : LongTensor := {| size1 := 1; rows := [[3]%Z] |}.
(** Named parameters of a single linear layer: a 3 x 2 weight and a bias
    of size 3. *)
Definition linear_named : list (string * Param.t) :=
  [("fc.weight"%string, Param.new (h_param 0 mlp_c_fc_weight) [3; 2]%nat);
   ("fc.bias"%string, Param.new (h_param 0 mlp_c_fc_bias) [3]%nat)].

(** A generator without state whose draws are constant: a normal draw
    returns its mean, a uniform draw its lower bound. *)
Definition constant_sample (g : unit) (n : nat) (a b : R) : list R * unit :=
  (repeat a n, g).

Definition world0 : world unit := {| params := fun _ => []; rng := tt |}.

(** A loader that hands every process the same micro-batch at every
    micro-step, and position gradients that are all the same vector. *)
Definition constant_loader (rank k : nat) : LongTensor * LongTensor :=
  (batch_01, batch_12).

Definition unit_token_grad (m : GPT.t) (row : list Z) (t : nat) (target : Z)
  : list R := [1; 1].

(** (1, 2) targets whose second entry is not a class of the tiny model. *)
Definition targets_bad : LongTensor := {| size1 := 2; rows := [[1; 3]%Z] |}.
End Fixture.

(** ** Slices of a batch *)

(** [idx[:, :n]]: the first [n] columns of a batch. *)
Definition first_columns (n : nat) (idx : LongTensor) : LongTensor :=
  {| size1 := Nat.min n (size1 idx); rows := map (firstn n) (rows idx) |}.

(** ** [load_tokens] and [DataLoaderLite] (lines 248-295) *)

(** Failures of the data pipeline: the Python exceptions above, and the
    [RuntimeError] torch raises when [view] is given a shape that does not
    fit the number of elements. *)
Inductive failure : Type :=
| Python (e : exn)
| RuntimeError.

Inductive attempt (A : Type) : Type :=
| Done (a : A)
| Failed (f : failure).
Arguments Done {A} a.
Arguments Failed {A} f.

Definition attempt_bind {A B : Type} (m : attempt A) (k : A -> attempt B)
  : attempt B :=
  match m with
  | Done a => k a
  | Failed f => Failed f
  end.

Notation "x <~ m ;; k" := (attempt_bind m (fun x => k))
  (at level 61, m at next level, right associativity).

(** [npt.astype(np.int32)] on one integer: the value modulo [2^32], in
    [-2^31, 2^31). *)
Definition astype_int32 (z : Z) : Z :=
  ((z + 2 ^ 31) mod 2 ^ 32 - 2 ^ 31)%Z.

(** [load_tokens(filename)]; [np_load] is the integer array a shard file
    holds. *)
Definition load_tokens (np_load : string -> list Z) (filename : string)
  : list Z :=
  let npt := np_load filename in
  let npt := map astype_int32 npt in
  npt.

(** [tensor[start:stop]] on a 1-D tensor, for indices that are not
    negative: the bounds are clipped to the length. *)
Definition slice {A : Type} (start stop : nat) (l : list A) : list A :=
  firstn (stop - start) (skipn start l).

(** [tensor.view(B, T)] on a 1-D tensor of integers. *)
Definition view (B T : nat) (data : list Z) : attempt LongTensor :=
  if (length data =? B * T)%nat
  then Done {| size1 := T;
               rows := map (fun i => firstn T (skipn (i * T) data)) (seq 0 B) |}
  else Failed RuntimeError.

(** [s in names] for a substring [s], [sorted(names)] and
    [os.path.join(root, name)] on file names. *)
Fixpoint contains (sub s : string) : bool :=
  (String.prefix sub s
   || match s with
      | EmptyString => false
      | String _ s' => contains sub s'
      end)%bool.

Fixpoint insert_sorted (s : string) (l : list string) : list string :=
  match l with
  | [] => [s]
  | x :: l' => if String.leb s x then s :: l else x :: insert_sorted s l'
  end.

Definition sorted (l : list string) : list string :=
  fold_right insert_sorted [] l.

Definition path_join (root name : string) : string :=
  if String.prefix "/" name then name else (root ++ "/" ++ name)%string.

Module DataLoaderLite.
Record t : Type := {
  B : nat;
  T : nat;
  process_rank : nat;
  num_processes : nat;
  shards : list string;
  current_shard : nat;
  tokens : list Z;
  current_position : nat
}.

Section Files.
Variable np_load : string -> list Z.

(** The state with a shard loaded; [self.shards[i]] is an [IndexError]
    when there is no such shard. *)
Definition at_shard (B T process_rank num_processes : nat)
           (shards : list string) (i : nat) : attempt t :=
  match nth_error shards i with
  | None => Failed (Python IndexError)
  | Some filename =>
      Done {| B := B; T := T; process_rank := process_rank;
              num_processes := num_processes; shards := shards;
              current_shard := i;
              tokens := load_tokens np_load filename;
              current_position := B * T * process_rank |}
  end.

Definition reset (self : t) : attempt t :=
  (* state, init at shard zero *)
  at_shard (B self) (T self) (process_rank self) (num_processes self)
           (shards self) 0.

(** [DataLoaderLite(B, T, process_rank, num_processes, split)];
    [listing] is what [os.listdir(data_root)] returns. *)
Definition new (B T process_rank num_processes : nat) (split : string)
           (listing : list string) : attempt t :=
  if negb (String.eqb split "train" || String.eqb split "val") then
    Failed (Python AssertionError)
  else
    (* get the shard filenames *)
    let data_root := "edu_fineweb10B"%string in
    let shards := listing in
    let shards := filter (contains split) shards in
    let shards := sorted shards in
    let shards := map (path_join data_root) shards in
    if negb (0 <? length shards)%nat then Failed (Python AssertionError)
    else at_shard B T process_rank num_processes shards 0.

(** Lines 288-294 of [next_batch]: the position moves on by the tokens all
    processes read, and the next shard is loaded when another step would
    not fit. *)
Definition advance (self : t) : attempt t :=
  let current_position :=
    (current_position self + B self * T self * num_processes self)%nat in
  (* reset if loading the next batch would be out of bounds *)
  if (length (tokens self)
      <? current_position + (B self * T self * num_processes self + 1))%nat
  then
    match length (shards self) with
    | O => Failed (Python ZeroDivisionError)
    | S _ =>
        at_shard (B self) (T self) (process_rank self) (num_processes self)
                 (shards self)
                 ((current_shard self + 1) mod length (shards self))
    end
  else
    Done {| B := B self; T := T self; process_rank := process_rank self;
            num_processes := num_processes self; shards := shards self;
            current_shard := current_shard self;
            tokens := tokens self;
            current_position := current_position |}.

Definition next_batch (self : t) : attempt (LongTensor * LongTensor * t) :=
  let buf := slice (current_position self)
                   (current_position self + B self * T self + 1)
                   (tokens self) in
  x <~ view (B self) (T self) (removelast buf) ;;
  y <~ view (B self) (T self) (skipn 1 buf) ;;
  self <~ advance self ;;
  Done (x, y, self).

(** [n] calls of [next_batch] in a row, as the loops of lines 441-442 and
    549-550 make them. *)
Fixpoint next_batches (n : nat) (self : t)
  : attempt (list (LongTensor * LongTensor) * t) :=
  match n with
  | O => Done ([], self)
  | S n' =>
      r <~ next_batch self ;;
      let '(x, y, self) := r in
      rs <~ next_batches n' self ;;
      let '(batches, self) := rs in
      Done ((x, y) :: batches, self)
  end.

(** Every shard is long enough for this process to read one batch at the
    position [reset] starts from. *)
Definition shards_fit (self : t) : Prop :=
  Forall (fun filename =>
            (B self * T self * (process_rank self + 1) + 1
             <= length (load_tokens np_load filename))%nat)
         (shards self).

(** What holds of a loader between two calls of [next_batch]: the tokens
    are those of the current shard, the position is a multiple of the
    batch size on the stride of this process, and one more batch fits. *)
Definition ready (self : t) : Prop :=
  (exists filename,
      nth_error (shards self) (current_shard self) = Some filename
      /\ tokens self = load_tokens np_load filename)
  /\ (exists j,
         current_position self
         = (B self * T self * (process_rank self + j * num_processes self))%nat)
  /\ (current_position self + B self * T self + 1 <= length (tokens self))%nat.
End Files.

(** Two states of one loader: the arguments of the constructor and the
    list of shards do not change. *)
Definition same_settings (a b : t) : Prop :=
  B a = B b /\ T a = T b /\ process_rank a = process_rank b
  /\ num_processes a = num_processes b /\ shards a = shards b.
End DataLoaderLite.

(** A pair of (B, T) tensors. *)
Definition batch_shape (B T : nat) (xy : LongTensor * LongTensor) : Prop :=
  (size1 (fst xy) = T /\ size0 (fst xy) = B /\ well_formed (fst xy))
  /\ (size1 (snd xy) = T /\ size0 (snd xy) = B /\ well_formed (snd xy)).

(** A directory with two small training shards and one validation shard,
    and the training loader of a process out of two over it. *)
Module Shards.
Definition listing : list string :=
  ["edufineweb_val_000000.npy"; "edufineweb_train_000002.npy";
   "edufineweb_train_000001.npy"; "README.md"]%string.

Definition np_load (filename : string) : list Z :=
  if String.eqb filename "edu_fineweb10B/edufineweb_train_000001.npy"
  then [0; 1; 2; 0; 1; 2; 0; 1; 2]%Z
  else [2; 1; 0; 2; 1; 0; 2; 1; 0]%Z.

Definition train_shards : list string :=
  ["edu_fineweb10B/edufineweb_train_000001.npy";
   "edu_fineweb10B/edufineweb_train_000002.npy"]%string.

Definition loader (rank : nat) : DataLoaderLite.t :=
  {| DataLoaderLite.B := 1; DataLoaderLite.T := 2;
     DataLoaderLite.process_rank := rank;
     DataLoaderLite.num_processes := 2;
     DataLoaderLite.shards := train_shards;
     DataLoaderLite.current_shard := 0;
     DataLoaderLite.tokens :=
       load_tokens np_load "edu_fineweb10B/edufineweb_train_000001.npy";
     DataLoaderLite.current_position := 1 * 2 * rank |}.
End Shards.

(** ** The number of micro-steps (lines 372-376) *)

(** Python's [a % b] and [a // b] on integers (the remainder has the sign
    of the divisor, the quotient is rounded down, as [Z.modulo] and
    [Z.div]), with their [ZeroDivisionError]. *)
Definition py_mod (a b : Z) : result Z :=
  if (b =? 0)%Z then Raise ZeroDivisionError else Ok (a mod b)%Z.

Definition py_floordiv (a b : Z) : result Z :=
  if (b =? 0)%Z then Raise ZeroDivisionError else Ok (a / b)%Z.

Definition grad_accum_steps (total_batch_size B T ddp_world_size : Z)
  : result Z :=
  r <- py_mod total_batch_size (B * T * ddp_world_size) ;;
  _ <- py_assert (r =? 0)%Z ;;
  py_floordiv total_batch_size (B * T * ddp_world_size).

(** ** The configurations of [from_pretrained] (lines 144-157) *)

Set Warnings "-abstract-large-number".

Definition pretrained_config (model_type : string) : result GPTConfig.t :=
  _ <- py_assert (existsb (String.eqb model_type)
                          ["gpt2"; "gpt2-medium"; "gpt2-large"; "gpt2-xl"]%string) ;;
  let config_args :=
    (if String.eqb model_type "gpt2" then (12, 12, 768)        (* 124M params *)
     else if String.eqb model_type "gpt2-medium" then (24, 16, 1024) (* 350M *)
     else if String.eqb model_type "gpt2-large" then (36, 20, 1280)  (* 774M *)
     else (48, 25, 1600))%nat                                  (* 1558M params *)
  in
  let '(n_layer, n_head, n_embed) := config_args in
  Ok {| GPTConfig.block_size := 1024%nat; GPTConfig.vocab_size := 50257%nat;
        GPTConfig.n_layer := n_layer; GPTConfig.n_head := n_head;
        GPTConfig.n_embed := n_embed |}.

(** ** The HellaSwag evaluation (lines 469-501) *)

(** [sum(...)] of natural numbers. *)
Definition nat_sum (l : list nat) : nat := fold_right Nat.add 0%nat l.

Section HellaSwag.
(** The examples [iterate_examples("val")] yields, and for the current
    model whether its most likely row is the label of an example,
    [pred_norm == label]. *)
Variable example : Type.
Variable correct : example -> bool.

(** The loop of one process from example number [i] on, with the counters
    [num_correct_norm] and [num_total]. *)
Fixpoint count_examples (ddp_world_size ddp_rank : nat) (i : nat)
         (examples : list example) (num_correct_norm num_total : nat)
  : result (nat * nat) :=
  match examples with
  | [] => Ok (num_correct_norm, num_total)
  | example :: examples =>
      (* only process sample where i % world_size == ddp_rank *)
      if (ddp_world_size =? 0)%nat then Raise ZeroDivisionError
      else if negb (i mod ddp_world_size =? ddp_rank)%nat then
        count_examples ddp_world_size ddp_rank (S i) examples
                       num_correct_norm num_total
      else
        count_examples ddp_world_size ddp_rank (S i) examples
                       (num_correct_norm + (if correct example then 1 else 0))
                       (num_total + 1)
  end.

(** The evaluation as process [ddp_rank] sees it: its own counts, their
    sums over all processes after the two [all_reduce] calls of a DDP run,
    and the accuracy [num_correct_norm / num_total]. *)
Definition evaluate_hellaswag (ddp : bool) (ddp_world_size ddp_rank : nat)
           (examples : list example) : result (nat * nat * R) :=
  counts <- count_examples ddp_world_size ddp_rank 0 examples 0 0 ;;
  counts <-
    (if ddp then
       (* reduce stats across all processes *)
       all <- mapM (fun rank => count_examples ddp_world_size rank 0 examples 0 0)
                   (seq 0 ddp_world_size) ;;
       Ok (nat_sum (map fst all), nat_sum (map snd all))
     else Ok counts) ;;
  let (num_correct_norm, num_total) := counts : nat * nat in
  acc_norm <- py_truediv (INR num_correct_norm) (Z.of_nat num_total) ;;
  Ok (num_correct_norm, num_total, acc_norm).
End HellaSwag.

(** ** Sampling from the model (lines 505-540) *)

Definition lift {A : Type} (r : result A) : attempt A :=
  match r with
  | Ok a => Done a
  | Raise e => Failed (Python e)
  end.

Fixpoint attempt_mapM {A B : Type} (f : A -> attempt B) (l : list A)
  : attempt (list B) :=
  match l with
  | [] => Done []
  | a :: l' => b <~ f a ;; bs <~ attempt_mapM f l' ;; Done (b :: bs)
  end.

(** [logits[b, -1, :]]: the last position of one sequence, an [IndexError]
    when there is none. *)
Definition last_position (xb : list (list R)) : attempt (list R) :=
  match xb with
  | [] => Failed (Python IndexError)
  | _ :: _ => Done (last xb [])
  end.

(** [torch.gather(topk_indices, -1, ix)] on one row. *)
Definition gather_row (indices : list nat) (ix : nat) : attempt Z :=
  match nth_error indices ix with
  | Some i => Done (Z.of_nat i)
  | None => Failed RuntimeError
  end.

Section Generation.
(** The library's samplers: [torch.topk(probs, k, dim=-1)] on one row gives
    the values and the indices of [k] largest entries, and
    [torch.multinomial(topk_probs, 1, generator=sample_rng)] draws one
    position in every row and advances the generator. *)
Variable sample_rng : Type.
Variable topk : list R -> nat -> list R * list nat.
Variable multinomial : list (list R) -> sample_rng -> list nat * sample_rng.

(** One round of the [while] loop: a column of sampled tokens is appended
    to [xgen]. *)
Definition generate_step (m : GPT.t) (xgen : LongTensor) (rng : sample_rng)
  : attempt (LongTensor * sample_rng) :=
  out <~ lift (GPT.forward m xgen None) ;;
  let logits := fst out in                    (* (B, T, vocab_size) *)
  logits <~ attempt_mapM last_position logits ;;   (* (B, vocab_size) *)
  let probs := map (fun row => softmax (map Finite row)) logits in
  (* top-k sampling: [k] is at most the size of the last dimension, the
     number of rows of the output projection *)
  if (length (Linear.weight (GPT.lm_head m)) <? 50)%nat then Failed RuntimeError
  else
    let top := map (fun row => topk row 50) probs in
    let topk_probs := map fst top in
    let topk_indices := map snd top in
    (* select a token *)
    let (ix, rng) := multinomial topk_probs rng in
    if negb (length ix =? length topk_indices)%nat then Failed RuntimeError
    else
      xcol <~ attempt_mapM (fun ii => gather_row (fst ii) (snd ii))
                           (combine topk_indices ix) ;;
      (* append *)
      Done ({| size1 := size1 xgen + 1;
               rows := zip_with (fun row x => row ++ [x]) (rows xgen) xcol |},
            rng).

(** [while xgen.size(1) < max_length: ...], for at most [fuel] rounds;
    [None] when the rounds do not suffice. *)
Fixpoint generate_loop (fuel : nat) (m : GPT.t) (max_length : nat)
         (xgen : LongTensor) (rng : sample_rng)
  : attempt (option (LongTensor * sample_rng)) :=
  if (size1 xgen <? max_length)%nat then
    match fuel with
    | O => Done None
    | S fuel =>
        r <~ generate_step m xgen rng ;;
        generate_loop fuel m max_length (fst r) (snd r)
    end
  else Done (Some (xgen, rng)).

(** The samples the script prints: [num_return_sequences] copies of the
    prompt, extended to [max_length] tokens and cut there. *)
Definition generate (fuel : nat) (m : GPT.t) (tokens : list Z)
           (rng : sample_rng) : attempt (option (list (list Z))) :=
  let num_return_sequences := 4%nat in
  let max_length := 32%nat in
  let xgen := {| size1 := length tokens;
                 rows := repeat tokens num_return_sequences |} in
  r <~ generate_loop fuel m max_length xgen rng ;;
  Done (option_map (fun r => map (firstn max_length) (rows (fst r))) r).
End Generation.

(** Samplers that take the first [k] entries of a row and draw the first
    position of every row, and a model with a vocabulary of 50 tokens. *)
Module Sampling.
Definition first_k (row : list R) (k : nat) : list R * list nat :=
  (firstn k row, seq 0 k).

Definition first_choice (probs : list (list R)) (rng : unit)
  : list nat * unit :=
  (map (fun _ => 0%nat) probs, rng).

Definition config : GPTConfig.t :=
  {| GPTConfig.block_size := 32; GPTConfig.vocab_size := 50;
     GPTConfig.n_layer := 1; GPTConfig.n_head := 1; GPTConfig.n_embed := 2 |}.

Definition model : GPT.t := Fixture.model config 0.02.
End Sampling.

(** ** [get_most_likely_row] (lines 300-322) *)









(** ** What a step of the loop does besides training (lines 430-505) *)

Record step_events : Type := {
  evaluates_validation : bool;
  saves_checkpoint : bool;
  evaluates_hellaswag : bool;
  generates_samples : bool
}.

(** The conditions of the four [if] statements at the head of the loop
    body; the checkpoint is written inside the validation block, by the
    master process. *)
Definition events (max_steps step : Z) (use_compile master_process : bool)
  : step_events :=
  let last_step := (step =? max_steps - 1)%Z in
  let validation := ((step mod 250 =? 0)%Z || last_step)%bool in
  {| evaluates_validation := validation;
     saves_checkpoint :=
       (validation && master_process
        && ((step >? 0)%Z && ((step mod 5000 =? 0)%Z || last_step)))%bool;
     evaluates_hellaswag :=
       (((step mod 250 =? 0)%Z || last_step) && negb use_compile)%bool;
     generates_samples :=
       ((((step >? 0)%Z && (step mod 250 =? 0)%Z) || last_step)
        && negb use_compile)%bool |}.

(** ** Properties of the schedule *)

Section ScheduleFacts.
Variable max_lr : R.
Variables warmup_steps max_steps : Z.
Hypothesis warmup_pos : (0 < warmup_steps)%Z.
Hypothesis warmup_lt_max : (warmup_steps < max_steps)%Z.

Let lr := Schedule.get_lr max_lr warmup_steps max_steps.

Lemma get_lr_warmup (it : Z) :
  (it < warmup_steps)%Z ->
  lr it = Ok (max_lr * IZR (it + 1) / IZR warmup_steps).
Proof.
  intros H. unfold lr, Schedule.get_lr.
  apply Z.ltb_lt in H. rewrite H.
  unfold py_truediv.
  destruct (Z.eqb_spec warmup_steps 0); [lia | reflexivity].
Qed.

Lemma get_lr_after (it : Z) :
  (max_steps < it)%Z -> lr it = Ok (Schedule.min_lr max_lr).
Proof.
  intros H. unfold lr, Schedule.get_lr.
  assert (E1 : (it <? warmup_steps)%Z = false) by (apply Z.ltb_ge; lia).
  assert (E2 : (it >? max_steps)%Z = true) by (apply Z.gtb_lt; lia).
  now rewrite E1, E2.
Qed.

Lemma decay_ratio_range (it : Z) :
  (warmup_steps <= it <= max_steps)%Z ->
  0 <= IZR (it - warmup_steps) / IZR (max_steps - warmup_steps) <= 1.
Proof.
  intros [H1 H2].
  assert (D : 0 < IZR (max_steps - warmup_steps)) by (apply IZR_lt; lia).
  assert (N : 0 <= IZR (it - warmup_steps)) by (apply IZR_le; lia).
  assert (L : IZR (it - warmup_steps) <= IZR (max_steps - warmup_steps))
    by (apply IZR_le; lia).
  split.
  - apply Rmult_le_pos; [assumption | left; now apply Rinv_0_lt_compat].
  - apply (Rmult_le_reg_r (IZR (max_steps - warmup_steps))); [assumption|].
    unfold Rdiv. rewrite Rmult_assoc, Rinv_l by lra. lra.
Qed.

Lemma get_lr_decay (it : Z) :
  (warmup_steps <= it <= max_steps)%Z ->
  lr it =
  Ok (Schedule.min_lr max_lr +
      0.5 * (1.0 + cos (PI * (IZR (it - warmup_steps)
                              / IZR (max_steps - warmup_steps))))
      * (max_lr - Schedule.min_lr max_lr)).
Proof.
  intros H. unfold lr, Schedule.get_lr.
  assert (E1 : (it <? warmup_steps)%Z = false) by (apply Z.ltb_ge; lia).
  assert (E2 : (it >? max_steps)%Z = false) by (rewrite Z.gtb_ltb; apply Z.ltb_ge; lia).
  rewrite E1, E2. unfold py_truediv.
  destruct (Z.eqb_spec (max_steps - warmup_steps) 0); [lia|].
  cbn [bind].
  unfold Rle_le_b.
  destruct (Rle_le_dec 0 _ 1) as [I | C]; [reflexivity|].
  exfalso. apply C, decay_ratio_range, H.
Qed.

Lemma decay_ratio_mono (a b : Z) :
  (warmup_steps <= a)%Z -> (a <= b)%Z -> (b <= max_steps)%Z ->
  IZR (a - warmup_steps) / IZR (max_steps - warmup_steps)
  <= IZR (b - warmup_steps) / IZR (max_steps - warmup_steps).
Proof.
  intros H1 H2 H3.
  assert (D : 0 < IZR (max_steps - warmup_steps)) by (apply IZR_lt; lia).
  apply Rmult_le_compat_r; [left; now apply Rinv_0_lt_compat|].
  apply IZR_le; lia.
Qed.

(** C4: with a positive warmup length below [max_steps] (the script has
    715 and 19073), [get_lr] never raises and is, at every step, the
    three-regime function of the specification: linear ramp
    [max_lr*(step+1)/warmup_steps] below [warmup_steps], [min_lr] above
    [max_steps], cosine decay in between, with [min_lr = 0.1*max_lr].  The
    result depends on the step and the constants only. *)
Theorem get_lr_refines_spec (it : Z) :
  lr it = Ok (Schedule.spec_lr max_lr warmup_steps max_steps it)
  /\ Schedule.min_lr max_lr = Schedule.spec_min_lr max_lr.
Proof.
  split; [| unfold Schedule.min_lr, Schedule.spec_min_lr; lra].
  unfold Schedule.spec_lr.
  destruct (Z.ltb_spec it warmup_steps) as [Hw | Hw].
  - rewrite get_lr_warmup by assumption. now rewrite plus_IZR.
  - destruct (Z.ltb_spec max_steps it) as [Hm | Hm].
    + rewrite get_lr_after by assumption.
      rewrite Z.gtb_ltb. apply Z.ltb_lt in Hm. rewrite Hm.
      f_equal. unfold Schedule.min_lr, Schedule.spec_min_lr. lra.
    + rewrite get_lr_decay by lia.
      rewrite Z.gtb_ltb.
      assert (E : (max_steps <? it)%Z = false) by (apply Z.ltb_ge; lia).
      rewrite E. cbv zeta. rewrite !minus_IZR.
      f_equal. unfold Schedule.min_lr, Schedule.spec_min_lr. lra.
Qed.

Hypothesis max_lr_nonneg : 0 <= max_lr.

(** C5 (as amended): the last warmup step already returns [max_lr] itself
    (not a value below it); step [warmup_steps] is the first one computed by
    the cosine formula, at decay ratio 0, and its rate is not above [max_lr]
    and less than one warmup increment [max_lr / warmup_steps] below it, so
    the regimes meet without a jump; [lr(max_steps)] and [lr(max_steps+1)]
    are both [min_lr]; the schedule is nondecreasing over the warmup steps
    and nonincreasing over the cosine-decay steps. *)
Theorem get_lr_boundaries_and_monotone :
  lr (warmup_steps - 1) = Ok max_lr
  /\ (exists r,
        lr warmup_steps = Ok r
        /\ r = Schedule.min_lr max_lr
               + 0.5 * (1.0 + cos (PI * (IZR 0 / IZR (max_steps - warmup_steps))))
                 * (max_lr - Schedule.min_lr max_lr)
        /\ max_lr - max_lr / IZR warmup_steps <= r <= max_lr)
  /\ lr max_steps = Ok (Schedule.min_lr max_lr)
  /\ lr (max_steps + 1) = Ok (Schedule.min_lr max_lr)
  /\ (forall a b : Z, (a <= b)%Z -> (b < warmup_steps)%Z ->
      exists ra rb, lr a = Ok ra /\ lr b = Ok rb /\ ra <= rb)
  /\ (forall a b : Z, (warmup_steps <= a)%Z -> (a <= b)%Z -> (b <= max_steps)%Z ->
      exists ra rb, lr a = Ok ra /\ lr b = Ok rb /\ rb <= ra).
Proof.
  assert (W : 0 < IZR warmup_steps) by (apply IZR_lt; lia).
  assert (D : 0 < IZR (max_steps - warmup_steps)) by (apply IZR_lt; lia).
  split; [| split; [| repeat split]].
  - rewrite get_lr_warmup by lia.
    replace (warmup_steps - 1 + 1)%Z with warmup_steps by lia.
    f_equal. field. lra.
  - eexists. split; [| split; [reflexivity |]].
    + rewrite get_lr_decay by lia. now rewrite Z.sub_diag.
    + assert (E : IZR 0 / IZR (max_steps - warmup_steps) = 0)
        by (unfold Rdiv; apply Rmult_0_l).
      rewrite E, Rmult_0_r, cos_0.
      assert (I : 0 <= max_lr / IZR warmup_steps).
      { apply Rmult_le_pos; [assumption | left; now apply Rinv_0_lt_compat]. }
      unfold Schedule.min_lr. lra.
  - rewrite get_lr_decay by lia.
    unfold Rdiv at 1. rewrite Rinv_r by lra. rewrite Rmult_1_r, cos_PI.
    f_equal. lra.
  - apply get_lr_after. lia.
  - intros a b Hab Hb.
    do 2 eexists. rewrite !get_lr_warmup by lia.
    repeat split.
    apply Rmult_le_compat_r; [left; now apply Rinv_0_lt_compat|].
    apply Rmult_le_compat_l; [assumption|]. apply IZR_le. lia.
  - intros a b Ha Hab Hb.
    do 2 eexists. rewrite !get_lr_decay by lia.
    repeat split.
    pose proof (decay_ratio_range a ltac:(lia)) as [A0 A1].
    pose proof (decay_ratio_range b ltac:(lia)) as [B0 B1].
    pose proof (decay_ratio_mono a b Ha Hab Hb) as M.
    pose proof PI_RGT_0 as HPI.
    set (ra := IZR (a - warmup_steps) / IZR (max_steps - warmup_steps)) in *.
    set (rb := IZR (b - warmup_steps) / IZR (max_steps - warmup_steps)) in *.
    assert (C : cos (PI * rb) <= cos (PI * ra)).
    { apply cos_decr_1; nra. }
    unfold Schedule.min_lr. nra.
Qed.
End ScheduleFacts.

Lemma get_lr_refines_spec_witness :
  (0 < Script.warmup_steps)%Z /\ (Script.warmup_steps < Script.max_steps)%Z
  /\ Script.get_lr 1000
     = Ok (Schedule.spec_lr Script.max_lr Script.warmup_steps Script.max_steps 1000).
Proof.
  split; [reflexivity | split; [reflexivity |]].
  apply (get_lr_refines_spec Script.max_lr Script.warmup_steps Script.max_steps);
    reflexivity.
Defined.

Lemma get_lr_boundaries_and_monotone_witness :
  (0 < Script.warmup_steps)%Z /\ (Script.warmup_steps < Script.max_steps)%Z
  /\ 0 <= Script.max_lr
  /\ Script.get_lr 714 = Ok Script.max_lr.
Proof.
  assert (P : 0 <= Script.max_lr) by (unfold Script.max_lr; lra).
  split; [reflexivity | split; [reflexivity | split; [exact P |]]].
  apply (get_lr_boundaries_and_monotone
           Script.max_lr Script.warmup_steps Script.max_steps); 
    [reflexivity | reflexivity | exact P].
Defined.

(** C5 as the specification states it asks for [lr(warmup_steps-1) < max_lr];
    with the script's constants the last warmup step, 714, returns [max_lr]. *)
Lemma get_lr_last_warmup_step_not_below_max :
  exists r, Script.get_lr (Script.warmup_steps - 1) = Ok r /\ ~ (r < Script.max_lr).
Proof.
  exists Script.max_lr. split; [| lra].
  unfold Script.get_lr.
  rewrite get_lr_warmup by (unfold Script.warmup_steps; lia).
  f_equal. unfold Script.warmup_steps. simpl (715 - 1 + 1)%Z. field.
Qed.

(** ** Lists, indexed maps and fallible maps *)

Section ListFacts.
Context {A B C : Type}.

Lemma length_zip_with (f : A -> B -> C) (l1 : list A) (l2 : list B) :
  length (zip_with f l1 l2) = Nat.min (length l1) (length l2).
Proof.
  revert l2. induction l1 as [| a l1 IH]; intros [| b l2]; simpl; auto.
Qed.

Lemma firstn_zip_with (f : A -> B -> C) (n : nat) (l1 : list A) (l2 : list B) :
  firstn n (zip_with f l1 l2) = zip_with f (firstn n l1) (firstn n l2).
Proof.
  revert l1 l2.
  induction n as [| n IH]; intros [| a l1] [| b l2]; simpl; auto.
  now rewrite IH.
Qed.

Lemma length_imap_from (f : nat -> A -> B) (i : nat) (l : list A) :
  length (imap_from f i l) = length l.
Proof.
  revert i. induction l as [| a l IH]; intros i; simpl; auto.
Qed.

Lemma imap_from_app (f : nat -> A -> B) (i : nat) (l1 l2 : list A) :
  imap_from f i (l1 ++ l2)
  = imap_from f i l1 ++ imap_from f (i + length l1) l2.
Proof.
  revert i. induction l1 as [| a l1 IH]; intros i; simpl.
  - now rewrite Nat.add_0_r.
  - rewrite IH. do 3 f_equal. lia.
Qed.

Lemma firstn_imap_from (f : nat -> A -> B) (n i : nat) (l : list A) :
  firstn n (imap_from f i l) = imap_from f i (firstn n l).
Proof.
  revert i l. induction n as [| n IH]; intros i [| a l]; simpl; auto.
  now rewrite IH.
Qed.

Lemma imap_from_ext (f g : nat -> A -> B) (i : nat) (l : list A) :
  (forall j a, (i <= j < i + length l)%nat -> f j a = g j a) ->
  imap_from f i l = imap_from g i l.
Proof.
  revert i. induction l as [| a l IH]; intros i H; simpl; auto.
  rewrite H by (simpl; lia). f_equal.
  apply IH. intros j b Hj. apply H. simpl. lia.
Qed.

Lemma mapM_length (f : A -> result B) (l : list A) (y : list B) :
  mapM f l = Ok y -> length y = length l.
Proof.
  revert y. induction l as [| a l IH]; simpl; intros y H.
  - now inversion H.
  - destruct (f a) as [b |]; [| discriminate]. simpl in H.
    destruct (mapM f l) as [bs |]; [| discriminate]. simpl in H.
    inversion H; subst. simpl. f_equal. now apply IH.
Qed.

Lemma mapM_total (f : A -> result B) (g : A -> B) (l : list A) :
  Forall (fun a => f a = Ok (g a)) l -> mapM f l = Ok (map g l).
Proof.
  induction 1 as [| a l Ha _ IH]; simpl; auto.
  now rewrite Ha, IH.
Qed.

Lemma mapM_ok_map (f : A -> result B) (l : list A) (y : list B) (d : B) :
  mapM f l = Ok y ->
  Forall (fun a => exists b, f a = Ok b) l
  /\ forall i a, nth_error l i = Some a -> f a = Ok (nth i y d).
Proof.
  revert y. induction l as [| a l IH]; simpl; intros y H.
  - split; [constructor |]. intros [| i] a Hi; discriminate.
  - destruct (f a) as [b |] eqn:Fa; [| discriminate]. simpl in H.
    destruct (mapM f l) as [bs |]; [| discriminate]. simpl in H.
    inversion H; subst. destruct (IH bs eq_refl) as [IH1 IH2].
    split; [constructor; eauto |].
    intros [| i] a' Hi; simpl in *.
    + now inversion Hi; subst.
    + now apply IH2.
Qed.

Lemma mapM_firstn (f : A -> result B) (n : nat) (l l' : list A) (y y' : list B) :
  mapM f l = Ok y -> mapM f l' = Ok y' ->
  firstn n l = firstn n l' -> firstn n y = firstn n y'.
Proof.
  revert l l' y y'.
  induction n as [| n IH]; intros l l' y y' H H' E; [reflexivity |].
  destruct l as [| a l], l' as [| a' l']; simpl in *;
    try discriminate.
  - inversion H; inversion H'; reflexivity.
  - inversion E; subst a'.
    destruct (f a) as [b |]; [| discriminate]. simpl in *.
    destruct (mapM f l) as [bs |] eqn:M; [| discriminate].
    destruct (mapM f l') as [bs' |] eqn:M'; [| discriminate].
    simpl in *. inversion H; inversion H'; subst. simpl. f_equal.
    eapply IH; eauto.
Qed.
End ListFacts.

Lemma firstn_seq (n s len : nat) :
  firstn n (seq s len) = seq s (Nat.min n len).
Proof.
  revert s len. induction n as [| n IH]; intros s [| len]; simpl; auto.
  now rewrite IH.
Qed.

Lemma fold_left_map_blocks {A P : Type} (step : P -> A -> A)
      (ps : list P) (xs : list A) :
  fold_left (fun x p => map (step p) x) ps xs
  = map (fun x => fold_left (fun x p => step p x) ps x) xs.
Proof.
  revert xs. induction ps as [| p ps IH]; intros xs; simpl.
  - now rewrite map_id.
  - now rewrite IH, map_map.
Qed.

Lemma Rsum_app (l1 l2 : list R) : Rsum (l1 ++ l2) = Rsum l1 + Rsum l2.
Proof.
  induction l1 as [| a l1 IH]; simpl; [lra |]. unfold Rsum in *. simpl. lra.
Qed.

Lemma Rsum_repeat_0 (n : nat) : Rsum (repeat 0 n) = 0.
Proof.
  induction n as [| n IH]; simpl; [reflexivity |].
  unfold Rsum in *. simpl. lra.
Qed.

(** ** Causal attention only looks back *)

Lemma dot_zeros_l (m : nat) (col : list R) : dot (repeat 0 m) col = 0.
Proof.
  revert col. induction m as [| m IH]; intros [| c col]; simpl; try reflexivity.
  unfold dot in *. simpl. unfold Rsum in *. simpl. rewrite IH. lra.
Qed.

Lemma dot_app_zeros (p : list R) (m : nat) (col : list R) :
  dot (p ++ repeat 0 m) col = dot p col.
Proof.
  revert col. induction p as [| a p IH]; intros col; simpl.
  - rewrite dot_zeros_l. destruct col; reflexivity.
  - destruct col as [| c col]; [reflexivity |].
    unfold dot in *. simpl. unfold Rsum in *. simpl. now rewrite IH.
Qed.

Lemma dot_firstn_r (p : list R) (n : nat) (col : list R) :
  (length p <= n)%nat -> dot p (firstn n col) = dot p col.
Proof.
  revert n col. induction p as [| a p IH]; intros n col H; [reflexivity |].
  destruct n as [| n]; [simpl in H; lia |].
  destruct col as [| c col]; [reflexivity |].
  simpl in *. unfold dot in *. simpl. unfold Rsum in *. simpl.
  rewrite IH by lia. reflexivity.
Qed.

Lemma softmax_app_neginf (s1 : list score) (m : nat) :
  softmax (s1 ++ repeat NegInf m) = softmax s1 ++ repeat 0 m.
Proof.
  unfold softmax. rewrite map_app.
  assert (E : map score_exp (repeat NegInf m) = repeat 0 m).
  { induction m as [| m IH]; simpl; [reflexivity | now rewrite IH]. }
  rewrite E, Rsum_app, Rsum_repeat_0, Rplus_0_r, map_app. f_equal.
  clear E. induction m as [| m IH]; simpl; [reflexivity |].
  rewrite IH. f_equal. unfold Rdiv. apply Rmult_0_l.
Qed.

Lemma length_softmax (s : list score) : length (softmax s) = length s.
Proof. unfold softmax. now rewrite !length_map. Qed.

Lemma masked_scores_tail (g : nat -> list R -> score) (i n : nat)
      (k : list (list R)) :
  (i < n)%nat ->
  imap_from (fun j kj => score_add (g j kj) (attn_bias i j)) n k
  = repeat NegInf (length k).
Proof.
  intros Hi. revert n Hi. induction k as [| kj k IH]; intros n Hi; simpl.
  - reflexivity.
  - rewrite IH by lia. f_equal. unfold attn_bias.
    destruct (Nat.leb_spec n i); [lia |]. now destruct (g n kj).
Qed.

Lemma attention_row_prefix (hs : nat) (k v : list (list R)) (n i : nat)
      (qi : list R) :
  (i < n)%nat ->
  attention_row hs k v i qi
  = attention_row hs (firstn n k) (firstn n v) i qi.
Proof.
  intros Hi. unfold attention_row. apply map_ext. intros c.
  rewrite <- (firstn_skipn n k) at 1.
  unfold imap at 1. rewrite imap_from_app. simpl (0 + _)%nat.
  destruct (Nat.le_gt_cases n (length k)) as [Hn | Hn].
  - rewrite length_firstn, Nat.min_l by assumption.
    rewrite (masked_scores_tail
               (fun j kj => Finite (dot qi kj * (1 / sqrt (INR hs))))
               i n (skipn n k)) by assumption.
    rewrite softmax_app_neginf, dot_app_zeros.
    unfold column. rewrite <- firstn_map.
    fold (imap (fun j kj => score_add (Finite (dot qi kj * (1 / sqrt (INR hs))))
                                      (attn_bias i j)) (firstn n k)).
    rewrite dot_firstn_r; [reflexivity |].
    rewrite length_softmax. unfold imap.
    rewrite length_imap_from, length_firstn. lia.
  - rewrite skipn_all2 by lia. simpl. rewrite app_nil_r.
    fold (imap (fun j kj => score_add (Finite (dot qi kj * (1 / sqrt (INR hs))))
                                      (attn_bias i j)) (firstn n k)).
    unfold column. rewrite <- firstn_map.
    rewrite dot_firstn_r; [reflexivity |].
    rewrite length_softmax. unfold imap.
    rewrite length_imap_from, length_firstn. lia.
Qed.

Lemma sdpa_prefix (hs n : nat) (q k v : list (list R)) :
  firstn n (scaled_dot_product_attention hs q k v)
  = scaled_dot_product_attention hs (firstn n q) (firstn n k) (firstn n v).
Proof.
  unfold scaled_dot_product_attention, imap.
  rewrite firstn_imap_from. apply imap_from_ext.
  intros j a Hj. apply attention_row_prefix.
  rewrite length_firstn in Hj. lia.
Qed.

Lemma nth_firstn_lt {A : Type} (n t : nat) (l : list A) (d : A) :
  (t < n)%nat -> nth t (firstn n l) d = nth t l d.
Proof.
  intros H. rewrite nth_firstn.
  destruct (Nat.ltb_spec t n); [reflexivity | lia].
Qed.

Lemma attention_forward_prefix (a : CausalSelfAttention.t) (n : nat)
      (x : list (list R)) :
  firstn n (CausalSelfAttention.forward a x)
  = CausalSelfAttention.forward a (firstn n x).
Proof.
  unfold CausalSelfAttention.forward.
  rewrite firstn_map. f_equal.
  unfold CausalSelfAttention.merge_heads.
  rewrite firstn_map, firstn_seq, length_firstn.
  apply map_ext_in. intros t Ht. apply in_seq in Ht.
  f_equal. rewrite !map_map. apply map_ext. intros h.
  unfold CausalSelfAttention.head.
  rewrite <- !firstn_map, <- sdpa_prefix.
  symmetry. apply nth_firstn_lt. lia.
Qed.

Lemma block_forward_prefix (b : Block.t) (n : nat) (x : list (list R)) :
  firstn n (Block.forward b x) = Block.forward b (firstn n x).
Proof.
  unfold Block.forward, madd.
  rewrite !firstn_zip_with, !firstn_map, !firstn_zip_with.
  now rewrite attention_forward_prefix, !firstn_map.
Qed.

Lemma blocks_prefix (bs : list Block.t) (n : nat) (x : list (list R)) :
  firstn n (fold_left (fun x block => Block.forward block x) bs x)
  = fold_left (fun x block => Block.forward block x) bs (firstn n x).
Proof.
  revert x. induction bs as [| b bs IH]; intros x; simpl; [reflexivity |].
  now rewrite IH, block_forward_prefix.
Qed.

Lemma decode_prefix (m : GPT.t) (n : nat) (x : list (list R)) :
  firstn n (decode m x) = decode m (firstn n x).
Proof.
  unfold decode. now rewrite !firstn_map, blocks_prefix.
Qed.

(** ** The forward pass of the model *)

Lemma forward_logits_shape (m : GPT.t) (pos_emb : list (list R))
      (tok_emb : list (list (list R))) :
  map (map (Linear.forward (GPT.lm_head m)))
      (map (map (LayerNorm.forward (GPT.ln_f m)))
           (fold_left (fun x block => map (Block.forward block) x) (GPT.h m)
                      (map (fun te => madd te pos_emb) tok_emb)))
  = map (fun te => decode m (madd te pos_emb)) tok_emb.
Proof.
  rewrite fold_left_map_blocks, !map_map. reflexivity.
Qed.

Lemma forward_inv (m : GPT.t) (idx : LongTensor) (targets : option LongTensor)
      (logits : list (list (list R))) (loss : option R) :
  GPT.forward m idx targets = Ok (logits, loss) ->
  (size1 idx <= GPTConfig.block_size (GPT.config m))%nat
  /\ exists pos_emb tok_emb,
      Embedding.forward (GPT.wpe m) (map Z.of_nat (seq 0 (size1 idx))) = Ok pos_emb
      /\ mapM (Embedding.forward (GPT.wte m)) (rows idx) = Ok tok_emb
      /\ logits = map (fun te => decode m (madd te pos_emb)) tok_emb
      /\ match targets with
         | None => loss = None
         | Some tg =>
             exists l, cross_entropy (concat logits) (concat (rows tg)) = Ok l
                       /\ loss = Some l
         end.
Proof.
  unfold GPT.forward. intros H.
  destruct (Nat.leb_spec (size1 idx) (GPTConfig.block_size (GPT.config m)))
    as [HT | HT]; [| discriminate].
  simpl in H. split; [assumption |].
  destruct (Embedding.forward (GPT.wpe m) _) as [pos_emb |]; [| discriminate].
  simpl in H.
  destruct (mapM (Embedding.forward (GPT.wte m)) (rows idx)) as [tok_emb |];
    [| discriminate].
  simpl in H. rewrite forward_logits_shape in H.
  exists pos_emb, tok_emb. split; [reflexivity | split; [reflexivity |]].
  destruct targets as [tg |].
  - destruct (cross_entropy _ _) as [l |] eqn:CE; [| discriminate].
    simpl in H. inversion H; subst. split; [reflexivity | now exists l].
  - now inversion H.
Qed.

Lemma forward_too_long (m : GPT.t) (idx : LongTensor)
      (targets : option LongTensor) :
  (GPTConfig.block_size (GPT.config m) < size1 idx)%nat ->
  GPT.forward m idx targets = Raise AssertionError.
Proof.
  intros H. unfold GPT.forward.
  destruct (Nat.leb_spec (size1 idx) (GPTConfig.block_size (GPT.config m)));
    [lia | reflexivity].
Qed.

Lemma lookup_in_range (e : Embedding.t) (id : Z) :
  (0 <= id < Z.of_nat (length (Embedding.weight e)))%Z ->
  Embedding.lookup e id = Ok (nth (Z.to_nat id) (Embedding.weight e) []).
Proof.
  intros [H0 H1]. unfold Embedding.lookup.
  apply Z.leb_le in H0. apply Z.ltb_lt in H1. now rewrite H0, H1.
Qed.

Lemma embedding_forward_in_range (e : Embedding.t) (ids : list Z) :
  Forall (fun id => (0 <= id < Z.of_nat (length (Embedding.weight e)))%Z) ids ->
  Embedding.forward e ids
  = Ok (map (fun id => nth (Z.to_nat id) (Embedding.weight e) []) ids).
Proof.
  intros H. unfold Embedding.forward. apply mapM_total.
  eapply Forall_impl; [| exact H]. intros id. apply lookup_in_range.
Qed.

(** On a model with the constructor's shapes, a batch of valid token ids
    no longer than [block_size] goes through, whatever the targets. *)
Lemma forward_no_targets (m : GPT.t) (idx : LongTensor) :
  GPT.shaped m ->
  valid_ids (GPTConfig.vocab_size (GPT.config m)) idx ->
  (size1 idx <= GPTConfig.block_size (GPT.config m))%nat ->
  GPT.forward m idx None = Ok (logits_of m idx, None).
Proof.
  intros (Hwte & Hwpe & _) Hv HT. unfold GPT.forward.
  destruct (Nat.leb_spec (size1 idx) (GPTConfig.block_size (GPT.config m)));
    [| lia].
  simpl. destruct Hwte as [Lwte _]. destruct Hwpe as [Lwpe _].
  rewrite embedding_forward_in_range.
  2:{ apply Forall_forall. intros z Hz. apply in_map_iff in Hz.
      destruct Hz as (p & <- & Hp). apply in_seq in Hp. lia. }
  simpl.
  rewrite (mapM_total _ (map (fun id => nth (Z.to_nat id)
                                           (Embedding.weight (GPT.wte m)) []))).
  2:{ eapply Forall_impl; [| exact Hv]. intros row Hrow.
      apply embedding_forward_in_range. now rewrite Lwte. }
  simpl. rewrite forward_logits_shape, map_map. reflexivity.
Qed.

Lemma forward_with_targets (m : GPT.t) (idx tg : LongTensor) :
  GPT.shaped m ->
  valid_ids (GPTConfig.vocab_size (GPT.config m)) idx ->
  (size1 idx <= GPTConfig.block_size (GPT.config m))%nat ->
  GPT.forward m idx (Some tg)
  = loss <- cross_entropy (concat (logits_of m idx)) (concat (rows tg)) ;;
    Ok (logits_of m idx, Some loss).
Proof.
  intros Hs Hv HT.
  pose proof (forward_no_targets m idx Hs Hv HT) as H.
  unfold GPT.forward in *.
  destruct (py_assert _); [| discriminate]. simpl in *.
  destruct (Embedding.forward (GPT.wpe m) _); [| discriminate]. simpl in *.
  destruct (mapM _ (rows idx)); [| discriminate]. simpl in *.
  inversion H as [E]. reflexivity.
Qed.

Lemma firstn_agree (i : nat) (r r' : list Z) :
  length r = length r' ->
  (forall t, (t <= i)%nat -> nth t r 0%Z = nth t r' 0%Z) ->
  firstn (S i) r = firstn (S i) r'.
Proof.
  revert r r'. induction i as [| i IH]; intros [| a r] [| a' r'] L H;
    simpl in *; try discriminate; try reflexivity.
  - rewrite (H 0%nat) by lia. now destruct r, r'.
  - rewrite (H 0%nat) by lia. f_equal.
    apply IH; [lia |]. intros t Ht. apply (H (S t)). lia.
Qed.

Lemma nth_map_in_range {A B : Type} (f : A -> B) (l : list A) (n : nat)
      (d : B) (a : A) :
  nth_error l n = Some a -> nth n (map f l) d = f a.
Proof.
  revert n. induction l as [| x l IH]; intros [| n] H; simpl in *;
    try discriminate.
  - now inversion H.
  - now apply IH.
Qed.

Lemma well_formed_nth (t : LongTensor) (b : nat) :
  well_formed t -> (b < size0 t)%nat -> length (nth b (rows t) []) = size1 t.
Proof.
  intros W Hb. unfold well_formed in W. rewrite Forall_forall in W.
  apply W, nth_In, Hb.
Qed.

Lemma fixture_shaped (c : GPTConfig.t) (w : R) : GPT.shaped (Fixture.model c w).
Proof.
  assert (RR : forall (n k : nat) (x : R),
             Forall (fun v => length v = n) (repeat (repeat x n) k)).
  { intros n k x. apply Forall_forall. intros v Hv.
    apply repeat_spec in Hv. subst. apply repeat_length. }
  assert (L : forall i o b x, Linear.shaped i o b (Fixture.linear i o b x)).
  { intros i o b x. unfold Linear.shaped, Fixture.linear. simpl.
    rewrite repeat_length. repeat split; [apply RR |].
    destruct b; [split; [reflexivity | apply repeat_length] | reflexivity]. }
  assert (N : forall n, LayerNorm.shaped n (Fixture.layer_norm n)).
  { intros n. split; apply repeat_length. }
  unfold GPT.shaped, Fixture.model. simpl.
  repeat split; try apply repeat_length; try apply RR; try apply N; try apply L.
  apply Forall_forall. intros b Hb. apply repeat_spec in Hb. subst b.
  unfold Block.shaped, Fixture.block, CausalSelfAttention.shaped, MLP.shaped.
  simpl. repeat split; try apply N; try apply L; apply repeat_length.
Qed.

(** Whenever the forward pass returns on two batches of one shape that
    agree at all positions [<= i] of every row, the logits at position [i]
    are the same. *)
Lemma forward_logits_agree (m : GPT.t) (idx idx' : LongTensor)
      (targets targets' : option LongTensor) (i : nat)
      (logits logits' : list (list (list R))) (loss loss' : option R) :
  well_formed idx -> well_formed idx' ->
  size0 idx = size0 idx' -> size1 idx = size1 idx' ->
  agree_upto i idx idx' ->
  GPT.forward m idx targets = Ok (logits, loss) ->
  GPT.forward m idx' targets' = Ok (logits', loss') ->
  forall b, logits_at logits b i = logits_at logits' b i.
Proof.
  intros W W' S0 S1 Agree F F' b.
  apply forward_inv in F. apply forward_inv in F'.
  destruct F as (_ & pos & tok & Hpos & Htok & -> & _).
  destruct F' as (_ & pos' & tok' & Hpos' & Htok' & -> & _).
  rewrite <- S1, Hpos in Hpos'. inversion Hpos'; subst pos'. clear Hpos'.
  unfold logits_at.
  pose proof (mapM_length _ _ _ Htok) as Ltok.
  pose proof (mapM_length _ _ _ Htok') as Ltok'.
  destruct (Nat.lt_ge_cases b (size0 idx)) as [Hb | Hb].
  - destruct (nth_error (rows idx) b) as [row |] eqn:Erow.
    2:{ apply nth_error_None in Erow. unfold size0 in Hb. lia. }
    destruct (nth_error (rows idx') b) as [row' |] eqn:Erow'.
    2:{ apply nth_error_None in Erow'. unfold size0 in *. lia. }
    destruct (mapM_ok_map _ _ _ [] Htok) as [_ Hte].
    destruct (mapM_ok_map _ _ _ [] Htok') as [_ Hte'].
    specialize (Hte _ _ Erow). specialize (Hte' _ _ Erow').
    destruct (nth_error tok b) as [te |] eqn:Ete.
    2:{ apply nth_error_None in Ete. unfold size0 in Hb. lia. }
    destruct (nth_error tok' b) as [te' |] eqn:Ete'.
    2:{ apply nth_error_None in Ete'. unfold size0 in *. lia. }
    rewrite (nth_map_in_range _ _ _ _ _ Ete), (nth_map_in_range _ _ _ _ _ Ete').
    rewrite (nth_error_nth _ _ [] Ete) in Hte.
    rewrite (nth_error_nth _ _ [] Ete') in Hte'.
    assert (Erows : firstn (S i) row = firstn (S i) row').
    { apply firstn_agree.
      - rewrite <- (nth_error_nth _ _ [] Erow), <- (nth_error_nth _ _ [] Erow').
        rewrite !well_formed_nth; auto. now rewrite <- S0.
      - intros t Ht. specialize (Agree b t Ht). unfold token_at in Agree.
        now rewrite (nth_error_nth _ _ [] Erow), (nth_error_nth _ _ [] Erow')
          in Agree. }
    pose proof (mapM_firstn _ (S i) _ _ _ _ Hte Hte' Erows) as Etok.
    rewrite <- (nth_firstn_lt (S i) i (decode m (madd te pos))) by lia.
    rewrite <- (nth_firstn_lt (S i) i (decode m (madd te' pos))) by lia.
    rewrite !decode_prefix. unfold madd.
    now rewrite !firstn_zip_with, Etok.
  - unfold size0 in *.
    rewrite (nth_overflow (map _ tok)) by (rewrite length_map; lia).
    rewrite (nth_overflow (map _ tok')) by (rewrite length_map; lia).
    reflexivity.
Qed.

(** C1 (strict causality): for every model, whatever its configuration and
    parameter values, and every two batches of token ids of the same shape
    that agree at all positions [<= i] of every row, the logits the forward
    pass returns at position [i] of every row are the same, with or without
    targets: tokens at positions [> i] have no influence on them.  And the
    forward pass does return logits for both batches when the model has the
    constructor's shapes, the ids are in the vocabulary and the length is at
    most [block_size]. *)
Theorem forward_causal (m : GPT.t) (idx idx' : LongTensor) (i : nat) :
  well_formed idx -> well_formed idx' ->
  size0 idx = size0 idx' -> size1 idx = size1 idx' ->
  agree_upto i idx idx' ->
  (forall targets targets' logits logits' loss loss',
      GPT.forward m idx targets = Ok (logits, loss) ->
      GPT.forward m idx' targets' = Ok (logits', loss') ->
      forall b, logits_at logits b i = logits_at logits' b i)
  /\ (GPT.shaped m ->
      valid_ids (GPTConfig.vocab_size (GPT.config m)) idx ->
      valid_ids (GPTConfig.vocab_size (GPT.config m)) idx' ->
      (size1 idx <= GPTConfig.block_size (GPT.config m))%nat ->
      exists logits logits',
        GPT.forward m idx None = Ok (logits, None)
        /\ GPT.forward m idx' None = Ok (logits', None)
        /\ forall b, logits_at logits b i = logits_at logits' b i).
Proof.
  intros W W' S0 S1 Agree. split.
  - intros targets targets' logits logits' loss loss' F F'.
    exact (forward_logits_agree m idx idx' targets targets' i logits logits'
             loss loss' W W' S0 S1 Agree F F').
  - intros Hs V V' HT.
    pose proof (forward_no_targets m idx Hs V HT) as F.
    assert (HT' : (size1 idx' <= GPTConfig.block_size (GPT.config m))%nat)
      by lia.
    pose proof (forward_no_targets m idx' Hs V' HT') as F'.
    exists (logits_of m idx), (logits_of m idx').
    split; [exact F | split; [exact F' |]].
    exact (forward_logits_agree m idx idx' None None i _ _ None None
             W W' S0 S1 Agree F F').
Qed.

Lemma forward_causal_witness :
  well_formed Fixture.batch_01 /\ well_formed Fixture.batch_02
  /\ size0 Fixture.batch_01 = size0 Fixture.batch_02
  /\ size1 Fixture.batch_01 = size1 Fixture.batch_02
  /\ agree_upto 0 Fixture.batch_01 Fixture.batch_02
  /\ exists logits logits',
      GPT.forward Fixture.tiny Fixture.batch_01 None = Ok (logits, None)
      /\ GPT.forward Fixture.tiny Fixture.batch_02 None = Ok (logits', None)
      /\ forall b, logits_at logits b 0 = logits_at logits' b 0.
Proof.
  assert (W1 : well_formed Fixture.batch_01) by (repeat constructor).
  assert (W2 : well_formed Fixture.batch_02) by (repeat constructor).
  assert (A : agree_upto 0 Fixture.batch_01 Fixture.batch_02).
  { intros b t Ht. assert (t = 0%nat) by lia. subst t.
    destruct b as [| [| b]]; reflexivity. }
  repeat (split; [assumption || reflexivity |]).
  apply (forward_causal Fixture.tiny Fixture.batch_01 Fixture.batch_02 0
           W1 W2 eq_refl eq_refl A).
  - apply fixture_shaped.
  - repeat constructor; simpl; lia.
  - repeat constructor; simpl; lia.
  - simpl. lia.
Defined.

(** ** Shapes of the activations *)

Lemma length_attention_forward (a : CausalSelfAttention.t) (x : list (list R)) :
  length (CausalSelfAttention.forward a x) = length x.
Proof.
  unfold CausalSelfAttention.forward, CausalSelfAttention.merge_heads.
  now rewrite !length_map, length_seq.
Qed.

Lemma length_block_forward (b : Block.t) (x : list (list R)) :
  length (Block.forward b x) = length x.
Proof.
  unfold Block.forward, madd.
  rewrite !length_zip_with, !length_map, !length_zip_with.
  rewrite length_attention_forward, length_map. lia.
Qed.

Lemma length_decode (m : GPT.t) (x : list (list R)) :
  length (decode m x) = length x.
Proof.
  unfold decode. rewrite !length_map.
  generalize (GPT.h m). intros bs. revert x.
  induction bs as [| b bs IH]; intros x; simpl; [reflexivity |].
  now rewrite IH, length_block_forward.
Qed.

Lemma decode_width (m : GPT.t) (x : list (list R)) :
  GPT.shaped m ->
  Forall (fun v => length v = GPTConfig.vocab_size (GPT.config m)) (decode m x).
Proof.
  intros (_ & _ & _ & _ & _ & (Lw & _ & Lb) & _).
  unfold decode. apply Forall_forall. intros v Hv.
  apply in_map_iff in Hv. destruct Hv as (y & <- & _).
  unfold Linear.forward.
  destruct (Linear.bias (GPT.lm_head m)); [destruct Lb; discriminate |].
  now rewrite length_map.
Qed.

Lemma length_embed (m : GPT.t) (T : nat) (row : list Z) :
  length row = T -> length (embed m T row) = T.
Proof.
  intros H. unfold embed, madd.
  rewrite length_zip_with, !length_map, length_seq. lia.
Qed.

Lemma logits_of_shape (m : GPT.t) (idx : LongTensor) :
  GPT.shaped m -> well_formed idx ->
  has_shape3 (size0 idx) (size1 idx) (GPTConfig.vocab_size (GPT.config m))
             (logits_of m idx).
Proof.
  intros Hs W. unfold has_shape3, logits_of. split.
  - apply length_map.
  - apply Forall_forall. intros xb Hxb. apply in_map_iff in Hxb.
    destruct Hxb as (row & <- & Hrow). split.
    + rewrite length_decode. apply length_embed.
      unfold well_formed in W. rewrite Forall_forall in W. now apply W.
    + now apply decode_width.
Qed.

(** ** The cross-entropy loss on in-range targets *)

Lemma keep_some_map_Some {A B : Type} (f : A -> B) (l : list A) :
  keep_some (map (fun a => Some (f a)) l) = map f l.
Proof.
  induction l as [| a l IH]; simpl; [reflexivity | now rewrite IH].
Qed.

Lemma map_combine_zip_with {A B C : Type} (f : A -> B -> C)
      (l1 : list A) (l2 : list B) :
  map (fun ab => f (fst ab) (snd ab)) (combine l1 l2) = zip_with f l1 l2.
Proof.
  revert l2. induction l1 as [| a l1 IH]; intros [| b l2]; simpl; auto.
  now rewrite IH.
Qed.

Lemma nll_row_in_range (row : list R) (target : Z) :
  (0 <= target < Z.of_nat (length row))%Z ->
  nll_row row target = Ok (Some (token_ce row target)).
Proof.
  intros [H0 H1]. unfold nll_row, ignore_index.
  destruct (Z.eqb_spec target (-100)); [lia |].
  apply Z.leb_le in H0. apply Z.ltb_lt in H1. now rewrite H0, H1.
Qed.

Lemma cross_entropy_in_range (V : nat) (input : list (list R))
      (target : list Z) :
  length input = length target ->
  Forall (fun row => length row = V) input ->
  Forall (fun t => (0 <= t < Z.of_nat V)%Z) target ->
  cross_entropy input target
  = Ok (Rsum (zip_with token_ce input target) / INR (length input)).
Proof.
  intros L Hin Htg. unfold cross_entropy.
  rewrite L, Nat.eqb_refl.
  rewrite (mapM_total _ (fun rt => Some (token_ce (fst rt) (snd rt)))).
  - simpl. rewrite keep_some_map_Some, length_map, length_combine.
    rewrite map_combine_zip_with, <- L, Nat.min_id. reflexivity.
  - apply Forall_forall. intros [row t] Hrt. simpl.
    apply nll_row_in_range.
    rewrite Forall_forall in Hin, Htg.
    rewrite (Hin row) by (eapply in_combine_l; eauto).
    apply Htg. eapply in_combine_r; eauto.
Qed.

Lemma zip_with_app {A B C : Type} (f : A -> B -> C)
      (a a' : list A) (b b' : list B) :
  length a = length b ->
  zip_with f (a ++ a') (b ++ b') = zip_with f a b ++ zip_with f a' b'.
Proof.
  revert b. induction a as [| x a IH]; intros [| y b] L; simpl in *;
    try discriminate; [reflexivity |].
  rewrite IH by lia. reflexivity.
Qed.

Lemma zip_with_concat {A B C : Type} (f : A -> B -> C)
      (xs : list (list A)) (ys : list (list B)) :
  Forall2 (fun a b => length a = length b) xs ys ->
  zip_with f (concat xs) (concat ys) = concat (zip_with (zip_with f) xs ys).
Proof.
  induction 1 as [| a b xs ys L _ IH]; simpl; [reflexivity |].
  now rewrite zip_with_app, IH.
Qed.

Lemma Rsum_concat (l : list (list R)) : Rsum (concat l) = Rsum (map Rsum l).
Proof.
  induction l as [| a l IH]; simpl; [reflexivity |].
  rewrite Rsum_app, IH. reflexivity.
Qed.

Lemma zip_with_nth {A B C : Type} (f : A -> B -> C) (da : A) (db : B)
      (n : nat) (a : list A) (b : list B) :
  length a = n -> length b = n ->
  zip_with f a b = map (fun t => f (nth t a da) (nth t b db)) (seq 0 n).
Proof.
  revert a b. induction n as [| n IH]; intros [| x a] [| y b] La Lb;
    simpl in *; try discriminate; [reflexivity |].
  f_equal. rewrite <- seq_shift, map_map. apply IH; lia.
Qed.

Lemma length_concat_uniform {A : Type} (T : nat) (l : list (list A)) :
  Forall (fun r => length r = T) l -> length (concat l) = (length l * T)%nat.
Proof.
  induction 1 as [| r l Hr _ IH]; simpl; [reflexivity |].
  rewrite length_app, IH, Hr. reflexivity.
Qed.

(** The loss [F.cross_entropy] returns on the flattened logits and targets
    is the mean over all [B * T] positions. *)
Lemma cross_entropy_mean (B T V : nat) (logits : list (list (list R)))
      (tg : LongTensor) :
  has_shape3 B T V logits ->
  well_formed tg -> size0 tg = B -> size1 tg = T ->
  valid_ids V tg ->
  cross_entropy (concat logits) (concat (rows tg))
  = Ok (mean_token_ce logits tg B T).
Proof.
  intros [LB Hshape] W S0 S1 Hv.
  assert (HT : Forall (fun xb => length xb = T) logits)
    by (eapply Forall_impl; [| exact Hshape]; now intros xb [? _]).
  unfold well_formed in W. rewrite S1 in W. unfold size0 in S0.
  rewrite (cross_entropy_in_range V).
  - f_equal. unfold mean_token_ce.
    rewrite (length_concat_uniform T) by assumption. rewrite LB.
    f_equal.
    rewrite zip_with_concat.
    2:{ clear - HT W LB S0. revert B LB S0 W. generalize (rows tg) as ys.
        induction HT as [| xb xs Hx _ IH]; intros ys B LB S0 W.
        - destruct ys; [constructor | simpl in *; lia].
        - destruct ys as [| y ys]; [simpl in *; lia |].
          inversion W; subst. constructor; [lia |].
          apply (IH ys (length xs)); simpl in *; auto; lia. }
    rewrite Rsum_concat. f_equal.
    rewrite (zip_with_nth _ [] [] B) by auto.
    rewrite map_map. apply map_ext_in. intros b Hb. apply in_seq in Hb.
    unfold logits_at, token_at.
    rewrite (zip_with_nth _ [] 0%Z T); [reflexivity | |].
    + rewrite Forall_forall in HT. apply HT, nth_In. lia.
    + rewrite Forall_forall in W. apply W, nth_In. lia.
  - rewrite !(length_concat_uniform T) by assumption. lia.
  - apply Forall_forall. intros row Hrow. apply in_concat in Hrow.
    destruct Hrow as (xb & Hxb & Hrow).
    rewrite Forall_forall in Hshape. destruct (Hshape xb Hxb) as [_ Hw].
    rewrite Forall_forall in Hw. now apply Hw.
  - apply Forall_forall. intros t Ht. apply in_concat in Ht.
    destruct Ht as (r & Hr & Ht).
    unfold valid_ids in Hv. rewrite Forall_forall in Hv.
    specialize (Hv r Hr). rewrite Forall_forall in Hv. now apply Hv.
Qed.

(** C7 (as amended): on a model with the constructor's shapes and a (B, T)
    batch of token ids in [0, vocab_size): if [T <= block_size] the forward
    pass returns logits of shape (B, T, vocab_size) and, when the batch has
    a position ([B * T > 0]) and targets of the same shape with classes in
    [0, vocab_size) are supplied, also the mean over all [B * T] positions
    of the cross-entropy of the logits at a position against the target at
    that position; if [T > block_size] the forward pass raises
    [AssertionError] for every batch (valid ids or not), with or without
    targets, and returns nothing.  (The mean over the positions of an empty
    batch is the float nan, which has no counterpart in [R]: nothing is
    stated about that loss.) *)
Theorem forward_contract (m : GPT.t) (idx : LongTensor) :
  GPT.shaped m -> well_formed idx ->
  let B := size0 idx in
  let T := size1 idx in
  let V := GPTConfig.vocab_size (GPT.config m) in
  ((T <= GPTConfig.block_size (GPT.config m))%nat -> valid_ids V idx ->
   exists logits,
     has_shape3 B T V logits
     /\ GPT.forward m idx None = Ok (logits, None)
     /\ forall tg, (0 < B * T)%nat ->
                   well_formed tg -> size0 tg = B -> size1 tg = T ->
                   valid_ids V tg ->
                   GPT.forward m idx (Some tg)
                   = Ok (logits, Some (mean_token_ce logits tg B T)))
  /\ ((GPTConfig.block_size (GPT.config m) < T)%nat ->
      forall targets, GPT.forward m idx targets = Raise AssertionError).
Proof.
  intros Hs W B T V. split.
  - intros HT Hv. exists (logits_of m idx).
    pose proof (logits_of_shape m idx Hs W) as Sh.
    split; [exact Sh | split; [now apply forward_no_targets |]].
    intros tg _ Wtg S0 S1 Vtg.
    rewrite forward_with_targets by assumption.
    rewrite (cross_entropy_mean B T V) by assumption. reflexivity.
  - intros HT targets. now apply forward_too_long.
Qed.

Lemma forward_contract_witness :
  GPT.shaped Fixture.tiny /\ well_formed Fixture.batch_01
  /\ exists logits,
      has_shape3 1 2 3 logits
      /\ GPT.forward Fixture.tiny Fixture.batch_01 None = Ok (logits, None)
      /\ GPT.forward Fixture.tiny Fixture.batch_01 (Some Fixture.batch_12)
         = Ok (logits, Some (mean_token_ce logits Fixture.batch_12 1 2)).
Proof.
  assert (W : well_formed Fixture.batch_01) by (repeat constructor).
  split; [apply fixture_shaped | split; [exact W |]].
  destruct (forward_contract Fixture.tiny Fixture.batch_01
              (fixture_shaped _ _) W) as [Main _].
  destruct Main as (logits & Sh & F & Ftg).
  - simpl. lia.
  - repeat constructor; simpl; lia.
  - exists logits. split; [exact Sh | split; [exact F |]].
    apply Ftg; try reflexivity; repeat constructor; simpl; lia.
Defined.

(** C7 as the specification states it covers every integer matrix and every
    same-shaped target matrix.  On the tiny model (vocabulary 3, block size
    2) the (1, 1) batch holding the integer 3 is within the length limit,
    and so is the (1, 2) batch [0, 1] with targets [1, 3]; both calls raise
    [IndexError] instead of returning logits or a loss. *)
Lemma forward_rejects_out_of_range_ids :
  GPT.shaped Fixture.tiny
  /\ well_formed Fixture.batch_bad
  /\ (size1 Fixture.batch_bad <= GPTConfig.block_size (GPT.config Fixture.tiny))%nat
  /\ GPT.forward Fixture.tiny Fixture.batch_bad None = Raise IndexError
  /\ GPT.forward Fixture.tiny Fixture.batch_01 (Some Fixture.targets_bad)
     = Raise IndexError.
Proof.
  split; [apply fixture_shaped |].
  split; [repeat constructor |].
  split; [simpl; lia |].
  split; reflexivity.
Qed.

(** C10: on a model with the constructor's shapes and a (B, T) batch of
    valid token ids no longer than [block_size], the forward pass without
    targets succeeds and returns the logits of the batch, a (B, T,
    vocab_size) tensor, paired with the loss [None]; whenever the forward
    pass returns, with or without targets, it returns these same logits, and
    its loss is not [None] exactly when targets were supplied; and with
    in-range targets of the batch's shape it does return, with a loss. *)
Theorem forward_loss_iff_targets (m : GPT.t) (idx : LongTensor) :
  GPT.shaped m -> well_formed idx ->
  valid_ids (GPTConfig.vocab_size (GPT.config m)) idx ->
  (size1 idx <= GPTConfig.block_size (GPT.config m))%nat ->
  (GPT.forward m idx None = Ok (logits_of m idx, None)
   /\ has_shape3 (size0 idx) (size1 idx)
                 (GPTConfig.vocab_size (GPT.config m)) (logits_of m idx))
  /\ (forall targets logits loss,
         GPT.forward m idx targets = Ok (logits, loss) ->
         logits = logits_of m idx
         /\ (loss <> None <-> targets <> None))
  /\ (forall tg, well_formed tg -> size0 tg = size0 idx ->
                 size1 tg = size1 idx ->
                 valid_ids (GPTConfig.vocab_size (GPT.config m)) tg ->
                 exists l,
                   GPT.forward m idx (Some tg)
                   = Ok (logits_of m idx, Some l)).
Proof.
  intros Hs W Hv HT. split; [| split].
  - split; [now apply forward_no_targets | now apply logits_of_shape].
  - intros targets logits loss F. destruct targets as [tg |].
    + rewrite forward_with_targets in F by assumption.
      destruct (cross_entropy _ _) as [l |]; [| discriminate F].
      cbn [bind] in F. injection F as <- <-.
      split; [reflexivity |]. split; intros _; discriminate.
    + rewrite forward_no_targets in F by assumption.
      injection F as <- <-.
      split; [reflexivity |]. split; intros C; now contradiction C.
  - intros tg Wtg S0 S1 Vtg.
    exists (mean_token_ce (logits_of m idx) tg (size0 idx) (size1 idx)).
    rewrite forward_with_targets by assumption.
    rewrite (cross_entropy_mean (size0 idx) (size1 idx)
               (GPTConfig.vocab_size (GPT.config m))); auto.
    now apply logits_of_shape.
Qed.

Lemma forward_loss_iff_targets_witness :
  GPT.shaped Fixture.tiny /\ well_formed Fixture.batch_12
  /\ valid_ids (GPTConfig.vocab_size (GPT.config Fixture.tiny)) Fixture.batch_12
  /\ (size1 Fixture.batch_12 <= GPTConfig.block_size (GPT.config Fixture.tiny))%nat
  /\ GPT.forward Fixture.tiny Fixture.batch_12 None
     = Ok (logits_of Fixture.tiny Fixture.batch_12, None)
  /\ has_shape3 1 2 3 (logits_of Fixture.tiny Fixture.batch_12).
Proof.
  assert (W : well_formed Fixture.batch_12) by (repeat constructor).
  assert (V : valid_ids (GPTConfig.vocab_size (GPT.config Fixture.tiny))
                        Fixture.batch_12)
    by (repeat constructor; simpl; lia).
  assert (L : (size1 Fixture.batch_12
               <= GPTConfig.block_size (GPT.config Fixture.tiny))%nat)
    by (simpl; lia).
  split; [apply fixture_shaped |].
  split; [exact W | split; [exact V | split; [exact L |]]].
  exact (proj1 (forward_loss_iff_targets Fixture.tiny Fixture.batch_12
                  (fixture_shaped _ _) W V L)).
Defined.

(** ** Gradient clipping *)

Lemma sum_squares_nonneg (g : list R) : 0 <= Rsum (map (fun x => x * x) g).
Proof.
  induction g as [| x g IH]; simpl; [lra |].
  unfold Rsum in *. simpl. nra.
Qed.

Lemma vector_norm_nonneg (g : list R) : 0 <= vector_norm g.
Proof. apply sqrt_pos. Qed.

Lemma norm_of_norms (grads : list (list R)) :
  vector_norm (map vector_norm grads) = global_norm grads.
Proof.
  unfold global_norm, vector_norm at 1 3. f_equal.
  induction grads as [| g grads IH]; simpl; [reflexivity |].
  rewrite map_app, Rsum_app, <- IH. unfold Rsum at 1. simpl. f_equal.
  unfold vector_norm. apply sqrt_sqrt, sum_squares_nonneg.
Qed.

Lemma vector_norm_scale (c : R) (g : list R) :
  0 <= c -> vector_norm (map (fun x => x * c) g) = c * vector_norm g.
Proof.
  intros Hc. unfold vector_norm. rewrite map_map.
  assert (E : Rsum (map (fun x => x * c * (x * c)) g)
              = (c * c) * Rsum (map (fun x => x * x) g)).
  { induction g as [| x g IH]; simpl; [unfold Rsum; simpl; lra |].
    unfold Rsum in *. simpl. rewrite IH. lra. }
  rewrite E, sqrt_mult by (try apply sum_squares_nonneg; nra).
  now rewrite sqrt_square.
Qed.

Lemma global_norm_scale (c : R) (grads : list (list R)) :
  0 <= c ->
  global_norm (map (map (fun x => x * c)) grads) = c * global_norm grads.
Proof.
  intros Hc. unfold global_norm. rewrite <- concat_map.
  now apply vector_norm_scale.
Qed.

Lemma map_scale_one (grads : list (list R)) :
  map (map (fun x => x * 1)) grads = grads.
Proof.
  induction grads as [| g grads IH]; simpl; [reflexivity |].
  rewrite IH. f_equal.
  induction g as [| x g IHg]; simpl; [reflexivity |].
  now rewrite IHg, Rmult_1_r.
Qed.

(** C6 (as amended): [clip_grad_norm_(grads, 1.0)] returns the pre-clip
    global L2 norm [n] of all gradient entries; its divisor [n + 1e-6] is
    positive, so a zero norm divides by nothing zero; every gradient entry is
    multiplied by one and the same factor, which is positive and at most 1;
    when [n <= 1 - 1e-6] the gradients are unchanged; otherwise (in
    particular whenever [n > 1.0]) the factor is [1 / (n + 1e-6)]; the norm
    after clipping is at most [1.0 + 1e-6], and for [n > 1.0] it is at least
    [1.0 - 2e-6]: close to 1.0, which it need not equal. *)
Theorem clip_grad_norm_contract (grads : list (list R)) :
  let n := global_norm grads in
  let clipped := fst (clip_grad_norm_ grads 1.0) in
  snd (clip_grad_norm_ grads 1.0) = n
  /\ 0 < n + 1e-6
  /\ (exists c, 0 < c <= 1 /\ clipped = map (map (fun g => g * c)) grads)
  /\ (n <= 1 - 1e-6 -> clipped = grads)
  /\ (1 - 1e-6 < n ->
      clipped = map (map (fun g => g * (1 / (n + 1e-6)))) grads)
  /\ global_norm clipped <= 1.0 + 1e-6
  /\ (1.0 < n -> 1.0 - 2e-6 <= global_norm clipped).
Proof.
  intros n clipped. subst clipped. unfold clip_grad_norm_. cbn [fst snd].
  rewrite norm_of_norms. fold n.
  assert (E10 : 1.0 = 1) by lra. rewrite !E10. clear E10.
  pose proof (vector_norm_nonneg (concat grads)) as Hn.
  fold (global_norm grads) in Hn. fold n in Hn.
  assert (D : 0 < n + 1e-6) by lra.
  assert (Hc : 0 < 1 / (n + 1e-6)) by (apply Rdiv_lt_0_compat; lra).
  assert (Small : n <= 1 - 1e-6 -> Rmin (1 / (n + 1e-6)) 1 = 1).
  { intros Hs. apply Rmin_right.
    apply (Rmult_le_reg_r (n + 1e-6)); [exact D |].
    unfold Rdiv. rewrite Rmult_assoc, Rinv_l by lra. lra. }
  assert (Big : 1 - 1e-6 < n -> Rmin (1 / (n + 1e-6)) 1 = 1 / (n + 1e-6)).
  { intros Hb. apply Rmin_left.
    apply (Rmult_le_reg_r (n + 1e-6)); [exact D |].
    unfold Rdiv. rewrite Rmult_assoc, Rinv_l by lra. lra. }
  assert (Range : 1 - 1e-6 < n -> 1 - 1e-6 < n / (n + 1e-6) < 1).
  { intros Hb. split.
    - apply (Rmult_lt_reg_r (n + 1e-6)); [exact D |].
      unfold Rdiv. rewrite Rmult_assoc, Rinv_l by lra. nra.
    - apply (Rmult_lt_reg_r (n + 1e-6)); [exact D |].
      unfold Rdiv. rewrite Rmult_assoc, Rinv_l by lra. lra. }
  assert (BigNorm : 1 - 1e-6 < n ->
                    global_norm (map (map (fun g => g * (1 / (n + 1e-6)))) grads)
                    = n / (n + 1e-6)).
  { intros Hb. rewrite global_norm_scale by lra. fold n. field. lra. }
  split; [reflexivity |].
  split; [exact D |].
  split.
  { exists (Rmin (1 / (n + 1e-6)) 1). split; [| reflexivity].
    split; [apply Rmin_glb_lt; lra | apply Rmin_r]. }
  split; [intros Hs; rewrite (Small Hs); apply map_scale_one |].
  split; [intros Hb; now rewrite (Big Hb) |].
  split.
  - destruct (Rle_lt_dec n (1 - 1e-6)) as [Hs | Hb].
    + rewrite (Small Hs), map_scale_one. fold n. lra.
    + rewrite (Big Hb), (BigNorm Hb). destruct (Range Hb). lra.
  - intros H1. assert (Hb : 1 - 1e-6 < n) by lra.
    rewrite (Big Hb), (BigNorm Hb). destruct (Range Hb). lra.
Qed.

Lemma vector_norm_singleton (x : R) : 0 <= x -> vector_norm [x] = x.
Proof.
  intros Hx. unfold vector_norm, Rsum. simpl. rewrite Rplus_0_r.
  now apply sqrt_square.
Qed.

(** C6 as the specification states it asks for a post-clip norm of exactly
    1.0 above the threshold and for unchanged gradients up to a norm of 1.0.
    One gradient tensor holding the single entry 2 has norm 2 and is clipped
    to norm [2 / (2 + 1e-6)], not 1; the single entry 1 has norm 1 and is
    nevertheless changed. *)
Lemma clip_grad_norm_not_exactly_one :
  (snd (clip_grad_norm_ [[2]] 1.0) = 2
   /\ global_norm (fst (clip_grad_norm_ [[2]] 1.0)) <> 1)
  /\ (snd (clip_grad_norm_ [[1]] 1.0) = 1
      /\ fst (clip_grad_norm_ [[1]] 1.0) <> [[1]]).
Proof.
  assert (N2 : vector_norm [vector_norm [2]] = 2)
    by (rewrite (vector_norm_singleton 2) by lra;
        apply vector_norm_singleton; lra).
  assert (N1 : vector_norm [vector_norm [1]] = 1)
    by (rewrite (vector_norm_singleton 1) by lra;
        apply vector_norm_singleton; lra).
  split; split.
  - exact N2.
  - unfold clip_grad_norm_, global_norm. cbn [fst map concat app].
    rewrite N2. assert (E10 : 1.0 = 1) by lra. rewrite !E10.
    rewrite Rmin_left.
    2:{ apply (Rmult_le_reg_r (2 + 1e-6)); [lra |].
        unfold Rdiv. rewrite Rmult_assoc, Rinv_l by lra. lra. }
    rewrite vector_norm_singleton.
    + intros E. apply (Rmult_eq_compat_r (2 + 1e-6)) in E.
      unfold Rdiv in E. rewrite !Rmult_assoc, Rinv_l in E by lra. lra.
    + apply Rmult_le_pos; [lra |]. left. apply Rdiv_lt_0_compat; lra.
  - exact N1.
  - unfold clip_grad_norm_. cbn [fst map].
    rewrite N1. assert (E10 : 1.0 = 1) by lra. rewrite !E10.
    rewrite Rmin_left.
    2:{ apply (Rmult_le_reg_r (1 + 1e-6)); [lra |].
        unfold Rdiv. rewrite Rmult_assoc, Rinv_l by lra. lra. }
    intros E. inversion E as [E1].
    apply (Rmult_eq_compat_r (1 + 1e-6)) in E1.
    unfold Rdiv in E1. rewrite !Rmult_assoc, Rinv_l in E1 by lra. lra.
Qed.

(** ** The optimizer configuration *)

(** A dictionary built from pairs with distinct keys holds these pairs, in
    their order. *)
Lemma dict_set_fresh {V : Type} (d : list (string * V)) (k : string) (v : V) :
  ~ In k (map fst d) -> dict_set d k v = d ++ [(k, v)].
Proof.
  induction d as [| [k' v'] d IH]; intros H; simpl; [reflexivity |].
  destruct (String.eqb_spec k' k) as [E | _].
  - exfalso. apply H. now left.
  - f_equal. apply IH. intros Hin. apply H. now right.
Qed.

Lemma dict_of_nodup {V : Type} (items : list (string * V)) :
  NoDup (map fst items) -> dict_of items = items.
Proof.
  unfold dict_of.
  assert (G : forall d, NoDup (map fst (d ++ items)) ->
                fold_left (fun d kv => dict_set d (fst kv) (snd kv)) items d
                = d ++ items).
  { induction items as [| [k v] items IH]; intros d H; simpl.
    - now rewrite app_nil_r.
    - rewrite dict_set_fresh.
      + rewrite IH; rewrite <- app_assoc; [reflexivity | exact H].
      + rewrite map_app in H. apply NoDup_remove_2 in H.
        intros Hin. apply H. apply in_or_app. now left. }
  intros H. now apply (G []).
Qed.

Lemma map_snd_filter {A B : Type} (f : B -> bool) (l : list (A * B)) :
  map snd (filter (fun ab => f (snd ab)) l) = filter f (map snd l).
Proof.
  induction l as [| [a b] l IH]; simpl; [reflexivity |].
  destruct (f b); simpl; now rewrite IH.
Qed.

Lemma filter_split_permutation {A : Type} (f g : A -> bool) (l : list A) :
  (forall a, g a = negb (f a)) ->
  Permutation (filter f l ++ filter g l) l.
Proof.
  intros H. induction l as [| a l IH]; simpl; [constructor |].
  rewrite (H a). destruct (f a); simpl.
  - now constructor.
  - apply Permutation_sym, Permutation_cons_app, Permutation_sym, IH.
Qed.

Lemma dim_lt_2_negb (p : Param.t) :
  (Param.dim p <? 2)%nat = negb (2 <=? Param.dim p)%nat.
Proof.
  destruct (Nat.ltb_spec (Param.dim p) 2), (Nat.leb_spec 2 (Param.dim p));
    simpl; try reflexivity; lia.
Qed.

Lemma AdamW_new_ok (groups : list (list Param.t * R)) (learning_rate : R)
      (fused : bool) :
  0 <= learning_rate ->
  AdamW.new groups learning_rate (0.9, 0.95) 1e-8 fused
  = Ok {| AdamW.param_groups :=
            map (fun g => {| AdamW.params := fst g; AdamW.lr := learning_rate;
                             AdamW.betas := (0.9, 0.95); AdamW.eps := 1e-8;
                             AdamW.weight_decay := snd g |}) groups;
          AdamW.fused := fused;
          AdamW.state := fun _ => None |}.
Proof.
  intros Hlr. unfold AdamW.new, AdamW.Rle_b, AdamW.Rlt_b. cbn [fst snd].
  destruct (Rle_dec 0 learning_rate); [| contradiction].
  destruct (Rle_dec 0 1e-8); [| lra].
  destruct (Rle_dec 0 0.9); [| lra].
  destruct (Rlt_dec 0.9 1); [| lra].
  destruct (Rle_dec 0 0.95); [| lra].
  destruct (Rlt_dec 0.95 1); [| lra].
  reflexivity.
Qed.

(** The two lists of parameters that [configure_optimizers_for] hands to
    [AdamW], for names that are distinct. *)
Lemma configure_optimizers_for_lists (named : list (string * Param.t))
      (weight_decay learning_rate : R) (device_type : string) :
  0 <= learning_rate ->
  NoDup (map fst named) ->
  configure_optimizers_for named weight_decay learning_rate device_type true
  = Ok {| AdamW.param_groups :=
            [ {| AdamW.params :=
                   filter (fun p => (2 <=? Param.dim p)%nat)
                          (filter Param.requires_grad (map snd named));
                 AdamW.lr := learning_rate;
                 AdamW.betas := (0.9, 0.95); AdamW.eps := 1e-8;
                 AdamW.weight_decay := weight_decay |};
              {| AdamW.params :=
                   filter (fun p => (Param.dim p <? 2)%nat)
                          (filter Param.requires_grad (map snd named));
                 AdamW.lr := learning_rate;
                 AdamW.betas := (0.9, 0.95); AdamW.eps := 1e-8;
                 AdamW.weight_decay := 0.0 |} ];
          AdamW.fused := String.eqb device_type "cuda";
          AdamW.state := fun _ => None |}.
Proof.
  intros Hlr Hnd. unfold configure_optimizers_for.
  rewrite (dict_of_nodup named Hnd), AdamW_new_ok by exact Hlr.
  cbn [map fst snd andb].
  rewrite !(map_snd_filter (fun p => (2 <=? Param.dim p)%nat)).
  rewrite !(map_snd_filter (fun p => (Param.dim p <? 2)%nat)).
  rewrite !(map_snd_filter Param.requires_grad).
  reflexivity.
Qed.

(** C9: for every list of named parameters whose names are distinct (a
    dictionary) and every weight decay, with a learning rate the optimizer
    accepts (not negative): where the installed AdamW has the [fused] option,
    the configurator returns an AdamW optimizer with exactly two groups; the
    first holds, in the order of the dictionary, the parameters that require
    a gradient and have 2 or more dimensions and has the given weight decay,
    the second holds those with fewer than 2 dimensions and has weight decay
    0.0; the two groups together are a rearrangement of the parameters that
    require a gradient, no parameter is in both, and both groups carry betas
    (0.9, 0.95) and epsilon 1e-8.  Where AdamW has no [fused] option the
    call fails with a TypeError, since [fused=] is passed in either case. *)
Theorem configure_optimizers_partition
        (named : list (string * Param.t)) (weight_decay learning_rate : R)
        (device_type : string) (fused_available : bool) :
  0 <= learning_rate ->
  NoDup (map fst named) ->
  (fused_available = true ->
   exists opt decay nodecay,
     configure_optimizers_for named weight_decay learning_rate device_type
                              fused_available = Ok opt
     /\ AdamW.param_groups opt
        = [ {| AdamW.params := decay; AdamW.lr := learning_rate;
               AdamW.betas := (0.9, 0.95); AdamW.eps := 1e-8;
               AdamW.weight_decay := weight_decay |};
            {| AdamW.params := nodecay; AdamW.lr := learning_rate;
               AdamW.betas := (0.9, 0.95); AdamW.eps := 1e-8;
               AdamW.weight_decay := 0.0 |} ]
     /\ decay = filter (fun p => (2 <=? Param.dim p)%nat)
                       (filter Param.requires_grad (map snd named))
     /\ nodecay = filter (fun p => (Param.dim p <? 2)%nat)
                         (filter Param.requires_grad (map snd named))
     /\ Permutation (decay ++ nodecay)
                    (filter Param.requires_grad (map snd named))
     /\ (forall p, In p decay <->
                   (exists name, In (name, p) named)
                   /\ Param.requires_grad p = true /\ (2 <= Param.dim p)%nat)
     /\ (forall p, In p nodecay <->
                   (exists name, In (name, p) named)
                   /\ Param.requires_grad p = true /\ (Param.dim p < 2)%nat)
     /\ (forall p, ~ (In p decay /\ In p nodecay)))
  /\ (fused_available = false ->
      configure_optimizers_for named weight_decay learning_rate device_type
                               fused_available = Raise TypeError).
Proof.
  intros Hlr Hnd.
  assert (Named : forall p, In p (map snd named)
                            <-> exists name, In (name, p) named).
  { intros p. rewrite in_map_iff. split.
    - intros [[name q] [E Hin]]. simpl in E. subst q. now exists name.
    - intros [name Hin]. now exists (name, p). }
  assert (Dec : forall p,
             In p (filter (fun p => (2 <=? Param.dim p)%nat)
                          (filter Param.requires_grad (map snd named)))
             <-> (exists name, In (name, p) named)
                 /\ Param.requires_grad p = true /\ (2 <= Param.dim p)%nat).
  { intros p. rewrite !filter_In, Nat.leb_le, Named. tauto. }
  assert (Nodec : forall p,
             In p (filter (fun p => (Param.dim p <? 2)%nat)
                          (filter Param.requires_grad (map snd named)))
             <-> (exists name, In (name, p) named)
                 /\ Param.requires_grad p = true /\ (Param.dim p < 2)%nat).
  { intros p. rewrite !filter_In, Nat.ltb_lt, Named. tauto. }
  split.
  - intros ->.
    eexists. exists (filter (fun p => (2 <=? Param.dim p)%nat)
                            (filter Param.requires_grad (map snd named))).
    exists (filter (fun p => (Param.dim p <? 2)%nat)
                   (filter Param.requires_grad (map snd named))).
    split; [apply configure_optimizers_for_lists; assumption |].
    split; [reflexivity |].
    split; [reflexivity |].
    split; [reflexivity |].
    split; [apply filter_split_permutation, dim_lt_2_negb |].
    split; [exact Dec |].
    split; [exact Nodec |].
    intros p [H1 H2]. apply Dec in H1. apply Nodec in H2. lia.
  - intros ->. reflexivity.
Qed.

Lemma configure_optimizers_partition_witness :
  0 <= 6e-4
  /\ NoDup (map fst Fixture.linear_named)
  /\ exists opt decay nodecay,
      configure_optimizers_for Fixture.linear_named 0.1 6e-4 "cuda" true = Ok opt
      /\ map AdamW.params (AdamW.param_groups opt) = [decay; nodecay]
      /\ Permutation (decay ++ nodecay)
                     (filter Param.requires_grad (map snd Fixture.linear_named)).
Proof.
  assert (P : 0 <= 6e-4) by lra.
  assert (N : NoDup (map fst Fixture.linear_named)).
  { cbn [Fixture.linear_named map fst].
    repeat constructor; cbn [In]; intros H;
      repeat (destruct H as [H | H]; [discriminate H |]); exact H. }
  split; [exact P | split; [exact N |]].
  destruct (proj1 (configure_optimizers_partition
                     Fixture.linear_named 0.1 6e-4 "cuda" true P N) eq_refl)
    as (opt & decay & nodecay & E & G & _ & _ & Perm & _).
  exists opt, decay, nodecay.
  split; [exact E | split; [now rewrite G | exact Perm]].
Defined.

(** ** Construction and initialization of the model *)

Section InitFacts.
Variable generator : Type.
Variable normal_sample : generator -> nat -> R -> R -> list R * generator.
Variable uniform_sample : generator -> nat -> R -> R -> list R * generator.

Let init := _init_weights generator normal_sample.
Let new := GPT_new generator normal_sample uniform_sample.

Lemma Linear_new_obj (wid : param_id) (bid : option param_id)
      (i o : nat) (w : world generator) :
  fst (Linear_new generator uniform_sample wid bid i o w)
  = linear_obj wid bid i o false.
Proof. unfold Linear_new. now destruct bid. Qed.

Lemma Block_new_obj (config : GPTConfig.t) (layer : nat)
      (w w' : world generator) (b : Obj.Block.t) :
  Block_new generator uniform_sample config layer w = Ok (b, w') ->
  b = block_obj config layer.
Proof.
  unfold Block_new, CausalSelfAttention_new, MLP_new, LayerNorm_new.
  cbn [bind].
  destruct (py_divides _ _) as [ok |]; [| discriminate]. cbn [bind].
  destruct (py_assert ok); [| discriminate]. cbn [bind].
  unfold Linear_new. intros H. inversion H. reflexivity.
Qed.

Lemma Blocks_new_obj (config : GPTConfig.t) (n layer : nat)
      (w w' : world generator) (bs : list Obj.Block.t) :
  Blocks_new generator uniform_sample config layer n w = Ok (bs, w') ->
  bs = map (block_obj config) (seq layer n).
Proof.
  revert layer w w' bs. induction n as [| n IH]; intros layer w w' bs; simpl.
  - intros H. now inversion H.
  - destruct (Block_new _ _ _ _ _) as [[b w1] |] eqn:B; [| discriminate].
    cbn [bind].
    destruct (Blocks_new _ _ _ _ _ _) as [[bs' w2] |] eqn:Bs; [| discriminate].
    cbn [bind]. intros H. inversion H; subst.
    apply Block_new_obj in B. apply IH in Bs. now subst.
Qed.

Lemma GPT_new_obj (config : GPTConfig.t) (w w' : world generator)
      (g : Obj.GPT.t) :
  new config w = Ok (g, w') ->
  g = gpt_obj config /\ exists w0, w' = apply generator (init config) g w0.
Proof.
  unfold new, GPT_new, Embedding_new, LayerNorm_new. 
  destruct (Blocks_new _ _ _ _ _ _) as [[h w1] |] eqn:Bs; [| discriminate].
  cbn [bind]. apply Blocks_new_obj in Bs. subst h.
  destruct (Linear_new _ _ _ _ _ _ _) as [lm_head w2] eqn:L.
  pose proof (Linear_new_obj lm_head_weight None (GPTConfig.n_embed config)
                (GPTConfig.vocab_size config)
                (zeros_ generator (Param.new ln_f_bias [GPTConfig.n_embed config])
                   (ones_ generator (Param.new ln_f_weight [GPTConfig.n_embed config])
                      w1))) as Lo.
  rewrite L in Lo. simpl in Lo. subst lm_head.
  intros H. inversion H. split; [reflexivity |]. now exists w2.
Qed.

Lemma Blocks_new_ok (config : GPTConfig.t) (n layer : nat)
      (w : world generator) :
  GPTConfig.n_head config <> 0%nat ->
  (GPTConfig.n_embed config mod GPTConfig.n_head config = 0)%nat ->
  exists bs w', Blocks_new generator uniform_sample config layer n w
                = Ok (bs, w').
Proof.
  intros Hh Hd. revert layer w.
  induction n as [| n IH]; intros layer w; simpl; [now eauto |].
  unfold Block_new, CausalSelfAttention_new, py_divides, LayerNorm_new, MLP_new.
  destruct (Nat.eqb_spec (GPTConfig.n_head config) 0); [contradiction |].
  cbn [bind]. rewrite Hd. cbn [Nat.eqb py_assert bind].
  unfold Linear_new. cbn [bind].
  match goal with
  | |- context [Blocks_new _ _ _ _ _ ?w1] =>
      destruct (IH (S layer) w1) as (bs & w' & E)
  end.
  rewrite E. cbn [bind]. eauto.
Qed.

(** Construction succeeds when [n_head] divides [n_embed] (or when there is
    no block to construct). *)
Lemma GPT_new_ok (config : GPTConfig.t) (w : world generator) :
  GPTConfig.n_layer config = 0%nat
  \/ (GPTConfig.n_head config <> 0%nat
      /\ (GPTConfig.n_embed config mod GPTConfig.n_head config = 0)%nat) ->
  exists g w', new config w = Ok (g, w').
Proof.
  intros H. unfold new, GPT_new, Embedding_new, LayerNorm_new.
  match goal with
  | |- context [Blocks_new _ _ _ _ _ ?w1] =>
      assert (B : exists bs w', Blocks_new generator uniform_sample config 0
                                  (GPTConfig.n_layer config) w1 = Ok (bs, w'))
  end.
  { destruct H as [H | [H1 H2]].
    - rewrite H. simpl. eauto.
    - now apply Blocks_new_ok. }
  destruct B as (bs & w' & E). rewrite E. cbn [bind].
  destruct (Linear_new _ _ _ _ _ _ _). eauto.
Qed.







End InitFacts.


(** ** Weight tying *)

Section TyingFacts.
Variable generator : Type.
Variable normal_sample : generator -> nat -> R -> R -> list R * generator.
Variable uniform_sample : generator -> nat -> R -> R -> list R * generator.

Let state := training_state generator.
Let exec := run generator normal_sample.

Lemma run_model (op : operation) (st : state) : model generator (exec op st) = model generator st.
Proof.
  destruct op; simpl; try reflexivity.
  destruct (AdamW.step _ _ _). reflexivity.
Qed.

Lemma run_all_model (ops : list operation) (st : state) :
  model generator (run_all generator normal_sample ops st) = model generator st.
Proof.
  revert st. induction ops as [| op ops IH]; intros st; simpl; [reflexivity |].
  now rewrite IH, run_model.
Qed.

Lemma store_set_same (s : store) (i : param_id) (v : list R) :
  store_set s i v i = v.
Proof.
  unfold store_set. destruct (param_id_eq_dec i i); [reflexivity | congruence].
Qed.

(** C3: a model [GPT.__init__] has constructed holds one parameter object
    under both names, [transformer.wte.weight] and [lm_head.weight]; no
    operation (initialization, forward pass, optimizer step, in-place copy)
    changes that; after every sequence of operations the data and the matrix
    read through the two names are the same; and an in-place write through
    either name is what the other name reads next. *)
Theorem weight_tying (config : GPTConfig.t) (w w' : world generator)
        (g : Obj.GPT.t) :
  GPT_new generator normal_sample uniform_sample config w = Ok (g, w') ->
  tied g
  /\ forall (opt : AdamW.t) (ops : list operation),
      let st := run_all generator normal_sample ops
                        {| model := g; state_world := w'; optimizer := opt |} in
      tied (model generator st)
      /\ token_embedding_data generator st = output_projection_data generator st
      /\ Embedding.weight
           (GPT.wte (load (params (state_world generator st)) (model generator st)))
         = Linear.weight
             (GPT.lm_head (load (params (state_world generator st))
                                (model generator st)))
      /\ (forall v,
             output_projection_data generator
               (exec (CopyIntoTokenEmbedding v) st) = v
             /\ token_embedding_data generator
                  (exec (CopyIntoOutputProjection v) st) = v).
Proof.
  intros H. apply GPT_new_obj in H. destruct H as [-> _].
  assert (T : tied (gpt_obj config)) by reflexivity.
  split; [exact T |].
  intros opt ops st.
  assert (M : model generator st = gpt_obj config).
  { unfold st. now rewrite run_all_model. }
  rewrite M. split; [exact T | split; [| split]].
  - unfold token_embedding_data, output_projection_data. now rewrite M, T.
  - reflexivity.
  - intros v. unfold token_embedding_data, output_projection_data.
    unfold exec. rewrite !run_model. simpl. rewrite M. unfold vector_of. simpl.
    split; apply store_set_same.
Qed.
End TyingFacts.

Lemma weight_tying_witness :
  exists g w',
    GPT_new unit Fixture.constant_sample Fixture.constant_sample
            Fixture.tiny_config Fixture.world0 = Ok (g, w')
    /\ tied g.
Proof.
  destruct (GPT_new_ok unit Fixture.constant_sample Fixture.constant_sample
              Fixture.tiny_config Fixture.world0) as (g & w' & E).
  { right. split; [discriminate | reflexivity]. }
  exists g, w'. split; [exact E |].
  apply (weight_tying unit Fixture.constant_sample Fixture.constant_sample
           Fixture.tiny_config Fixture.world0 w' g E).
Defined.

(** ** Gradient accumulation *)

Lemma vscale_vadd (c : R) (a b : list R) :
  vscale c (vadd a b) = vadd (vscale c a) (vscale c b).
Proof.
  unfold vscale, vadd. revert b.
  induction a as [| x a IH]; intros [| y b]; simpl; try reflexivity.
  rewrite IH. f_equal. ring.
Qed.

Lemma vscale_vscale (a b : R) (v : list R) :
  vscale a (vscale b v) = vscale (a * b) v.
Proof.
  unfold vscale. rewrite map_map. apply map_ext. intros x. ring.
Qed.

Lemma vadd_assoc (a b c : list R) : vadd (vadd a b) c = vadd a (vadd b c).
Proof.
  unfold vadd. revert b c.
  induction a as [| x a IH]; intros [| y b] [| z c]; simpl; try reflexivity.
  rewrite IH. f_equal. ring.
Qed.

Lemma fold_vadd_vadd (l : list (list R)) (x b : list R) :
  fold_left vadd l (vadd x b) = vadd x (fold_left vadd l b).
Proof.
  revert b. induction l as [| a l IH]; intros b; simpl; [reflexivity |].
  now rewrite vadd_assoc, IH.
Qed.

Lemma vsum_cons (a : list R) (l : list (list R)) :
  l <> [] -> vsum (a :: l) = vadd a (vsum l).
Proof.
  destruct l as [| b l]; [congruence |]. intros _. simpl.
  apply fold_vadd_vadd.
Qed.

Lemma vsum_app (l1 l2 : list (list R)) :
  l1 <> [] -> l2 <> [] -> vsum (l1 ++ l2) = vadd (vsum l1) (vsum l2).
Proof.
  destruct l1 as [| a l1]; [congruence |].
  destruct l2 as [| b l2]; [congruence |]. intros _ _. simpl.
  rewrite fold_left_app. simpl. apply fold_vadd_vadd.
Qed.

Lemma vsum_concat (ls : list (list (list R))) :
  Forall (fun l => l <> []) ls -> vsum (concat ls) = vsum (map vsum ls).
Proof.
  induction 1 as [| l ls Hl Hls IH]; [reflexivity |].
  destruct ls as [| l' ls].
  - simpl. now rewrite app_nil_r.
  - change (concat (l :: l' :: ls)) with (l ++ concat (l' :: ls)).
    rewrite vsum_app; [| assumption |].
    + rewrite IH. symmetry. apply vsum_cons. discriminate.
    + inversion Hls; subst. simpl. destruct l'; [congruence | discriminate].
Qed.

Lemma vscale_vsum (c : R) (l : list (list R)) :
  vscale c (vsum l) = vsum (map (vscale c) l).
Proof.
  destruct l as [| a l]; [reflexivity |]. simpl. revert a.
  induction l as [| b l IH]; intros a; simpl; [reflexivity |].
  now rewrite IH, vscale_vadd.
Qed.

Lemma concat_map_concat {A : Type} (l : list (list (list A))) :
  concat (map (@concat A) l) = concat (concat l).
Proof.
  induction l as [| a l IH]; simpl; [reflexivity |].
  now rewrite concat_app, IH.
Qed.

Lemma zip_with_map {A B C D : Type} (f : B -> C -> D) (g : A -> B)
      (h : A -> C) (l : list A) :
  zip_with f (map g l) (map h l) = map (fun a => f (g a) (h a)) l.
Proof.
  induction l as [| a l IH]; simpl; [reflexivity | now rewrite IH].
Qed.

Lemma Rsum_map_scale {A : Type} (f : A -> R) (c : R) (l : list A) :
  Rsum (map (fun a => f a * c) l) = Rsum (map f l) * c.
Proof.
  induction l as [| a l IH]; simpl; unfold Rsum in *; simpl; [lra |].
  rewrite IH. lra.
Qed.

Lemma fold_left_Rplus {A : Type} (f : A -> R) (l : list A) (x : R) :
  fold_left (fun acc a => acc + f a) l x = x + Rsum (map f l).
Proof.
  revert x. induction l as [| a l IH]; intros x; simpl.
  - unfold Rsum. simpl. lra.
  - rewrite IH. unfold Rsum. simpl. lra.
Qed.

Lemma cross_entropy_flat (B T V : nat) (logits : list (list (list R)))
      (tg : LongTensor) :
  has_shape3 B T V logits ->
  well_formed tg -> size0 tg = B -> size1 tg = T ->
  valid_ids V tg ->
  cross_entropy (concat logits) (concat (rows tg))
  = Ok (Rsum (zip_with token_ce (concat logits) (concat (rows tg)))
        / INR (length (concat logits))).
Proof.
  intros [LB Hshape] W S0 S1 Hv.
  assert (HT : Forall (fun xb => length xb = T) logits)
    by (eapply Forall_impl; [| exact Hshape]; now intros xb [? _]).
  unfold well_formed in W. rewrite S1 in W. unfold size0 in S0.
  apply (cross_entropy_in_range V).
  - rewrite !(length_concat_uniform T) by assumption. lia.
  - apply Forall_forall. intros row Hrow. apply in_concat in Hrow.
    destruct Hrow as (xb & Hxb & Hrow).
    rewrite Forall_forall in Hshape. destruct (Hshape xb Hxb) as [_ Hw].
    rewrite Forall_forall in Hw. now apply Hw.
  - apply Forall_forall. intros t Ht. apply in_concat in Ht.
    destruct Ht as (r & Hr & Ht).
    unfold valid_ids in Hv. rewrite Forall_forall in Hv.
    specialize (Hv r Hr). rewrite Forall_forall in Hv. now apply Hv.
Qed.

Lemma forward_batch (m : GPT.t) (B T : nat) (xy : LongTensor * LongTensor) :
  GPT.shaped m ->
  (T <= GPTConfig.block_size (GPT.config m))%nat ->
  valid_batch m B T xy ->
  GPT.forward m (fst xy) (Some (snd xy))
  = Ok (logits_of m (fst xy), Some (batch_loss m xy)).
Proof.
  intros Hs HT (Wx & Bx & Tx & Vx & Wy & By & Ty & Vy).
  rewrite forward_with_targets by (try assumption; lia).
  rewrite (cross_entropy_flat B T (GPTConfig.vocab_size (GPT.config m)));
    try assumption.
  - reflexivity.
  - rewrite <- Bx, <- Tx. now apply logits_of_shape.
Qed.

Lemma combine_map_r {A B : Type} (f : A -> B) (l : list A) :
  combine l (map f l) = map (fun a => (a, f a)) l.
Proof.
  induction l as [| a l IH]; simpl; [reflexivity | now rewrite IH].
Qed.

Lemma mapM_map_total {A B C : Type} (f : B -> result C) (g : A -> B)
      (h : A -> C) (l : list A) :
  (forall a, In a l -> f (g a) = Ok (h a)) ->
  mapM f (map g l) = Ok (map h l).
Proof.
  induction l as [| a l IH]; intros H; simpl; [reflexivity |].
  rewrite H by now left. simpl. rewrite IH by (intros; apply H; now right).
  reflexivity.
Qed.

Lemma repeat_map_seq {A : Type} (a : A) (n : nat) :
  repeat a n = map (fun _ => a) (seq 0 n).
Proof.
  generalize 0%nat. induction n as [| n IH]; intros s; simpl;
    [reflexivity | now rewrite <- IH].
Qed.

Section AccumulationFacts.
Variable token_grad : GPT.t -> list Z -> nat -> Z -> list R.
Variable m : GPT.t.
Variable K : nat.
Variable loader : nat -> nat -> LongTensor * LongTensor.
Variables B T W : nat.
Hypothesis m_shaped : GPT.shaped m.
Hypothesis T_fits : (T <= GPTConfig.block_size (GPT.config m))%nat.
Hypothesis batches_valid :
  forall rank k, (rank < W)%nat -> (k < K)%nat -> valid_batch m B T (loader rank k).

Let step := local_step token_grad m K loader.
Let run_local := local_run token_grad m K loader.

Lemma micro_step_local (rank k : nat) (wk : worker) :
  (rank < W)%nat -> (k < K)%nat ->
  micro_step token_grad m K (loader rank k) wk = Ok (step rank wk k).
Proof.
  intros Hr Hk. unfold micro_step, step, local_step.
  pose proof (forward_batch m B T (loader rank k) m_shaped T_fits
                (batches_valid rank k Hr Hk)) as F.
  destruct (loader rank k) as [x y]. simpl in F. rewrite F. reflexivity.
Qed.

Lemma micro_steps_app (ddp : bool) (s1 s2 : list nat) (ws : list worker) :
  micro_steps token_grad m ddp K loader (s1 ++ s2) ws
  = ws' <- micro_steps token_grad m ddp K loader s1 ws ;;
    micro_steps token_grad m ddp K loader s2 ws'.
Proof.
  revert ws. induction s1 as [| k s1 IH]; intros ws; simpl; [reflexivity |].
  destruct (mapM _ _) as [ws1 |]; [| reflexivity]. simpl. apply IH.
Qed.

Lemma micro_steps_one (ddp : bool) (k : nat) (F : nat -> worker) :
  (k < K)%nat ->
  micro_steps token_grad m ddp K loader [k] (map F (seq 0 W))
  = Ok (let ws := map (fun rank => step rank (F rank) k) (seq 0 W) in
        if (ddp && (k =? K - 1)%nat)%bool then all_reduce_grad ws else ws).
Proof.
  intros Hk. simpl. rewrite length_map, length_seq, combine_map_r.
  rewrite (mapM_map_total _ _ (fun rank => step rank (F rank) k)).
  - reflexivity.
  - intros rank Hr. apply in_seq in Hr. simpl. apply micro_step_local; lia.
Qed.

Lemma micro_steps_no_sync (ddp : bool) (steps : list nat) (F : nat -> worker) :
  (forall k, In k steps -> (k < K)%nat /\ (ddp && (k =? K - 1)%nat)%bool = false) ->
  micro_steps token_grad m ddp K loader steps (map F (seq 0 W))
  = Ok (map (fun rank => run_local rank steps (F rank)) (seq 0 W)).
Proof.
  revert F. induction steps as [| k steps IH]; intros F H.
  - simpl. reflexivity.
  - change (k :: steps) with ([k] ++ steps).
    rewrite micro_steps_app, micro_steps_one by (apply H; now left).
    destruct (H k (or_introl eq_refl)) as [_ ->]. cbn [bind].
    rewrite (IH (fun rank => step rank (F rank) k))
      by (intros; apply H; now right).
    reflexivity.
Qed.

(** The micro-step loop: every process runs its own micro-steps, and with
    DDP the gradients are averaged once, in the last micro-step. *)
Lemma micro_steps_all (ddp : bool) (wk0 : worker) :
  (0 < K)%nat ->
  micro_steps token_grad m ddp K loader (seq 0 K) (repeat wk0 W)
  = Ok (let ws := map (fun rank => run_local rank (seq 0 K) wk0) (seq 0 W) in
        if ddp then all_reduce_grad ws else ws).
Proof.
  intros HK. rewrite repeat_map_seq.
  assert (ES : seq 0 K = seq 0 (K - 1) ++ [(K - 1)%nat]).
  { replace K with (S (K - 1)) at 1 by lia. now rewrite seq_S. }
  rewrite ES, micro_steps_app, micro_steps_no_sync.
  - cbn [bind]. rewrite micro_steps_one by lia.
    rewrite Nat.eqb_refl, andb_true_r.
    f_equal. cbv zeta.
    assert (E : map (fun rank => step rank (run_local rank (seq 0 (K - 1)) wk0)
                                      (K - 1)%nat)
                    (seq 0 W)
                = map (fun rank => run_local rank (seq 0 (K - 1) ++ [(K - 1)%nat])
                                             wk0)
                      (seq 0 W)).
    { apply map_ext. intros rank. unfold run_local, local_run.
      now rewrite fold_left_app. }
    now rewrite E.
  - intros k Hk. apply in_seq in Hk. split; [lia |].
    destruct (Nat.eqb_spec k (K - 1)); [lia |]. apply andb_false_r.
Qed.
End AccumulationFacts.

Section LocalSums.
Variable token_grad : GPT.t -> list Z -> nat -> Z -> list R.
Variable m : GPT.t.
Variable K : nat.
Variable loader : nat -> nat -> LongTensor * LongTensor.

Let run_local := local_run token_grad m K loader.

(** What one micro-step adds to the accumulator of process [rank]. *)
Let contribution (rank k : nat) : list R :=
  vscale (1 / INR K)
         (loss_grad token_grad m (fst (loader rank k)) (snd (loader rank k))).

Lemma local_run_grad_some (rank : nat) (steps : list nat) (wk : worker)
      (a : list R) :
  grad wk = Some a ->
  grad (run_local rank steps wk)
  = Some (fold_left vadd (map (contribution rank) steps) a).
Proof.
  revert wk a. induction steps as [| k steps IH]; intros wk a H; simpl.
  - exact H.
  - unfold run_local, local_run in *. simpl.
    apply IH. unfold local_step, backward. simpl. rewrite H. reflexivity.
Qed.

Lemma local_run_grad_none (rank : nat) (steps : list nat) (wk : worker) :
  grad wk = None -> steps <> [] ->
  grad (run_local rank steps wk) = Some (vsum (map (contribution rank) steps)).
Proof.
  intros H Hs. destruct steps as [| k steps]; [congruence |].
  unfold run_local, local_run. simpl.
  apply local_run_grad_some. unfold local_step, backward. simpl.
  rewrite H. reflexivity.
Qed.

Lemma local_run_loss (rank : nat) (steps : list nat) (wk : worker) :
  loss_accum (run_local rank steps wk)
  = loss_accum wk
    + Rsum (map (fun k => batch_loss m (loader rank k) / INR K) steps).
Proof.
  revert wk. induction steps as [| k steps IH]; intros wk; simpl.
  - unfold Rsum. simpl. lra.
  - unfold run_local, local_run in *. simpl. rewrite IH.
    unfold local_step. simpl. unfold Rsum. simpl. lra.
Qed.
End LocalSums.

(** ** The concatenated batch *)

Lemma zip_with_concat_map {A B C X : Type} (f : A -> B -> C)
      (g : X -> list A) (h : X -> list B) (l : list X) :
  (forall a, In a l -> length (g a) = length (h a)) ->
  zip_with f (concat (map g l)) (concat (map h l))
  = concat (map (fun a => zip_with f (g a) (h a)) l).
Proof.
  induction l as [| a l IH]; intros H; simpl; [reflexivity |].
  rewrite zip_with_app by (apply H; now left).
  rewrite IH by (intros; apply H; now right). reflexivity.
Qed.

Lemma length_concat_map {A X : Type} (n : nat) (g : X -> list A)
      (l : list X) :
  (forall a, In a l -> length (g a) = n) ->
  length (concat (map g l)) = (length l * n)%nat.
Proof.
  intros H. rewrite (length_concat_uniform n), length_map; [reflexivity |].
  apply Forall_forall. intros r Hr. apply in_map_iff in Hr.
  destruct Hr as (a & <- & Ha). now apply H.
Qed.

Section BigBatch.
Variable token_grad : GPT.t -> list Z -> nat -> Z -> list R.
Variable m : GPT.t.
Variables B T : nat.
Variable batches : list (LongTensor * LongTensor).
Hypothesis batches_valid : Forall (valid_batch m B T) batches.

Let X : LongTensor := cat (map fst batches) T.
Let Y : LongTensor := cat (map snd batches) T.

Lemma valid_batch_in (xy : LongTensor * LongTensor) :
  In xy batches -> valid_batch m B T xy.
Proof. intros H. rewrite Forall_forall in batches_valid. now apply batches_valid. Qed.

Lemma rows_cat (ts : list LongTensor) :
  rows (cat ts T) = concat (map rows ts).
Proof. reflexivity. Qed.

Lemma cat_valid : valid_batch m (length batches * B) T (X, Y).
Proof.
  assert (G : forall (sel : LongTensor * LongTensor -> LongTensor),
             (forall xy, In xy batches ->
                         well_formed (sel xy) /\ size0 (sel xy) = B
                         /\ size1 (sel xy) = T
                         /\ valid_ids (GPTConfig.vocab_size (GPT.config m)) (sel xy)) ->
             well_formed (cat (map sel batches) T)
             /\ size0 (cat (map sel batches) T) = (length batches * B)%nat
             /\ size1 (cat (map sel batches) T) = T
             /\ valid_ids (GPTConfig.vocab_size (GPT.config m))
                          (cat (map sel batches) T)).
  { intros sel H. repeat split.
    - unfold well_formed. simpl. apply Forall_forall. intros r Hr.
      apply in_concat in Hr. destruct Hr as (rs & Hrs & Hr).
      apply in_map_iff in Hrs. destruct Hrs as (t & <- & Ht).
      apply in_map_iff in Ht. destruct Ht as (xy & <- & Hxy).
      destruct (H xy Hxy) as (Wf & _ & S1 & _).
      unfold well_formed in Wf. rewrite Forall_forall in Wf.
      rewrite <- S1. now apply Wf.
    - unfold size0. simpl. rewrite map_map.
      apply length_concat_map. intros xy Hxy. now apply H.
    - unfold valid_ids. simpl. apply Forall_forall. intros r Hr.
      apply in_concat in Hr. destruct Hr as (rs & Hrs & Hr).
      apply in_map_iff in Hrs. destruct Hrs as (t & <- & Ht).
      apply in_map_iff in Ht. destruct Ht as (xy & <- & Hxy).
      destruct (H xy Hxy) as (_ & _ & _ & Hv).
      unfold valid_ids in Hv. rewrite Forall_forall in Hv. now apply Hv. }
  destruct (G fst) as (A1 & A2 & A3 & A4).
  { intros xy Hxy.
    destruct (valid_batch_in xy Hxy) as (? & ? & ? & ? & _). tauto. }
  destruct (G snd) as (B1 & B2 & B3 & B4).
  { intros xy Hxy.
    destruct (valid_batch_in xy Hxy) as (_ & _ & _ & _ & ? & ? & ? & ?). tauto. }
  unfold valid_batch, X, Y. simpl. tauto.
Qed.

Lemma logits_of_cat :
  concat (logits_of m X)
  = concat (map (fun xy => concat (logits_of m (fst xy))) batches).
Proof.
  unfold logits_of, X. simpl. rewrite !map_map, concat_map, map_map.
  rewrite <- concat_map_concat, map_map.
  f_equal. apply map_ext_in. intros xy Hxy.
  destruct (valid_batch_in xy Hxy) as (_ & _ & -> & _). reflexivity.
Qed.

Lemma length_flat_logits (xy : LongTensor * LongTensor) :
  GPT.shaped m -> In xy batches ->
  length (concat (logits_of m (fst xy))) = (B * T)%nat.
Proof.
  intros Hs Hxy. destruct (valid_batch_in xy Hxy) as (Wf & S0 & S1 & _).
  destruct (logits_of_shape m (fst xy) Hs Wf) as [L F].
  rewrite (length_concat_uniform T).
  - rewrite L. now rewrite S0.
  - eapply Forall_impl; [| exact F]. intros xb [Hx _]. now rewrite Hx.
Qed.

Lemma length_flat_targets (xy : LongTensor * LongTensor) :
  In xy batches -> length (concat (rows (snd xy))) = (B * T)%nat.
Proof.
  intros Hxy.
  destruct (valid_batch_in xy Hxy) as (_ & _ & _ & _ & Wf & S0 & S1 & _).
  rewrite (length_concat_uniform T).
  - unfold size0 in S0. now rewrite S0.
  - unfold well_formed in Wf. now rewrite S1 in Wf.
Qed.

(** The loss of the concatenated batch is the sum of all position terms
    over the number of positions. *)
Lemma batch_loss_cat :
  GPT.shaped m ->
  batch_loss m (X, Y)
  = Rsum (map (fun xy => Rsum (zip_with token_ce
                                        (concat (logits_of m (fst xy)))
                                        (concat (rows (snd xy)))))
              batches)
    / INR (length batches * (B * T)).
Proof.
  intros Hs. unfold batch_loss. cbn [fst snd].
  rewrite logits_of_cat.
  assert (EY : concat (rows Y)
               = concat (map (fun xy => concat (rows (snd xy))) batches)).
  { unfold Y. simpl. now rewrite map_map, <- concat_map_concat, map_map. }
  rewrite EY, zip_with_concat_map.
  - rewrite Rsum_concat, map_map.
    rewrite (length_concat_map (B * T)); [reflexivity |].
    intros xy Hxy. now apply length_flat_logits.
  - intros xy Hxy. rewrite length_flat_logits, length_flat_targets; auto.
Qed.

Lemma batch_loss_one (xy : LongTensor * LongTensor) :
  GPT.shaped m -> In xy batches ->
  batch_loss m xy
  = Rsum (zip_with token_ce (concat (logits_of m (fst xy)))
                   (concat (rows (snd xy))))
    / INR (B * T).
Proof.
  intros Hs Hxy. unfold batch_loss. now rewrite length_flat_logits.
Qed.

Lemma length_position_grads (xy : LongTensor * LongTensor) :
  In xy batches ->
  length (position_grads token_grad m (fst xy) (snd xy)) = (B * T)%nat.
Proof.
  intros Hxy.
  destruct (valid_batch_in xy Hxy) as (_ & Sx & _ & _ & Wf & Sy & S1 & _).
  unfold position_grads. rewrite (length_concat_uniform T).
  - rewrite length_zip_with. unfold size0 in *. rewrite Sx, Sy.
    now rewrite Nat.min_id.
  - unfold well_formed in Wf. rewrite S1 in Wf. clear - Wf.
    revert Wf. generalize (rows (fst xy)) as xs. generalize (rows (snd xy)) as ys.
    intros ys xs Wf. revert xs.
    induction Wf as [| y ys Hy _ IH]; intros [| x xs]; simpl; constructor.
    + unfold imap. now rewrite length_imap_from.
    + apply IH.
Qed.

Lemma position_grads_cat :
  position_grads token_grad m X Y
  = concat (map (fun xy => position_grads token_grad m (fst xy) (snd xy))
                batches).
Proof.
  unfold position_grads, X, Y. simpl. rewrite !map_map.
  rewrite zip_with_concat_map.
  - now rewrite <- concat_map_concat, map_map.
  - intros xy Hxy.
    destruct (valid_batch_in xy Hxy) as (_ & Sx & _ & _ & _ & Sy & _).
    unfold size0 in *. now rewrite Sx, Sy.
Qed.

(** The gradient of the concatenated batch's loss is the sum of the
    micro-batches' position gradients over the number of positions. *)
Lemma loss_grad_cat :
  (0 < B * T)%nat ->
  loss_grad token_grad m X Y
  = vscale (1 / INR (length batches * (B * T)))
           (vsum (map (fun xy => vsum (position_grads token_grad m
                                                      (fst xy) (snd xy)))
                      batches)).
Proof.
  intros HN. unfold loss_grad. rewrite position_grads_cat.
  rewrite (length_concat_map (B * T)) by (intros; now apply length_position_grads).
  f_equal. rewrite vsum_concat, map_map; [reflexivity |].
  apply Forall_forall. intros l Hl. apply in_map_iff in Hl.
  destruct Hl as (xy & <- & Hxy). intros E.
  pose proof (length_position_grads xy Hxy) as L. rewrite E in L.
  simpl in L. lia.
Qed.

Lemma loss_grad_one (xy : LongTensor * LongTensor) :
  In xy batches ->
  loss_grad token_grad m (fst xy) (snd xy)
  = vscale (1 / INR (B * T))
           (vsum (position_grads token_grad m (fst xy) (snd xy))).
Proof.
  intros Hxy. unfold loss_grad. now rewrite length_position_grads.
Qed.
End BigBatch.

(** ** Accumulated micro-batches against the concatenated batch *)

Lemma vscale_one (v : list R) : vscale (1 / 1) v = v.
Proof.
  unfold vscale. rewrite <- (map_id v) at 2. apply map_ext. intros x. field.
Qed.

Lemma vsum_map_vscale {A : Type} (c : R) (f : A -> list R) (l : list A) :
  vsum (map (fun a => vscale c (f a)) l) = vscale c (vsum (map f l)).
Proof. now rewrite vscale_vsum, map_map. Qed.

Section Equivalence.
Variable token_grad : GPT.t -> list Z -> nat -> Z -> list R.
Variable m : GPT.t.
Variable loader : nat -> nat -> LongTensor * LongTensor.
Variables W K B T : nat.
Hypothesis m_shaped : GPT.shaped m.
Hypothesis T_fits : (T <= GPTConfig.block_size (GPT.config m))%nat.
Hypothesis W_pos : (0 < W)%nat.
Hypothesis K_pos : (0 < K)%nat.
Hypothesis N_pos : (0 < B * T)%nat.
Hypothesis loader_valid :
  forall rank k, (rank < W)%nat -> (k < K)%nat -> valid_batch m B T (loader rank k).

Let batches := all_batches W K loader.
Let X : LongTensor := cat (map fst batches) T.
Let Y : LongTensor := cat (map snd batches) T.

Lemma all_batches_valid : Forall (valid_batch m B T) batches.
Proof.
  apply Forall_forall. intros xy H. unfold batches, all_batches in H.
  apply in_flat_map in H. destruct H as (rank & Hr & H).
  apply in_map_iff in H. destruct H as (k & <- & Hk).
  apply in_seq in Hr. apply in_seq in Hk. apply loader_valid; lia.
Qed.

Lemma in_all_batches (rank k : nat) :
  (rank < W)%nat -> (k < K)%nat -> In (loader rank k) batches.
Proof.
  intros Hr Hk. unfold batches, all_batches. apply in_flat_map.
  exists rank. split; [apply in_seq; lia |].
  apply in_map. apply in_seq. lia.
Qed.

Lemma length_all_batches : length batches = (W * K)%nat.
Proof.
  unfold batches, all_batches. rewrite flat_map_concat_map.
  rewrite (length_concat_map K), length_seq; [reflexivity |].
  intros rank _. now rewrite length_map, length_seq.
Qed.

Lemma INR_positions : INR (W * K * (B * T)) = INR W * (INR K * INR (B * T)).
Proof. rewrite !mult_INR. ring. Qed.

Lemma INR_nonzero : INR W <> 0 /\ INR K <> 0 /\ INR (B * T) <> 0.
Proof. repeat split; apply not_0_INR; lia. Qed.

(** Averaging over the processes the sums of the scaled micro-batch
    gradients gives the gradient of the concatenated batch's loss. *)
Lemma averaged_grads :
  vscale (1 / INR W)
         (vsum (map (fun rank =>
                       vsum (map (fun k =>
                                    vscale (1 / INR K)
                                           (loss_grad token_grad m
                                              (fst (loader rank k))
                                              (snd (loader rank k))))
                                 (seq 0 K)))
                    (seq 0 W)))
  = loss_grad token_grad m X Y.
Proof.
  destruct INR_nonzero as (NW & NK & NN).
  unfold X, Y.
  rewrite (loss_grad_cat token_grad m B T batches all_batches_valid N_pos).
  rewrite length_all_batches, INR_positions.
  unfold batches, all_batches.
  rewrite flat_map_concat_map, concat_map, map_map, vsum_concat.
  2:{ apply Forall_forall. intros l Hl. apply in_map_iff in Hl.
      destruct Hl as (rank & <- & _). rewrite !map_map. intros E.
      apply (f_equal (@length _)) in E. rewrite length_map, length_seq in E.
      simpl in E. lia. }
  rewrite map_map.
  assert (E : map (fun rank =>
                     vsum (map (fun k =>
                                  vscale (1 / INR K)
                                         (loss_grad token_grad m
                                            (fst (loader rank k))
                                            (snd (loader rank k))))
                               (seq 0 K)))
                  (seq 0 W)
              = map (fun rank =>
                       vscale (1 / INR K * (1 / INR (B * T)))
                              (vsum (map (fun xy =>
                                            vsum (position_grads token_grad m
                                                    (fst xy) (snd xy)))
                                         (map (loader rank) (seq 0 K)))))
                    (seq 0 W)).
  { apply map_ext_in. intros rank Hr. apply in_seq in Hr.
    rewrite map_map, <- vsum_map_vscale. f_equal.
    apply map_ext_in. intros k Hk. apply in_seq in Hk.
    rewrite (loss_grad_one token_grad m B T batches all_batches_valid)
      by (apply in_all_batches; lia).
    apply vscale_vscale. }
  rewrite E, vsum_map_vscale, vscale_vscale. f_equal. field. tauto.
Qed.

(** Averaging over the processes the sums of the scaled micro-batch losses
    gives the loss of the concatenated batch. *)
Lemma averaged_losses :
  Rsum (map (fun rank =>
               0.0 + Rsum (map (fun k => batch_loss m (loader rank k) / INR K)
                               (seq 0 K)))
            (seq 0 W))
  / INR W
  = batch_loss m (X, Y).
Proof.
  destruct INR_nonzero as (NW & NK & NN).
  unfold X, Y.
  rewrite (batch_loss_cat m B T batches all_batches_valid m_shaped).
  rewrite length_all_batches, INR_positions.
  unfold batches, all_batches.
  rewrite flat_map_concat_map, concat_map, map_map, Rsum_concat, map_map.
  assert (E : map (fun rank =>
                     0.0 + Rsum (map (fun k => batch_loss m (loader rank k) / INR K)
                                     (seq 0 K)))
                  (seq 0 W)
              = map (fun rank =>
                       Rsum (map (fun xy =>
                                    Rsum (zip_with token_ce
                                            (concat (logits_of m (fst xy)))
                                            (concat (rows (snd xy)))))
                                 (map (loader rank) (seq 0 K)))
                       * (/ INR (B * T) * / INR K))
                    (seq 0 W)).
  { apply map_ext_in. intros rank Hr. apply in_seq in Hr.
    rewrite map_map, <- Rsum_map_scale.
    assert (Z : 0.0 = 0) by lra. rewrite Z, Rplus_0_l. f_equal.
    apply map_ext_in. intros k Hk. apply in_seq in Hk.
    rewrite (batch_loss_one m B T batches all_batches_valid)
      by (try apply in_all_batches; auto; lia).
    unfold Rdiv. ring. }
  rewrite E, Rsum_map_scale. field. tauto.
Qed.
End Equivalence.

(** C2 (gradient accumulation equivalence, in exact arithmetic): take [W]
    processes ([W = 1] without DDP) that each run [K >= 1] micro-steps on
    valid micro-batches of one shape (B, T): forward pass, loss divided by
    [K], backward pass adding into the gradient accumulator, with DDP the
    gradients averaged across processes in the last micro-step only, and
    [loss_accum] averaged after the loop.  Every process ends with exactly
    the gradient and the loss that one forward and backward pass computes on
    the single batch made of all micro-batches concatenated. *)
Theorem gradient_accumulation_equivalence
        (token_grad : GPT.t -> list Z -> nat -> Z -> list R) (m : GPT.t)
        (ddp : bool) (W K B T : nat)
        (loader : nat -> nat -> LongTensor * LongTensor) :
  GPT.shaped m ->
  (T <= GPTConfig.block_size (GPT.config m))%nat ->
  (0 < W)%nat -> (ddp = false -> W = 1%nat) ->
  (0 < K)%nat -> (0 < B * T)%nat ->
  (forall rank k, (rank < W)%nat -> (k < K)%nat ->
                  valid_batch m B T (loader rank k)) ->
  let batches := all_batches W K loader in
  let X := cat (map fst batches) T in
  let Y := cat (map snd batches) T in
  exists logits loss ws,
    GPT.forward m X (Some Y) = Ok (logits, Some loss)
    /\ accumulate token_grad m ddp W K loader = Ok ws
    /\ length ws = W
    /\ Forall (fun wk => grad wk = Some (loss_grad token_grad m X Y)
                         /\ loss_accum wk = loss) ws.
Proof.
  intros Hs HT HW Hddp HK HN Hv batches X Y.
  pose proof (all_batches_valid m loader W K B T HT HW HK HN Hv) as Vall.
  fold batches in Vall.
  pose proof (cat_valid token_grad m B T batches Vall) as Vcat.
  fold X Y in Vcat.
  pose proof (averaged_grads token_grad m loader W K B T HT HW HK HN Hv) as G.
  pose proof (averaged_losses token_grad m loader W K B T Hs HT HW HK HN Hv)
    as L.
  fold batches in G, L. fold X Y in G, L.
  set (wk0 := {| grad := None; loss_accum := 0.0 |}).
  set (Ws := map (fun rank => local_run token_grad m K loader rank (seq 0 K) wk0)
                 (seq 0 W)).
  assert (HK' : seq 0 K <> []) by (destruct K; [lia | discriminate]).
  assert (Egrad : map (fun wk => match grad wk with
                                 | Some g => g
                                 | None => []
                                 end) Ws
                  = map (fun rank =>
                           vsum (map (fun k =>
                                        vscale (1 / INR K)
                                               (loss_grad token_grad m
                                                  (fst (loader rank k))
                                                  (snd (loader rank k))))
                                     (seq 0 K)))
                        (seq 0 W)).
  { unfold Ws. rewrite map_map. apply map_ext. intros rank.
    now rewrite (local_run_grad_none token_grad m K loader rank (seq 0 K) wk0
                   eq_refl HK'). }
  assert (Eloss : map loss_accum Ws
                  = map (fun rank =>
                           0.0 + Rsum (map (fun k => batch_loss m (loader rank k)
                                                     / INR K)
                                           (seq 0 K)))
                        (seq 0 W)).
  { unfold Ws. rewrite map_map. apply map_ext. intros rank.
    now rewrite local_run_loss. }
  assert (LWs : length Ws = W) by (unfold Ws; now rewrite length_map, length_seq).
  exists (logits_of m X), (batch_loss m (X, Y)).
  exists (if ddp then all_reduce_loss (all_reduce_grad Ws) else Ws).
  split; [| split; [| split]].
  - apply (forward_batch m (length batches * B) T (X, Y) Hs HT Vcat).
  - unfold accumulate. fold wk0.
    rewrite (micro_steps_all token_grad m K loader B T W Hs HT Hv ddp wk0 HK).
    cbn [bind]. now destruct ddp.
  - destruct ddp; [| exact LWs].
    unfold all_reduce_loss, all_reduce_grad. now rewrite !length_map.
  - destruct ddp.
    + unfold all_reduce_loss. apply Forall_forall. intros wk Hwk.
      apply in_map_iff in Hwk. destruct Hwk as (wk1 & <- & Hwk1). simpl.
      unfold all_reduce_grad in *. rewrite !length_map, map_map. simpl.
      apply in_map_iff in Hwk1. destruct Hwk1 as (wk2 & <- & _). simpl.
      rewrite Egrad, LWs, G. split; [reflexivity |].
      change (map (fun x : worker => loss_accum x) Ws) with (map loss_accum Ws).
      now rewrite Eloss, L.
    + assert (Eseq : seq 0 W = [0%nat]) by (now rewrite (Hddp eq_refl)).
      assert (EI : INR W = 1) by (now rewrite (Hddp eq_refl)).
      rewrite Eseq, EI in G, L. simpl in G, L.
      rewrite vscale_one in G. unfold Rsum at 1 in L. simpl in L.
      unfold Ws. rewrite Eseq. simpl. constructor; [| constructor].
      rewrite (local_run_grad_none token_grad m K loader 0 (seq 0 K) wk0
                 eq_refl HK'), local_run_loss.
      split; [now rewrite G |]. rewrite <- L. unfold Rsum. simpl. lra.
Qed.

Lemma gradient_accumulation_equivalence_witness :
  let batches := all_batches 2 2 Fixture.constant_loader in
  let X := cat (map fst batches) 2 in
  let Y := cat (map snd batches) 2 in
  GPT.shaped Fixture.tiny
  /\ (forall rank k, (rank < 2)%nat -> (k < 2)%nat ->
                     valid_batch Fixture.tiny 1 2 (Fixture.constant_loader rank k))
  /\ exists logits loss ws,
      GPT.forward Fixture.tiny X (Some Y) = Ok (logits, Some loss)
      /\ accumulate Fixture.unit_token_grad Fixture.tiny true 2 2
                    Fixture.constant_loader = Ok ws
      /\ length ws = 2%nat
      /\ Forall (fun wk =>
                   grad wk = Some (loss_grad Fixture.unit_token_grad
                                             Fixture.tiny X Y)
                   /\ loss_accum wk = loss) ws.
Proof.
  intros batches X Y.
  assert (V : forall rank k, (rank < 2)%nat -> (k < 2)%nat ->
                valid_batch Fixture.tiny 1 2 (Fixture.constant_loader rank k)).
  { intros rank k _ _. unfold valid_batch, Fixture.constant_loader. simpl.
    repeat split; repeat constructor; simpl; lia. }
  split; [apply fixture_shaped | split; [exact V |]].
  apply (gradient_accumulation_equivalence
           Fixture.unit_token_grad Fixture.tiny true 2 2 1 2
           Fixture.constant_loader (fixture_shaped _ _)).
  - simpl. lia.
  - lia.
  - discriminate.
  - lia.
  - simpl. lia.
  - exact V.
Defined.

(** * Further properties of the script *)

(** ** Construction *)

Section ConstructionOutcome.
Variable generator : Type.
Variable normal_sample : generator -> nat -> R -> R -> list R * generator.
Variable uniform_sample : generator -> nat -> R -> R -> list R * generator.

Lemma Blocks_new_raises (config : GPTConfig.t) (n layer : nat)
      (w : world generator) :
  (0 < n)%nat ->
  (GPTConfig.n_head config = 0%nat ->
   Blocks_new generator uniform_sample config layer n w
   = Raise ZeroDivisionError)
  /\ (GPTConfig.n_head config <> 0%nat ->
      (GPTConfig.n_embed config mod GPTConfig.n_head config <> 0)%nat ->
      Blocks_new generator uniform_sample config layer n w
      = Raise AssertionError).
Proof.
  intros Hn. destruct n as [| n]; [lia |]. simpl.
  unfold Block_new, CausalSelfAttention_new, py_divides, LayerNorm_new.
  split.
  - intros H0. rewrite H0. reflexivity.
  - intros H0 Hd.
    destruct (Nat.eqb_spec (GPTConfig.n_head config) 0); [contradiction |].
    cbn [bind].
    destruct (Nat.eqb_spec (GPTConfig.n_embed config mod GPTConfig.n_head config) 0);
      [contradiction |].
    reflexivity.
Qed.

(** X1: [GPT(config)] constructs a model exactly when there is no layer
    to build or [n_head] is not zero and divides [n_embed]; with at least
    one layer, [n_head = 0] raises [ZeroDivisionError] and an [n_head] that
    does not divide [n_embed] raises [AssertionError]; a model that is
    constructed has [n_layer] blocks. *)
Theorem GPT_new_outcome (config : GPTConfig.t) (w : world generator) :
  let new := GPT_new generator normal_sample uniform_sample config w in
  let H := GPTConfig.n_head config in
  let C := GPTConfig.n_embed config in
  ((GPTConfig.n_layer config = 0%nat \/ (H <> 0%nat /\ (C mod H = 0)%nat)) ->
   exists g w', new = Ok (g, w')
                /\ length (Obj.GPT.h g) = GPTConfig.n_layer config)
  /\ ((0 < GPTConfig.n_layer config)%nat -> H = 0%nat ->
      new = Raise ZeroDivisionError)
  /\ ((0 < GPTConfig.n_layer config)%nat -> H <> 0%nat -> (C mod H <> 0)%nat ->
      new = Raise AssertionError).
Proof.
  intros new H C. split; [| split].
  - intros Hok.
    destruct (GPT_new_ok generator normal_sample uniform_sample config w Hok)
      as (g & w' & E).
    exists g, w'. split; [exact E |].
    apply GPT_new_obj in E. destruct E as [-> _]. simpl.
    now rewrite length_map, length_seq.
  - intros Hn H0. unfold new, GPT_new, Embedding_new.
    destruct (Blocks_new_raises config (GPTConfig.n_layer config) 0
                (normal_ generator normal_sample
                   (Param.new wpe_weight
                      [GPTConfig.block_size config; GPTConfig.n_embed config]) 0 1
                   (normal_ generator normal_sample
                      (Param.new wte_weight
                         [GPTConfig.vocab_size config; GPTConfig.n_embed config])
                      0 1 w)) Hn) as [E _].
    now rewrite (E H0).
  - intros Hn H0 Hd. unfold new, GPT_new, Embedding_new.
    destruct (Blocks_new_raises config (GPTConfig.n_layer config) 0
                (normal_ generator normal_sample
                   (Param.new wpe_weight
                      [GPTConfig.block_size config; GPTConfig.n_embed config]) 0 1
                   (normal_ generator normal_sample
                      (Param.new wte_weight
                         [GPTConfig.vocab_size config; GPTConfig.n_embed config])
                      0 1 w)) Hn) as [_ E].
    now rewrite (E H0 Hd).
Qed.
End ConstructionOutcome.

(** ** Shapes and slices of the forward pass *)

Lemma linear_forward_width (i o : nat) (b : bool) (l : Linear.t) (x : list R) :
  Linear.shaped i o b l -> length (Linear.forward l x) = o.
Proof.
  intros (Lw & _ & Lb). unfold Linear.forward.
  destruct (Linear.bias l) as [bias |].
  - destruct Lb as [_ Lb]. unfold vadd.
    rewrite length_zip_with, length_map, Lw, Lb. apply Nat.min_id.
  - now rewrite length_map.
Qed.

Lemma madd_width (C : nat) (x y : list (list R)) :
  Forall (fun v => length v = C) x -> Forall (fun v => length v = C) y ->
  Forall (fun v => length v = C) (madd x y).
Proof.
  intros Hx. revert y. induction Hx as [| a x Ha _ IH]; intros y Hy; simpl.
  - constructor.
  - destruct Hy as [| b y Hb Hy]; constructor.
    + unfold vadd. rewrite length_zip_with, Ha, Hb. apply Nat.min_id.
    + now apply IH.
Qed.

(** X2: a transformer block with the constructor's shapes maps an
    activation of shape (T, n_embed) to an activation of the same shape. *)
Theorem block_forward_shape (config : GPTConfig.t) (b : Block.t)
        (x : list (list R)) :
  Block.shaped config b ->
  Forall (fun v => length v = GPTConfig.n_embed config) x ->
  length (Block.forward b x) = length x
  /\ Forall (fun v => length v = GPTConfig.n_embed config) (Block.forward b x).
Proof.
  intros (_ & (_ & Hproj & _) & _ & (_ & Hmlp)) Hx.
  split; [apply length_block_forward |].
  unfold Block.forward.
  apply madd_width; [apply madd_width; [exact Hx |] |].
  - unfold CausalSelfAttention.forward. apply Forall_forall. intros v Hv.
    apply in_map_iff in Hv. destruct Hv as (y & <- & _).
    eapply linear_forward_width; eauto.
  - apply Forall_forall. intros v Hv.
    apply in_map_iff in Hv. destruct Hv as (y & <- & _).
    unfold MLP.forward. eapply linear_forward_width; eauto.
Qed.

Lemma block_forward_shape_witness :
  Block.shaped Fixture.tiny_config (Fixture.block Fixture.tiny_config 0.02)
  /\ Forall (fun v => length v = 2%nat) [[1; 2]; [3; 4]; [5; 6]]
  /\ length (Block.forward (Fixture.block Fixture.tiny_config 0.02)
                           [[1; 2]; [3; 4]; [5; 6]]) = 3%nat.
Proof.
  assert (S : Block.shaped Fixture.tiny_config
                           (Fixture.block Fixture.tiny_config 0.02)).
  { destruct (fixture_shaped Fixture.tiny_config 0.02) as (_ & _ & _ & F & _).
    simpl in F. now inversion F. }
  assert (X : Forall (fun v => length v = 2%nat) [[1; 2]; [3; 4]; [5; 6]])
    by (repeat constructor).
  split; [exact S | split; [exact X |]].
  apply (block_forward_shape Fixture.tiny_config _ _ S X).
Defined.

Lemma mapM_app {A B : Type} (f : A -> result B) (l1 l2 : list A)
      (y1 y2 : list B) :
  mapM f l1 = Ok y1 -> mapM f l2 = Ok y2 -> mapM f (l1 ++ l2) = Ok (y1 ++ y2).
Proof.
  revert y1. induction l1 as [| a l1 IH]; intros y1 H1 H2; simpl in *.
  - inversion H1. exact H2.
  - destruct (f a) as [b |]; [| discriminate]. simpl in *.
    destruct (mapM f l1) as [bs |]; [| discriminate]. simpl in *.
    inversion H1; subst. now rewrite (IH bs eq_refl H2).
Qed.

Lemma mapM_firstn_ok {A B : Type} (f : A -> result B) (n : nat) (l : list A)
      (y : list B) :
  mapM f l = Ok y -> mapM f (firstn n l) = Ok (firstn n y).
Proof.
  revert l y. induction n as [| n IH]; intros l y H; [reflexivity |].
  destruct l as [| a l]; simpl in *.
  - now inversion H.
  - destruct (f a) as [b |]; [| discriminate]. simpl in *.
    destruct (mapM f l) as [bs |] eqn:M; [| discriminate]. simpl in *.
    inversion H; subst. now rewrite (IH l bs M).
Qed.

Lemma mapM_map {A B C : Type} (f : B -> result C) (g : A -> B) (l : list A) :
  mapM f (map g l) = mapM (fun a => f (g a)) l.
Proof.
  induction l as [| a l IH]; simpl; [reflexivity | now rewrite IH].
Qed.

Lemma mapM_ok_ext {A B : Type} (f : A -> result B) (g : B -> B) (h : A -> A)
      (l : list A) (y : list B) :
  (forall a b, f a = Ok b -> f (h a) = Ok (g b)) ->
  mapM f l = Ok y -> mapM f (map h l) = Ok (map g y).
Proof.
  intros H. revert y. induction l as [| a l IH]; intros y M; simpl in *.
  - now inversion M.
  - destruct (f a) as [b |] eqn:Fa; [| discriminate]. simpl in *.
    destruct (mapM f l) as [bs |]; [| discriminate]. simpl in *.
    inversion M; subst. rewrite (H a b Fa). simpl.
    now rewrite (IH bs eq_refl).
Qed.

Lemma forward_ok (m : GPT.t) (idx : LongTensor) (pos_emb : list (list R))
      (tok_emb : list (list (list R))) :
  (size1 idx <= GPTConfig.block_size (GPT.config m))%nat ->
  Embedding.forward (GPT.wpe m) (map Z.of_nat (seq 0 (size1 idx))) = Ok pos_emb ->
  mapM (Embedding.forward (GPT.wte m)) (rows idx) = Ok tok_emb ->
  GPT.forward m idx None
  = Ok (map (fun te => decode m (madd te pos_emb)) tok_emb, None).
Proof.
  intros HT Hp Ht. unfold GPT.forward.
  destruct (Nat.leb_spec (size1 idx) (GPTConfig.block_size (GPT.config m)));
    [| lia].
  simpl. rewrite Hp. simpl. rewrite Ht. simpl.
  now rewrite forward_logits_shape.
Qed.

(** X3: running the model on the first [n] columns of a batch returns the
    first [n] positions of the logits of the whole batch: later tokens are
    not needed to compute earlier logits. *)
Theorem forward_first_columns (m : GPT.t) (idx : LongTensor) (n : nat)
        (logits : list (list (list R))) :
  GPT.forward m idx None = Ok (logits, None) ->
  GPT.forward m (first_columns n idx) None = Ok (map (firstn n) logits, None).
Proof.
  intros F. apply forward_inv in F.
  destruct F as (HT & pos & tok & Hpos & Htok & -> & _).
  rewrite (forward_ok m (first_columns n idx) (firstn n pos)
             (map (firstn n) tok)).
  - rewrite !map_map. do 2 f_equal. apply map_ext. intros te.
    rewrite decode_prefix. unfold madd. now rewrite firstn_zip_with.
  - simpl. lia.
  - simpl. rewrite <- firstn_seq, <- firstn_map.
    now apply mapM_firstn_ok.
  - simpl. apply mapM_ok_ext; [| exact Htok].
    intros row te H. now apply mapM_firstn_ok.
Qed.

Lemma forward_first_columns_witness :
  exists logits,
    GPT.forward Fixture.tiny Fixture.batch_01 None = Ok (logits, None)
    /\ GPT.forward Fixture.tiny (first_columns 1 Fixture.batch_01) None
       = Ok (map (firstn 1) logits, None).
Proof.
  assert (F : GPT.forward Fixture.tiny Fixture.batch_01 None
              = Ok (logits_of Fixture.tiny Fixture.batch_01, None)).
  { apply forward_no_targets; [apply fixture_shaped | | simpl; lia].
    repeat constructor; simpl; lia. }
  exists (logits_of Fixture.tiny Fixture.batch_01).
  split; [exact F |].
  apply (forward_first_columns Fixture.tiny Fixture.batch_01 1 _ F).
Defined.

(** X4: the rows of a batch do not interact: the logits of two batches of
    the same width stacked into one batch are the logits of the first
    followed by the logits of the second. *)
Theorem forward_cat (m : GPT.t) (x y : LongTensor)
        (lx ly : list (list (list R))) :
  size1 x = size1 y ->
  GPT.forward m x None = Ok (lx, None) ->
  GPT.forward m y None = Ok (ly, None) ->
  GPT.forward m (cat [x; y] (size1 x)) None = Ok (lx ++ ly, None).
Proof.
  intros S Fx Fy. apply forward_inv in Fx. apply forward_inv in Fy.
  destruct Fx as (HT & pos & tokx & Hpos & Htx & -> & _).
  destruct Fy as (_ & pos' & toky & Hpos' & Hty & -> & _).
  rewrite <- S, Hpos in Hpos'. inversion Hpos'; subst pos'.
  rewrite (forward_ok m (cat [x; y] (size1 x)) pos (tokx ++ toky)).
  - now rewrite map_app.
  - exact HT.
  - exact Hpos.
  - simpl. rewrite app_nil_r. now apply mapM_app.
Qed.

Lemma forward_cat_witness :
  exists lx ly,
    GPT.forward Fixture.tiny Fixture.batch_01 None = Ok (lx, None)
    /\ GPT.forward Fixture.tiny Fixture.batch_12 None = Ok (ly, None)
    /\ GPT.forward Fixture.tiny
         (cat [Fixture.batch_01; Fixture.batch_12] 2) None
       = Ok (lx ++ ly, None).
Proof.
  assert (F1 : GPT.forward Fixture.tiny Fixture.batch_01 None
               = Ok (logits_of Fixture.tiny Fixture.batch_01, None)).
  { apply forward_no_targets; [apply fixture_shaped | | simpl; lia].
    repeat constructor; simpl; lia. }
  assert (F2 : GPT.forward Fixture.tiny Fixture.batch_12 None
               = Ok (logits_of Fixture.tiny Fixture.batch_12, None)).
  { apply forward_no_targets; [apply fixture_shaped | | simpl; lia].
    repeat constructor; simpl; lia. }
  exists (logits_of Fixture.tiny Fixture.batch_01),
         (logits_of Fixture.tiny Fixture.batch_12).
  split; [exact F1 | split; [exact F2 |]].
  apply (forward_cat Fixture.tiny Fixture.batch_01 Fixture.batch_12 _ _
           eq_refl F1 F2).
Defined.

(** ** Errors and bounds of the forward pass *)

Lemma mapM_raise {A B : Type} (f : A -> result B) (E : exn) (l : list A) :
  (forall a e, In a l -> f a = Raise e -> e = E) ->
  Exists (fun a => exists e, f a = Raise e) l ->
  mapM f l = Raise E.
Proof.
  intros Only Ex. induction l as [| a l IH]; [inversion Ex |]. simpl.
  destruct (f a) as [b |] eqn:Fa.
  - simpl. rewrite IH; [reflexivity | |].
    + intros a' e Ha'. apply Only. now right.
    + inversion Ex as [? ? (e & He) | ? ? Ht]; subst; [congruence | exact Ht].
  - simpl. f_equal. apply (Only a e); [now left | exact Fa].
Qed.

Lemma lookup_raises (e : Embedding.t) (id : Z) (x : exn) :
  Embedding.lookup e id = Raise x -> x = IndexError.
Proof.
  unfold Embedding.lookup. destruct (_ && _)%bool; [discriminate |].
  intros H. now inversion H.
Qed.

Lemma lookup_out_of_range (e : Embedding.t) (id : Z) :
  ~ (0 <= id < Z.of_nat (length (Embedding.weight e)))%Z ->
  Embedding.lookup e id = Raise IndexError.
Proof.
  intros Hout. unfold Embedding.lookup.
  destruct (Z.leb_spec 0 id), (Z.ltb_spec id (Z.of_nat (length (Embedding.weight e))));
    simpl; try reflexivity. lia.
Qed.

Lemma mapM_only_raises {A B : Type} (f : A -> result B) (E : exn)
      (l : list A) (x : exn) :
  (forall a e, f a = Raise e -> e = E) -> mapM f l = Raise x -> x = E.
Proof.
  intros Only. induction l as [| a l IH]; simpl; [discriminate |].
  destruct (f a) as [b |] eqn:Fa; simpl.
  - destruct (mapM f l) as [bs |]; simpl; [discriminate |].
    intros H. inversion H; subst. now apply IH.
  - intros H. inversion H; subst. now apply (Only a).
Qed.

(** X5: on a model with the constructor's shapes, a batch within the
    length limit that holds an integer outside [0, vocab_size) anywhere is
    rejected with [IndexError], with or without targets. *)
Theorem forward_rejects_invalid_ids (m : GPT.t) (idx : LongTensor)
        (targets : option LongTensor) :
  GPT.shaped m ->
  (size1 idx <= GPTConfig.block_size (GPT.config m))%nat ->
  Exists (Exists (fun id =>
                    ~ (0 <= id < Z.of_nat (GPTConfig.vocab_size (GPT.config m)))%Z))
         (rows idx) ->
  GPT.forward m idx targets = Raise IndexError.
Proof.
  intros ((Lwte & _) & (Lwpe & _) & _) HT Bad. unfold GPT.forward.
  destruct (Nat.leb_spec (size1 idx) (GPTConfig.block_size (GPT.config m)))
    as [Hle | Hgt]; [| lia].
  simpl. rewrite embedding_forward_in_range.
  2:{ apply Forall_forall. intros z Hz. apply in_map_iff in Hz.
      destruct Hz as (p & <- & Hp). apply in_seq in Hp. lia. }
  simpl.
  rewrite (mapM_raise (Embedding.forward (GPT.wte m)) IndexError).
  - reflexivity.
  - intros row e _ Hr. unfold Embedding.forward in Hr.
    apply (mapM_only_raises _ _ _ _ (lookup_raises (GPT.wte m)) Hr).
  - eapply Exists_impl; [| exact Bad]. intros row Hrow.
    exists IndexError. unfold Embedding.forward.
    apply mapM_raise.
    + intros id e _. apply lookup_raises.
    + eapply Exists_impl; [| exact Hrow]. intros id Hid.
      exists IndexError. apply lookup_out_of_range. now rewrite Lwte.
Qed.

Lemma forward_rejects_invalid_ids_witness :
  GPT.forward Fixture.tiny Fixture.batch_bad (Some Fixture.batch_bad)
  = Raise IndexError.
Proof.
  apply (forward_rejects_invalid_ids Fixture.tiny Fixture.batch_bad).
  - apply fixture_shaped.
  - simpl. lia.
  - repeat constructor. simpl. lia.
Defined.

Lemma Rsum_exp_pos_bound (row : list R) (i : nat) :
  (i < length row)%nat -> exp (nth i row 0) <= Rsum (map exp row).
Proof.
  assert (P : forall l, 0 <= Rsum (map exp l)).
  { induction l as [| a l IH]; unfold Rsum in *; simpl; [lra |].
    pose proof (exp_pos a). lra. }
  revert i. induction row as [| a row IH]; intros i Hi; simpl in Hi; [lia |].
  destruct i as [| i]; unfold Rsum in *; simpl.
  - specialize (P row). unfold Rsum in P. lra.
  - specialize (IH i ltac:(lia)). pose proof (exp_pos a). lra.
Qed.

Lemma nll_row_nonneg (row : list R) (target : Z) (v : R) :
  nll_row row target = Ok (Some v) -> 0 <= v.
Proof.
  unfold nll_row. destruct (Z.eqb_spec target ignore_index); [discriminate |].
  destruct (Z.leb_spec 0 target), (Z.ltb_spec target (Z.of_nat (length row)));
    simpl; try discriminate.
  intros Hv. inversion Hv; subst. clear Hv.
  assert (Hi : (Z.to_nat target < length row)%nat) by lia.
  pose proof (Rsum_exp_pos_bound row (Z.to_nat target) Hi) as B.
  pose proof (exp_pos (nth (Z.to_nat target) row 0)) as P.
  assert (L : ln (exp (nth (Z.to_nat target) row 0)) <= ln (Rsum (map exp row))).
  { destruct B as [B | B]; [left; apply ln_increasing; assumption |].
    rewrite B. lra. }
  rewrite ln_exp in L. lra.
Qed.

(** A target that is not [ignore_index] leaves a loss in the reduction. *)
Lemma cross_entropy_keeps (input : list (list R)) (target : list Z)
      (losses : list (option R)) :
  length input = length target ->
  mapM (fun rt => nll_row (fst rt) (snd rt)) (combine input target) = Ok losses ->
  Exists (fun t => t <> ignore_index) target ->
  (0 < length (keep_some losses))%nat.
Proof.
  revert target losses.
  induction input as [| row input IH]; intros [| t target] losses L M E;
    simpl in L; try discriminate L.
  - inversion E.
  - simpl in M.
    destruct (nll_row row t) as [o |] eqn:N; [| discriminate M]. simpl in M.
    destruct (mapM _ (combine input target)) as [ls |] eqn:M';
      [| discriminate M].
    simpl in M. injection M as <-.
    inversion E as [? ? Ht | ? ? Ht]; subst.
    + unfold nll_row in N.
      destruct (Z.eqb_spec t ignore_index) as [Ei | _]; [contradiction |].
      destruct (_ && _)%bool; [| discriminate N].
      injection N as <-. simpl. lia.
    + assert (P : (0 < length (keep_some ls))%nat)
        by (apply (IH target); [lia | exact M' | exact Ht]).
      destruct o; simpl; lia.
Qed.

Lemma cross_entropy_nonneg (input : list (list R)) (target : list Z) (l : R) :
  Exists (fun t => t <> ignore_index) target ->
  cross_entropy input target = Ok l -> 0 <= l.
Proof.
  intros Kept.
  unfold cross_entropy.
  destruct (Nat.eqb_spec (length input) (length target)) as [L |];
    [| discriminate].
  destruct (mapM _ _) as [losses |] eqn:M; [| discriminate]. simpl.
  intros H. inversion H; subst. clear H.
  assert (F : Forall (fun o => forall v, o = Some v -> 0 <= v) losses).
  { apply Forall_forall. intros o Ho v ->.
    destruct (In_nth_error _ _ Ho) as [i Hi].
    assert (Hc : exists rt, nth_error (combine input target) i = Some rt).
    { destruct (nth_error (combine input target) i) eqn:E; [eauto |].
      apply nth_error_None in E. apply mapM_length in M.
      assert (i < length losses)%nat by (apply nth_error_Some; congruence).
      lia. }
    destruct Hc as (rt & Hrt).
    destruct (mapM_ok_map _ _ _ None M) as [_ Hall].
    specialize (Hall i rt Hrt). rewrite (nth_error_nth _ _ None Hi) in Hall.
    now apply nll_row_nonneg in Hall. }
  assert (S : 0 <= Rsum (keep_some losses)).
  { clear M. induction F as [| o losses Ho _ IH]; simpl; [unfold Rsum; simpl; lra |].
    destruct o as [v |]; [| exact IH].
    simpl. unfold Rsum in *. simpl. specialize (Ho v eq_refl). lra. }
  pose proof (cross_entropy_keeps input target losses L M Kept) as K.
  unfold Rdiv. apply Rmult_le_pos; [exact S |].
  left. apply Rinv_0_lt_compat. now apply lt_0_INR.
Qed.

(** X6: whenever the forward pass is given targets of which at least one is
    not [ignore_index] (so that the mean has a term) and returns, the loss
    it returns is not negative. *)
Theorem forward_loss_nonneg (m : GPT.t) (idx targets : LongTensor)
        (logits : list (list (list R))) (loss : R) :
  Exists (fun t => t <> ignore_index) (concat (rows targets)) ->
  GPT.forward m idx (Some targets) = Ok (logits, Some loss) -> 0 <= loss.
Proof.
  intros Kept F. apply forward_inv in F.
  destruct F as (_ & pos & tok & _ & _ & _ & Hloss).
  destruct Hloss as (l & CE & E). inversion E; subst.
  now apply (cross_entropy_nonneg _ _ _ Kept) in CE.
Qed.

Lemma forward_loss_nonneg_witness :
  Exists (fun t => t <> ignore_index) (concat (rows Fixture.batch_12))
  /\ exists logits loss,
      GPT.forward Fixture.tiny Fixture.batch_01 (Some Fixture.batch_12)
      = Ok (logits, Some loss)
      /\ 0 <= loss.
Proof.
  assert (K : Exists (fun t => t <> ignore_index)
                     (concat (rows Fixture.batch_12)))
    by (apply Exists_cons_hd; discriminate).
  assert (F : GPT.forward Fixture.tiny Fixture.batch_01 (Some Fixture.batch_12)
              = Ok (logits_of Fixture.tiny Fixture.batch_01,
                    Some (batch_loss Fixture.tiny
                                     (Fixture.batch_01, Fixture.batch_12)))).
  { apply (forward_batch Fixture.tiny 1 2 (Fixture.batch_01, Fixture.batch_12)).
    - apply fixture_shaped.
    - simpl. lia.
    - unfold valid_batch. simpl. repeat split; repeat constructor; simpl; lia. }
  split; [exact K |].
  eexists. eexists. split; [exact F |].
  apply (forward_loss_nonneg Fixture.tiny Fixture.batch_01
           Fixture.batch_12 _ _ K F).
Defined.

(** ** Bounds of the schedule *)

(** X7: with a positive warmup length below [max_steps] and a positive
    [max_lr], the learning rate of every step from 0 on is positive and at
    most [max_lr], and from [warmup_steps] on it is at least [min_lr]. *)
Theorem get_lr_bounds (max_lr : R) (warmup_steps max_steps it : Z) :
  (0 < warmup_steps)%Z -> (warmup_steps < max_steps)%Z -> 0 < max_lr ->
  (0 <= it)%Z ->
  exists r,
    Schedule.get_lr max_lr warmup_steps max_steps it = Ok r
    /\ 0 < r <= max_lr
    /\ ((warmup_steps <= it)%Z -> Schedule.min_lr max_lr <= r).
Proof.
  intros Hw Hm Hlr Hit.
  assert (W : 0 < IZR warmup_steps) by (apply IZR_lt; lia).
  destruct (Z.lt_ge_cases it warmup_steps) as [Hwarm | Hge].
  - eexists. split; [apply get_lr_warmup; assumption |].
    assert (N : 0 < IZR (it + 1) <= IZR warmup_steps)
      by (split; [apply IZR_lt | apply IZR_le]; lia).
    split; [split | intros; lia].
    + unfold Rdiv. apply Rmult_lt_0_compat; [nra |].
      now apply Rinv_0_lt_compat.
    + apply (Rmult_le_reg_r (IZR warmup_steps)); [exact W |].
      unfold Rdiv. rewrite Rmult_assoc, Rinv_l by lra. nra.
  - destruct (Z.lt_ge_cases max_steps it) as [Hafter | Hle].
    + eexists. split; [apply get_lr_after; assumption |].
      unfold Schedule.min_lr. split; [lra | intros; lra].
    + eexists. split; [apply get_lr_decay; [assumption | lia] |].
      pose proof (COS_bound (PI * (IZR (it - warmup_steps)
                                   / IZR (max_steps - warmup_steps)))) as [C1 C2].
      unfold Schedule.min_lr. split; [split | intros _]; nra.
Qed.

Lemma get_lr_bounds_witness :
  exists r, Script.get_lr 0 = Ok r /\ 0 < r <= Script.max_lr.
Proof.
  destruct (get_lr_bounds Script.max_lr Script.warmup_steps Script.max_steps 0)
    as (r & E & B & _).
  - reflexivity.
  - reflexivity.
  - unfold Script.max_lr. lra.
  - lia.
  - exists r. split; [exact E | exact B].
Defined.

(** ** The residual stream and the first position *)

Lemma dot_zeros_r (y : list R) (n : nat) : dot y (repeat 0 n) = 0.
Proof.
  revert n. induction y as [| a y IH]; intros [| n]; simpl; try reflexivity.
  unfold dot in *. simpl. unfold Rsum in *. simpl. rewrite IH. lra.
Qed.

Lemma zero_linear_forward (i o : nat) (l : Linear.t) (y : list R) :
  Linear.weight l = repeat (repeat 0 i) o ->
  Linear.bias l = Some (repeat 0 o) ->
  Linear.forward l y = repeat 0 o.
Proof.
  intros Hw Hb. unfold Linear.forward. rewrite Hw, Hb.
  assert (E : map (fun w => dot y w) (repeat (repeat 0 i) o) = repeat 0 o).
  { clear. induction o as [| o IH]; simpl; [reflexivity |].
    now rewrite IH, dot_zeros_r. }
  rewrite E. unfold vadd. clear.
  induction o as [| o IH]; simpl; [reflexivity |]. rewrite IH. f_equal. lra.
Qed.

Lemma madd_zeros (C : nat) (x : list (list R)) {A : Type} (ys : list A) :
  Forall (fun v => length v = C) x -> length ys = length x ->
  madd x (map (fun _ => repeat 0 C) ys) = x.
Proof.
  intros Hx. unfold madd. revert ys.
  induction Hx as [| a x Ha _ IH]; intros ys L.
  - reflexivity.
  - destruct ys as [| y ys]; [discriminate |]. simpl. f_equal.
    + subst C. clear. unfold vadd.
      induction a as [| v a IH]; simpl; [reflexivity |].
      rewrite IH. f_equal. lra.
    + apply IH. simpl in L. lia.
Qed.

(** X8: a block whose two output projections (the [c_proj] of its
    attention and of its MLP) have zero weights and zero biases is the
    identity on activations of width [C]: each sub-block only adds its
    output to the residual stream. *)
Theorem block_identity_when_projections_zero (b : Block.t) (C i1 i2 : nat)
        (x : list (list R)) :
  Linear.weight (CausalSelfAttention.c_proj (Block.attn b))
  = repeat (repeat 0 i1) C ->
  Linear.bias (CausalSelfAttention.c_proj (Block.attn b)) = Some (repeat 0 C) ->
  Linear.weight (MLP.c_proj (Block.mlp b)) = repeat (repeat 0 i2) C ->
  Linear.bias (MLP.c_proj (Block.mlp b)) = Some (repeat 0 C) ->
  Forall (fun v => length v = C) x ->
  Block.forward b x = x.
Proof.
  intros Aw Ab Mw Mb Hx. unfold Block.forward.
  assert (E1 : CausalSelfAttention.forward (Block.attn b)
                 (map (LayerNorm.forward (Block.ln_1 b)) x)
               = map (fun _ => repeat 0 C)
                     (seq 0 (length (map (LayerNorm.forward (Block.ln_1 b)) x)))).
  { unfold CausalSelfAttention.forward, CausalSelfAttention.merge_heads.
    rewrite map_map. apply map_ext. intros t.
    now apply (zero_linear_forward i1). }
  rewrite E1, madd_zeros by (try assumption; now rewrite length_seq, length_map).
  assert (E2 : map (MLP.forward (Block.mlp b))
                   (map (LayerNorm.forward (Block.ln_2 b)) x)
               = map (fun _ => repeat 0 C) x).
  { rewrite map_map. apply map_ext. intros v. unfold MLP.forward.
    now apply (zero_linear_forward i2). }
  rewrite E2. now apply madd_zeros.
Qed.

Lemma block_identity_when_projections_zero_witness :
  Block.forward (Fixture.block Fixture.tiny_config 0) [[1; 2]; [3; 4]]
  = [[1; 2]; [3; 4]].
Proof.
  apply (block_identity_when_projections_zero
           (Fixture.block Fixture.tiny_config 0) 2 2 8);
    try reflexivity.
  repeat constructor.
Defined.

Lemma map_nth_seq {A : Type} (l : list A) (d : A) :
  map (fun c => nth c l d) (seq 0 (length l)) = l.
Proof.
  induction l as [| a l IH]; [reflexivity |].
  simpl. f_equal. rewrite <- seq_shift, map_map. exact IH.
Qed.

Lemma concat_pieces {A : Type} (n k : nat) (l : list A) :
  length l = (k * n)%nat ->
  concat (map (fun i => firstn n (skipn (i * n) l)) (seq 0 k)) = l.
Proof.
  revert l. induction k as [| k IH]; intros l L.
  - destruct l; [reflexivity | discriminate].
  - simpl seq. cbn [map concat]. rewrite <- seq_shift, map_map.
    simpl (0 * n)%nat. simpl (skipn 0 l).
    transitivity (firstn n l ++ skipn n l); [| apply firstn_skipn]. f_equal.
    transitivity (concat (map (fun i => firstn n (skipn (i * n) (skipn n l)))
                              (seq 0 k)));
      [| apply IH; rewrite length_skipn; lia].
    f_equal. apply map_ext. intros i.
    rewrite skipn_skipn. do 2 f_equal. lia.
Qed.

Lemma attention_row_first (hs : nat) (k0 v0 : list R) (k v : list (list R))
      (q0 : list R) :
  length v0 = hs ->
  attention_row hs (k0 :: k) (v0 :: v) 0 q0 = v0.
Proof.
  intros L.
  rewrite (attention_row_prefix hs (k0 :: k) (v0 :: v) 1 0 q0) by lia.
  simpl firstn. unfold attention_row, imap. simpl imap_from.
  unfold softmax. cbn [map score_exp score_add attn_bias Nat.leb].
  transitivity (map (fun c => nth c v0 0) (seq 0 hs));
    [| rewrite <- L; apply map_nth_seq].
  apply map_ext. intros c.
  pose proof (exp_pos (dot q0 k0 * (1 / sqrt (INR hs)) + 0)) as P.
  unfold column, dot, Rsum in *. simpl. field. lra.
Qed.

(** X9: the attention output at the first position does not depend on
    queries or keys: it is [c_proj] applied to that position's value
    vector, the third piece of its [c_attn] output, since under the causal
    mask the first position attends to itself alone. *)
Theorem attention_first_position (config : GPTConfig.t)
        (a : CausalSelfAttention.t) (x0 : list R) (rest : list (list R)) :
  CausalSelfAttention.shaped config a ->
  GPTConfig.n_head config <> 0%nat ->
  (GPTConfig.n_embed config mod GPTConfig.n_head config = 0)%nat ->
  nth 0 (CausalSelfAttention.forward a (x0 :: rest)) []
  = Linear.forward (CausalSelfAttention.c_proj a)
      (CausalSelfAttention.chunk (CausalSelfAttention.n_embed a) 2
         (Linear.forward (CausalSelfAttention.c_attn a) x0)).
Proof.
  intros (Hattn & _ & Hh & He) Hn Hdiv.
  unfold CausalSelfAttention.forward, CausalSelfAttention.merge_heads.
  simpl length. simpl seq. simpl map at 1. simpl nth. f_equal.
  rewrite map_map.
  set (C := CausalSelfAttention.n_embed a).
  set (nh := CausalSelfAttention.n_head a).
  set (V := CausalSelfAttention.chunk C 2
              (Linear.forward (CausalSelfAttention.c_attn a) x0)).
  assert (LV : length V = C).
  { unfold V, CausalSelfAttention.chunk.
    rewrite length_firstn, length_skipn.
    rewrite (linear_forward_width _ _ _ _ x0 Hattn). unfold C. rewrite He. lia. }
  assert (EC : C = (nh * (C / nh))%nat).
  { unfold C, nh. rewrite He, Hh.
    apply Nat.Div0.div_exact. exact Hdiv. }
  transitivity (concat (map (fun i => firstn (C / nh) (skipn (i * (C / nh)) V))
                            (seq 0 nh)));
    [| apply concat_pieces; rewrite LV; lia].
  f_equal. apply map_ext_in. intros h Hin. apply in_seq in Hin.
  unfold scaled_dot_product_attention, imap. cbn [imap_from nth].
  apply attention_row_first.
  unfold CausalSelfAttention.chunk.
  rewrite length_firstn, length_skipn, LV.
  assert ((h + 1) * (C / nh) <= nh * (C / nh))%nat by (apply Nat.mul_le_mono_r; lia).
  lia.
Qed.

Lemma attention_first_position_witness :
  nth 0 (CausalSelfAttention.forward
           (Block.attn (Fixture.block Fixture.tiny_config 0.02))
           [[1; 2]; [3; 4]]) []
  = Linear.forward
      (CausalSelfAttention.c_proj
         (Block.attn (Fixture.block Fixture.tiny_config 0.02)))
      (CausalSelfAttention.chunk 2 2
         (Linear.forward
            (CausalSelfAttention.c_attn
               (Block.attn (Fixture.block Fixture.tiny_config 0.02)))
            [1; 2])).
Proof.
  apply (attention_first_position Fixture.tiny_config
           (Block.attn (Fixture.block Fixture.tiny_config 0.02)) [1; 2] [[3; 4]]).
  - repeat split; repeat constructor.
  - simpl. discriminate.
  - reflexivity.
Defined.

(** ** The data loader *)

Lemma nth_map_seq {A : Type} (f : nat -> A) (n b : nat) (d : A) :
  (b < n)%nat -> nth b (map f (seq 0 n)) d = f b.
Proof.
  intros H. apply nth_map_in_range.
  rewrite (nth_error_nth' _ 0%nat) by (now rewrite length_seq).
  now rewrite seq_nth.
Qed.

Lemma length_slice {A : Type} (pos N : nat) (l : list A) :
  (pos + N <= length l)%nat -> length (slice pos (pos + N) l) = N.
Proof.
  intros H. unfold slice. rewrite length_firstn, length_skipn. lia.
Qed.

Lemma nth_slice {A : Type} (pos N i : nat) (l : list A) (d : A) :
  (i < N)%nat -> nth i (slice pos (pos + N) l) d = nth (pos + i) l d.
Proof.
  intros H. unfold slice.
  rewrite nth_firstn_lt by lia. apply nth_skipn.
Qed.

Lemma removelast_slice {A : Type} (pos N : nat) (l : list A) :
  (pos + N + 1 <= length l)%nat ->
  removelast (slice pos (pos + N + 1) l) = slice pos (pos + N) l.
Proof.
  intros H. unfold slice.
  replace (pos + N + 1 - pos)%nat with (S N) by lia.
  replace (pos + N - pos)%nat with N by lia.
  apply removelast_firstn. rewrite length_skipn. lia.
Qed.

Lemma tail_slice {A : Type} (pos N : nat) (l : list A) :
  skipn 1 (slice pos (pos + N + 1) l) = slice (pos + 1) (pos + 1 + N) l.
Proof.
  unfold slice. rewrite skipn_firstn_comm, skipn_skipn.
  f_equal; [lia | f_equal; lia].
Qed.

Lemma length_removelast {A : Type} (l : list A) :
  length (removelast l) = (length l - 1)%nat.
Proof.
  rewrite removelast_firstn_len, length_firstn. lia.
Qed.

Lemma view_done (B T : nat) (data : list Z) :
  length data = (B * T)%nat ->
  view B T data
  = Done {| size1 := T;
            rows := map (fun i => firstn T (skipn (i * T) data)) (seq 0 B) |}.
Proof. intros H. unfold view. now rewrite H, Nat.eqb_refl. Qed.

Lemma view_shape (B T : nat) (data : list Z) (x : LongTensor) :
  view B T data = Done x ->
  size1 x = T /\ size0 x = B /\ well_formed x.
Proof.
  unfold view. destruct (Nat.eqb_spec (length data) (B * T)) as [E | E];
    [| discriminate].
  intros H. inversion H. subst x. clear H. unfold size0, well_formed. simpl.
  split; [reflexivity | split].
  - now rewrite length_map, length_seq.
  - apply Forall_forall. intros r Hr. apply in_map_iff in Hr.
    destruct Hr as (i & <- & Hi). apply in_seq in Hi.
    rewrite length_firstn, length_skipn, E.
    assert (i * T + T <= B * T)%nat by nia. lia.
Qed.

Lemma token_at_view (B T : nat) (data : list Z) (x : LongTensor) (b t : nat) :
  view B T data = Done x -> (b < B)%nat -> (t < T)%nat ->
  token_at x b t = nth (b * T + t) data 0%Z.
Proof.
  unfold view. destruct (Nat.eqb_spec (length data) (B * T)) as [E | E];
    [| discriminate].
  intros H Hb Ht. inversion H. subst x. clear H. unfold token_at. simpl.
  rewrite nth_map_seq by assumption.
  rewrite nth_firstn_lt by assumption. apply nth_skipn.
Qed.

Section LoaderFacts.
Variable np_load : string -> list Z.

Lemma at_shard_done (B T rank np : nat) (shards : list string) (i : nat) :
  (i < length shards)%nat ->
  exists filename,
    nth_error shards i = Some filename
    /\ DataLoaderLite.at_shard np_load B T rank np shards i
       = Done {| DataLoaderLite.B := B; DataLoaderLite.T := T;
                 DataLoaderLite.process_rank := rank;
                 DataLoaderLite.num_processes := np;
                 DataLoaderLite.shards := shards;
                 DataLoaderLite.current_shard := i;
                 DataLoaderLite.tokens := load_tokens np_load filename;
                 DataLoaderLite.current_position := (B * T * rank)%nat |}.
Proof.
  intros H. unfold DataLoaderLite.at_shard.
  destruct (nth_error shards i) as [filename |] eqn:E.
  - exists filename. split; reflexivity.
  - apply nth_error_None in E. lia.
Qed.

Lemma advance_total (self : DataLoaderLite.t) :
  DataLoaderLite.shards self <> [] ->
  exists self',
    DataLoaderLite.advance np_load self = Done self'
    /\ DataLoaderLite.same_settings self self'.
Proof.
  intros Hs. unfold DataLoaderLite.advance.
  destruct (_ <? _)%nat.
  - destruct (length (DataLoaderLite.shards self)) as [| n] eqn:L.
    + destruct (DataLoaderLite.shards self); [congruence | discriminate].
    + rewrite <- L.
      destruct (at_shard_done (DataLoaderLite.B self) (DataLoaderLite.T self)
                  (DataLoaderLite.process_rank self)
                  (DataLoaderLite.num_processes self)
                  (DataLoaderLite.shards self)
                  ((DataLoaderLite.current_shard self + 1)
                   mod length (DataLoaderLite.shards self)))
        as (f & _ & E).
      { apply Nat.mod_upper_bound. lia. }
      rewrite E. eexists. split; [reflexivity |].
      repeat split.
  - eexists. split; [reflexivity |]. repeat split.
Qed.

Lemma next_batch_fits (self : DataLoaderLite.t) :
  DataLoaderLite.shards self <> [] ->
  (DataLoaderLite.current_position self
   + DataLoaderLite.B self * DataLoaderLite.T self + 1
   <= length (DataLoaderLite.tokens self))%nat ->
  exists x y self',
    DataLoaderLite.next_batch np_load self = Done (x, y, self')
    /\ view (DataLoaderLite.B self) (DataLoaderLite.T self)
            (slice (DataLoaderLite.current_position self)
                   (DataLoaderLite.current_position self
                    + DataLoaderLite.B self * DataLoaderLite.T self)
                   (DataLoaderLite.tokens self)) = Done x
    /\ view (DataLoaderLite.B self) (DataLoaderLite.T self)
            (slice (DataLoaderLite.current_position self + 1)
                   (DataLoaderLite.current_position self + 1
                    + DataLoaderLite.B self * DataLoaderLite.T self)
                   (DataLoaderLite.tokens self)) = Done y
    /\ DataLoaderLite.advance np_load self = Done self'.
Proof.
  intros Hs Hfit. unfold DataLoaderLite.next_batch.
  rewrite removelast_slice by assumption. rewrite tail_slice.
  rewrite !view_done by (apply length_slice; lia).
  destruct (advance_total self Hs) as (self' & E & _).
  cbn [attempt_bind]. rewrite E. cbn [attempt_bind].
  do 3 eexists. repeat split; reflexivity.
Qed.

Lemma next_batch_content (self : DataLoaderLite.t) :
  DataLoaderLite.shards self <> [] ->
  (DataLoaderLite.current_position self
   + DataLoaderLite.B self * DataLoaderLite.T self + 1
   <= length (DataLoaderLite.tokens self))%nat ->
  exists x y self',
    DataLoaderLite.next_batch np_load self = Done (x, y, self')
    /\ DataLoaderLite.advance np_load self = Done self'
    /\ batch_shape (DataLoaderLite.B self) (DataLoaderLite.T self) (x, y)
    /\ forall b t,
        (b < DataLoaderLite.B self)%nat -> (t < DataLoaderLite.T self)%nat ->
        token_at x b t
        = nth (DataLoaderLite.current_position self
               + b * DataLoaderLite.T self + t)
              (DataLoaderLite.tokens self) 0%Z
        /\ token_at y b t
           = nth (DataLoaderLite.current_position self
                  + b * DataLoaderLite.T self + t + 1)
                 (DataLoaderLite.tokens self) 0%Z.
Proof.
  intros Hs Hfit.
  destruct (next_batch_fits self Hs Hfit) as (x & y & self' & E & Vx & Vy & A).
  exists x, y, self'. split; [exact E |]. split; [exact A |]. split.
  - split; [exact (view_shape _ _ _ _ Vx) | exact (view_shape _ _ _ _ Vy)].
  - intros b t Hb Ht.
    assert (b * DataLoaderLite.T self + t
            < DataLoaderLite.B self * DataLoaderLite.T self)%nat by nia.
    rewrite (token_at_view _ _ _ _ b t Vx Hb Ht).
    rewrite (token_at_view _ _ _ _ b t Vy Hb Ht).
    rewrite !nth_slice by assumption.
    split; f_equal; lia.
Qed.

(** X10: when [B * T + 1] tokens are left from the current position (and
    there is a shard to move on to), [next_batch] returns two (B, T)
    tensors: entry (b, t) of [x] is the token at
    [current_position + b * T + t], and entry (b, t) of [y] is the token
    after it. *)
Theorem next_batch_windows (self : DataLoaderLite.t) :
  DataLoaderLite.shards self <> [] ->
  (DataLoaderLite.current_position self
   + DataLoaderLite.B self * DataLoaderLite.T self + 1
   <= length (DataLoaderLite.tokens self))%nat ->
  exists x y self',
    DataLoaderLite.next_batch np_load self = Done (x, y, self')
    /\ batch_shape (DataLoaderLite.B self) (DataLoaderLite.T self) (x, y)
    /\ forall b t,
        (b < DataLoaderLite.B self)%nat -> (t < DataLoaderLite.T self)%nat ->
        token_at x b t
        = nth (DataLoaderLite.current_position self
               + b * DataLoaderLite.T self + t)
              (DataLoaderLite.tokens self) 0%Z
        /\ token_at y b t
           = nth (DataLoaderLite.current_position self
                  + b * DataLoaderLite.T self + t + 1)
                 (DataLoaderLite.tokens self) 0%Z.
Proof.
  intros Hs Hfit.
  destruct (next_batch_content self Hs Hfit) as (x & y & self' & E & _ & H).
  now exists x, y, self'.
Qed.
End LoaderFacts.

Section LoaderInvariant.
Variable np_load : string -> list Z.

Lemma advance_not_runtime_error (self : DataLoaderLite.t) :
  DataLoaderLite.advance np_load self <> Failed RuntimeError.
Proof.
  unfold DataLoaderLite.advance, DataLoaderLite.at_shard.
  destruct (_ <? _)%nat; [| discriminate].
  destruct (length (DataLoaderLite.shards self)); [discriminate |].
  destruct (nth_error _ _); discriminate.
Qed.

(** X11: [next_batch] fails in [view], with a [RuntimeError], exactly when
    the batch is not empty and fewer than [B * T + 1] tokens are left from
    the current position: the slice is cut short without an error and no
    longer has [B * T] elements. *)
Theorem next_batch_runtime_error (self : DataLoaderLite.t) :
  DataLoaderLite.next_batch np_load self = Failed RuntimeError
  <-> (0 < DataLoaderLite.B self * DataLoaderLite.T self
       /\ length (DataLoaderLite.tokens self)
          < DataLoaderLite.current_position self
            + DataLoaderLite.B self * DataLoaderLite.T self + 1)%nat.
Proof.
  unfold DataLoaderLite.next_batch.
  set (N := (DataLoaderLite.B self * DataLoaderLite.T self)%nat).
  set (pos := DataLoaderLite.current_position self).
  set (buf := slice pos (pos + N + 1) (DataLoaderLite.tokens self)).
  assert (Lb : length buf
               = Nat.min (N + 1) (length (DataLoaderLite.tokens self) - pos)).
  { unfold buf, slice. rewrite length_firstn, length_skipn. lia. }
  unfold view. rewrite length_removelast, length_skipn. fold N.
  destruct (Nat.eqb_spec (length buf - 1) N) as [E | E]; cbn [attempt_bind].
  - pose proof (advance_not_runtime_error self) as NR.
    destruct (DataLoaderLite.advance np_load self) as [self' | f];
      cbn [attempt_bind]; split; try discriminate; try lia.
    intros H. inversion H. congruence.
  - split; [intros _; lia | reflexivity].
Qed.

Lemma shards_fit_same (a b : DataLoaderLite.t) :
  DataLoaderLite.same_settings a b ->
  DataLoaderLite.shards_fit np_load a -> DataLoaderLite.shards_fit np_load b.
Proof.
  intros (EB & ET & Er & _ & Es). unfold DataLoaderLite.shards_fit.
  now rewrite EB, ET, Er, Es.
Qed.

Lemma same_settings_trans (a b c : DataLoaderLite.t) :
  DataLoaderLite.same_settings a b -> DataLoaderLite.same_settings b c ->
  DataLoaderLite.same_settings a c.
Proof.
  unfold DataLoaderLite.same_settings.
  intros (? & ? & ? & ? & ?) (? & ? & ? & ? & ?).
  repeat split; congruence.
Qed.

Lemma advance_ready (self : DataLoaderLite.t) :
  (1 <= DataLoaderLite.num_processes self)%nat ->
  DataLoaderLite.shards self <> [] ->
  DataLoaderLite.shards_fit np_load self ->
  DataLoaderLite.ready np_load self ->
  exists self',
    DataLoaderLite.advance np_load self = Done self'
    /\ DataLoaderLite.same_settings self self'
    /\ DataLoaderLite.ready np_load self'.
Proof.
  intros Hnp Hs Hfit ((f & Hf & Htok) & (j & Hj) & Hroom).
  unfold DataLoaderLite.advance.
  destruct (Nat.ltb_spec
              (length (DataLoaderLite.tokens self))
              (DataLoaderLite.current_position self
               + DataLoaderLite.B self * DataLoaderLite.T self
                 * DataLoaderLite.num_processes self
               + (DataLoaderLite.B self * DataLoaderLite.T self
                  * DataLoaderLite.num_processes self + 1))) as [Hlt | Hge].
  - destruct (length (DataLoaderLite.shards self)) as [| n] eqn:L.
    { destruct (DataLoaderLite.shards self); [congruence | discriminate]. }
    rewrite <- L.
    destruct (at_shard_done np_load
                (DataLoaderLite.B self) (DataLoaderLite.T self)
                (DataLoaderLite.process_rank self)
                (DataLoaderLite.num_processes self)
                (DataLoaderLite.shards self)
                ((DataLoaderLite.current_shard self + 1)
                 mod length (DataLoaderLite.shards self)))
      as (f' & Hf' & E).
    { apply Nat.mod_upper_bound. lia. }
    rewrite E. eexists. split; [reflexivity |].
    split; [repeat split |].
    unfold DataLoaderLite.ready. cbn.
    split; [exists f'; split; [exact Hf' | reflexivity] |].
    split; [exists 0%nat; f_equal; lia |].
    unfold DataLoaderLite.shards_fit in Hfit.
    rewrite Forall_forall in Hfit.
    specialize (Hfit f' (nth_error_In _ _ Hf')). lia.
  - eexists. split; [reflexivity |].
    split; [repeat split |].
    unfold DataLoaderLite.ready. cbn.
    split; [exists f; split; assumption |].
    split; [exists (S j); rewrite Hj; lia |].
    assert (DataLoaderLite.B self * DataLoaderLite.T self
            <= DataLoaderLite.B self * DataLoaderLite.T self
               * DataLoaderLite.num_processes self)%nat by nia.
    lia.
Qed.

Lemma next_batch_ready (self : DataLoaderLite.t) :
  (1 <= DataLoaderLite.num_processes self)%nat ->
  DataLoaderLite.shards self <> [] ->
  DataLoaderLite.shards_fit np_load self ->
  DataLoaderLite.ready np_load self ->
  exists x y self',
    DataLoaderLite.next_batch np_load self = Done (x, y, self')
    /\ batch_shape (DataLoaderLite.B self) (DataLoaderLite.T self) (x, y)
    /\ DataLoaderLite.same_settings self self'
    /\ DataLoaderLite.ready np_load self'.
Proof.
  intros Hnp Hs Hfit Hr.
  destruct (next_batch_fits np_load self Hs (proj2 (proj2 Hr)))
    as (x & y & self' & E & Vx & Vy & A).
  destruct (advance_ready self Hnp Hs Hfit Hr) as (self'' & A' & Hsame & Hr').
  assert (self'' = self') by congruence. subst self''.
  exists x, y, self'. split; [exact E |]. split; [| split; assumption].
  split; [exact (view_shape _ _ _ _ Vx) | exact (view_shape _ _ _ _ Vy)].
Qed.

Lemma next_batches_ready (n : nat) (self : DataLoaderLite.t) :
  (1 <= DataLoaderLite.num_processes self)%nat ->
  DataLoaderLite.shards self <> [] ->
  DataLoaderLite.shards_fit np_load self ->
  DataLoaderLite.ready np_load self ->
  exists batches self',
    DataLoaderLite.next_batches np_load n self = Done (batches, self')
    /\ length batches = n
    /\ Forall (batch_shape (DataLoaderLite.B self) (DataLoaderLite.T self))
              batches
    /\ DataLoaderLite.same_settings self self'
    /\ DataLoaderLite.ready np_load self'.
Proof.
  revert self. induction n as [| n IH]; intros self Hnp Hs Hfit Hr.
  - exists [], self. cbn.
    split; [reflexivity |]. split; [reflexivity |]. split; [constructor |].
    split; [repeat split | exact Hr].
  - destruct (next_batch_ready self Hnp Hs Hfit Hr)
      as (x & y & self1 & E & Hshape & Hsame & Hr1).
    pose proof Hsame as (EB & ET & Erank & Enp & Eshards).
    destruct (IH self1) as (batches & self2 & E2 & L & Hall & Hsame2 & Hr2).
    + now rewrite <- Enp.
    + now rewrite <- Eshards.
    + exact (shards_fit_same _ _ Hsame Hfit).
    + exact Hr1.
    + exists ((x, y) :: batches), self2.
      cbn [DataLoaderLite.next_batches attempt_bind]. rewrite E.
      cbn [attempt_bind]. rewrite E2. cbn [attempt_bind].
      split; [reflexivity |]. split; [simpl; now rewrite L |].
      split; [constructor; [exact Hshape | now rewrite EB, ET] |].
      split; [exact (same_settings_trans _ _ _ Hsame Hsame2) | exact Hr2].
Qed.

Lemma reset_ready (self : DataLoaderLite.t) :
  DataLoaderLite.shards self <> [] ->
  DataLoaderLite.shards_fit np_load self ->
  exists self',
    DataLoaderLite.reset np_load self = Done self'
    /\ DataLoaderLite.same_settings self self'
    /\ DataLoaderLite.ready np_load self'.
Proof.
  intros Hs Hfit. unfold DataLoaderLite.reset.
  destruct (at_shard_done np_load
              (DataLoaderLite.B self) (DataLoaderLite.T self)
              (DataLoaderLite.process_rank self)
              (DataLoaderLite.num_processes self)
              (DataLoaderLite.shards self) 0) as (f & Hf & E).
  { destruct (DataLoaderLite.shards self); [congruence | simpl; lia]. }
  rewrite E. eexists. split; [reflexivity |]. split; [repeat split |].
  unfold DataLoaderLite.ready. cbn.
  split; [exists f; split; [exact Hf | reflexivity] |].
  split; [exists 0%nat; f_equal; lia |].
  unfold DataLoaderLite.shards_fit in Hfit. rewrite Forall_forall in Hfit.
  specialize (Hfit f (nth_error_In _ _ Hf)). lia.
Qed.

(** X12: a loader with at least one process and one shard, every shard
    holding at least [B * T * (process_rank + 1) + 1] tokens, never fails:
    after [reset], any number of calls of [next_batch] return (B, T)
    batches, the shard index stays in range and the position stays on the
    stride of the process, [B * T * (process_rank + j * num_processes)],
    with room for the next batch. *)
Theorem next_batches_never_fail (self : DataLoaderLite.t) (n : nat) :
  (1 <= DataLoaderLite.num_processes self)%nat ->
  DataLoaderLite.shards self <> [] ->
  DataLoaderLite.shards_fit np_load self ->
  exists self1 batches self2,
    DataLoaderLite.reset np_load self = Done self1
    /\ DataLoaderLite.next_batches np_load n self1 = Done (batches, self2)
    /\ length batches = n
    /\ Forall (batch_shape (DataLoaderLite.B self) (DataLoaderLite.T self))
              batches
    /\ DataLoaderLite.same_settings self self2
    /\ (DataLoaderLite.current_shard self2
        < length (DataLoaderLite.shards self))%nat
    /\ DataLoaderLite.ready np_load self2.
Proof.
  intros Hnp Hs Hfit.
  destruct (reset_ready self Hs Hfit) as (self1 & E1 & Hsame1 & Hr1).
  pose proof Hsame1 as (EB & ET & Erank & Enp & Eshards).
  destruct (next_batches_ready n self1)
    as (batches & self2 & E2 & L & Hall & Hsame2 & Hr2).
  - now rewrite <- Enp.
  - now rewrite <- Eshards.
  - exact (shards_fit_same _ _ Hsame1 Hfit).
  - exact Hr1.
  - exists self1, batches, self2.
    split; [exact E1 |]. split; [exact E2 |]. split; [exact L |].
    split; [now rewrite EB, ET |].
    pose proof (same_settings_trans _ _ _ Hsame1 Hsame2) as Hsame.
    split; [exact Hsame |]. split; [| exact Hr2].
    destruct Hr2 as ((f & Hf & _) & _).
    destruct Hsame as (_ & _ & _ & _ & ->).
    apply nth_error_Some. congruence.
Qed.
End LoaderInvariant.

Lemma next_batch_windows_witness :
  exists x y self',
    DataLoaderLite.next_batch Shards.np_load (Shards.loader 1)
    = Done (x, y, self')
    /\ token_at x 0 0 = 2%Z /\ token_at y 0 0 = 0%Z.
Proof.
  destruct (next_batch_windows Shards.np_load (Shards.loader 1))
    as (x & y & self' & E & _ & H).
  - discriminate.
  - vm_compute. lia.
  - exists x, y, self'. split; [exact E |].
    destruct (H 0%nat 0%nat) as [Hx Hy]; [simpl; lia | simpl; lia |].
    split; [exact Hx | exact Hy].
Defined.

Lemma next_batches_never_fail_witness :
  exists self1 batches self2,
    DataLoaderLite.reset Shards.np_load (Shards.loader 1) = Done self1
    /\ DataLoaderLite.next_batches Shards.np_load 5 self1
       = Done (batches, self2)
    /\ length batches = 5%nat.
Proof.
  destruct (next_batches_never_fail Shards.np_load (Shards.loader 1) 5)
    as (self1 & batches & self2 & E1 & E2 & L & _).
  - simpl. lia.
  - discriminate.
  - repeat constructor.
  - exists self1, batches, self2. repeat split; assumption.
Defined.

Ltac loader_fields :=
  cbn [DataLoaderLite.B DataLoaderLite.T DataLoaderLite.process_rank
       DataLoaderLite.num_processes DataLoaderLite.shards
       DataLoaderLite.current_shard DataLoaderLite.tokens
       DataLoaderLite.current_position].

Ltac loader_fields_in H :=
  cbn [DataLoaderLite.B DataLoaderLite.T DataLoaderLite.process_rank
       DataLoaderLite.num_processes DataLoaderLite.shards
       DataLoaderLite.current_shard DataLoaderLite.tokens
       DataLoaderLite.current_position] in H.

Section LoaderWindows.
Variable np_load : string -> list Z.

Lemma advance_within (self : DataLoaderLite.t) :
  (DataLoaderLite.current_position self
   + 2 * (DataLoaderLite.B self * DataLoaderLite.T self
          * DataLoaderLite.num_processes self) + 1
   <= length (DataLoaderLite.tokens self))%nat ->
  DataLoaderLite.advance np_load self
  = Done {| DataLoaderLite.B := DataLoaderLite.B self;
            DataLoaderLite.T := DataLoaderLite.T self;
            DataLoaderLite.process_rank := DataLoaderLite.process_rank self;
            DataLoaderLite.num_processes := DataLoaderLite.num_processes self;
            DataLoaderLite.shards := DataLoaderLite.shards self;
            DataLoaderLite.current_shard := DataLoaderLite.current_shard self;
            DataLoaderLite.tokens := DataLoaderLite.tokens self;
            DataLoaderLite.current_position :=
              (DataLoaderLite.current_position self
               + DataLoaderLite.B self * DataLoaderLite.T self
                 * DataLoaderLite.num_processes self)%nat |}.
Proof.
  intros H. unfold DataLoaderLite.advance.
  destruct (Nat.ltb_spec
              (length (DataLoaderLite.tokens self))
              (DataLoaderLite.current_position self
               + DataLoaderLite.B self * DataLoaderLite.T self
                 * DataLoaderLite.num_processes self
               + (DataLoaderLite.B self * DataLoaderLite.T self
                  * DataLoaderLite.num_processes self + 1)));
    [lia | reflexivity].
Qed.

Lemma next_batches_from (n : nat) :
  forall (j0 : nat) (self : DataLoaderLite.t),
    DataLoaderLite.shards self <> [] ->
    (1 <= DataLoaderLite.num_processes self)%nat ->
    DataLoaderLite.current_position self
    = (DataLoaderLite.B self * DataLoaderLite.T self
       * (DataLoaderLite.process_rank self
          + j0 * DataLoaderLite.num_processes self))%nat ->
    (DataLoaderLite.B self * DataLoaderLite.T self
     * (DataLoaderLite.process_rank self
        + (j0 + n) * DataLoaderLite.num_processes self) + 1
     <= length (DataLoaderLite.tokens self))%nat ->
    exists batches self',
      DataLoaderLite.next_batches np_load n self = Done (batches, self')
      /\ length batches = n
      /\ forall j x y,
          nth_error batches j = Some (x, y) ->
          forall b t,
            (b < DataLoaderLite.B self)%nat ->
            (t < DataLoaderLite.T self)%nat ->
            token_at x b t
            = nth (DataLoaderLite.B self * DataLoaderLite.T self
                   * (DataLoaderLite.process_rank self
                      + (j0 + j) * DataLoaderLite.num_processes self)
                   + b * DataLoaderLite.T self + t)
                  (DataLoaderLite.tokens self) 0%Z
            /\ token_at y b t
               = nth (DataLoaderLite.B self * DataLoaderLite.T self
                      * (DataLoaderLite.process_rank self
                         + (j0 + j) * DataLoaderLite.num_processes self)
                      + b * DataLoaderLite.T self + t + 1)
                     (DataLoaderLite.tokens self) 0%Z.
Proof.
  induction n as [| n IH]; intros j0 self Hs Hnp Hpos Hlen.
  - exists [], self. split; [reflexivity |]. split; [reflexivity |].
    intros [| j] x y H; discriminate.
  - set (N := (DataLoaderLite.B self * DataLoaderLite.T self)%nat) in *.
    set (np := DataLoaderLite.num_processes self) in *.
    set (r := DataLoaderLite.process_rank self) in *.
    assert (Hroom : (DataLoaderLite.current_position self + N + 1
                     <= length (DataLoaderLite.tokens self))%nat).
    { rewrite Hpos.
      assert (N * (r + j0 * np) + N <= N * (r + (j0 + S n) * np))%nat by nia.
      lia. }
    destruct (next_batch_content np_load self Hs Hroom)
      as (x0 & y0 & self1 & E & A & _ & Hwin).
    cbn [DataLoaderLite.next_batches attempt_bind]. rewrite E.
    cbn [attempt_bind].
    destruct n as [| n].
    + exists [(x0, y0)], self1. cbn [DataLoaderLite.next_batches attempt_bind].
      split; [reflexivity |]. split; [reflexivity |].
      intros [| j] x y H; [| destruct j; discriminate].
      inversion H. subst x0 y0. intros b t Hb Ht.
      rewrite Nat.add_0_r. fold N. rewrite <- Hpos. now apply Hwin.
    + assert (Hin : (DataLoaderLite.current_position self + 2 * (N * np) + 1
                     <= length (DataLoaderLite.tokens self))%nat).
      { rewrite Hpos.
        assert (N * (r + j0 * np) + 2 * (N * np)
                <= N * (r + (j0 + S (S n)) * np))%nat by nia.
        lia. }
      rewrite (advance_within self Hin) in A. injection A as E1.
      symmetry in E1.
      destruct (IH (S j0) self1) as (batches & self2 & E2 & L & Hrest).
      * now rewrite E1.
      * now rewrite E1.
      * rewrite E1. loader_fields. fold N np r. rewrite Hpos. nia.
      * rewrite E1. loader_fields. fold N np r.
        replace (S j0 + S n)%nat with (j0 + S (S n))%nat by lia. exact Hlen.
      * exists ((x0, y0) :: batches), self2. rewrite E2. cbn [attempt_bind].
        split; [reflexivity |]. split; [simpl; now rewrite L |].
        intros [| j] x y H b t Hb Ht.
        -- inversion H. subst x0 y0.
           rewrite Nat.add_0_r. fold N. rewrite <- Hpos. now apply Hwin.
        -- simpl in H. specialize (Hrest j x y H b t).
           rewrite E1 in Hrest. loader_fields_in Hrest.
           fold N np r in Hrest.
           replace (j0 + S j)%nat with (S j0 + j)%nat by lia.
           now apply Hrest.
Qed.

(** X13: the batches a process reads from the first shard are the windows
    on its stride: after [reset], as long as the shard holds
    [B * T * (process_rank + n * num_processes) + 1] tokens, call [j < n] of
    [next_batch] returns as [x] the [B * T] tokens from position
    [B * T * (process_rank + j * num_processes)] on, and as [y] the same
    window moved by one token. *)
Theorem next_batches_strided (self : DataLoaderLite.t) (n : nat)
        (filename : string) :
  nth_error (DataLoaderLite.shards self) 0 = Some filename ->
  (1 <= DataLoaderLite.num_processes self)%nat ->
  (DataLoaderLite.B self * DataLoaderLite.T self
   * (DataLoaderLite.process_rank self + n * DataLoaderLite.num_processes self)
   + 1 <= length (load_tokens np_load filename))%nat ->
  exists self1 batches self2,
    DataLoaderLite.reset np_load self = Done self1
    /\ DataLoaderLite.next_batches np_load n self1 = Done (batches, self2)
    /\ length batches = n
    /\ forall j x y,
        nth_error batches j = Some (x, y) ->
        forall b t,
          (b < DataLoaderLite.B self)%nat -> (t < DataLoaderLite.T self)%nat ->
          token_at x b t
          = nth (DataLoaderLite.B self * DataLoaderLite.T self
                 * (DataLoaderLite.process_rank self
                    + j * DataLoaderLite.num_processes self)
                 + b * DataLoaderLite.T self + t)
                (load_tokens np_load filename) 0%Z
          /\ token_at y b t
             = nth (DataLoaderLite.B self * DataLoaderLite.T self
                    * (DataLoaderLite.process_rank self
                       + j * DataLoaderLite.num_processes self)
                    + b * DataLoaderLite.T self + t + 1)
                   (load_tokens np_load filename) 0%Z.
Proof.
  intros Hf Hnp Hlen.
  unfold DataLoaderLite.reset, DataLoaderLite.at_shard. rewrite Hf.
  eexists. 
  destruct (next_batches_from n 0
              {| DataLoaderLite.B := DataLoaderLite.B self;
                 DataLoaderLite.T := DataLoaderLite.T self;
                 DataLoaderLite.process_rank := DataLoaderLite.process_rank self;
                 DataLoaderLite.num_processes :=
                   DataLoaderLite.num_processes self;
                 DataLoaderLite.shards := DataLoaderLite.shards self;
                 DataLoaderLite.current_shard := 0;
                 DataLoaderLite.tokens := load_tokens np_load filename;
                 DataLoaderLite.current_position :=
                   (DataLoaderLite.B self * DataLoaderLite.T self
                    * DataLoaderLite.process_rank self)%nat |})
    as (batches & self2 & E & L & H).
  - cbn. intros C. now rewrite C in Hf.
  - exact Hnp.
  - cbn. f_equal. lia.
  - exact Hlen.
  - exists batches, self2. split; [reflexivity |].
    split; [exact E |]. split; [exact L |]. exact H.
Qed.

(** X14: two processes with different ranks below [num_processes] and the
    same batch shape never stand on overlapping windows: whatever the
    numbers of batches each has read since [reset], their positions are
    at least [B * T] apart. *)
Theorem ranks_read_disjoint_windows (a b : DataLoaderLite.t) (na nb : nat) :
  DataLoaderLite.B a = DataLoaderLite.B b ->
  DataLoaderLite.T a = DataLoaderLite.T b ->
  DataLoaderLite.num_processes a = DataLoaderLite.num_processes b ->
  (DataLoaderLite.process_rank a < DataLoaderLite.num_processes a)%nat ->
  (DataLoaderLite.process_rank b < DataLoaderLite.num_processes b)%nat ->
  DataLoaderLite.process_rank a <> DataLoaderLite.process_rank b ->
  DataLoaderLite.shards a <> [] -> DataLoaderLite.shards b <> [] ->
  DataLoaderLite.shards_fit np_load a -> DataLoaderLite.shards_fit np_load b ->
  exists a1 batches_a a2 b1 batches_b b2,
    DataLoaderLite.reset np_load a = Done a1
    /\ DataLoaderLite.next_batches np_load na a1 = Done (batches_a, a2)
    /\ DataLoaderLite.reset np_load b = Done b1
    /\ DataLoaderLite.next_batches np_load nb b1 = Done (batches_b, b2)
    /\ (DataLoaderLite.current_position a2
        + DataLoaderLite.B a * DataLoaderLite.T a
        <= DataLoaderLite.current_position b2
        \/ DataLoaderLite.current_position b2
           + DataLoaderLite.B a * DataLoaderLite.T a
           <= DataLoaderLite.current_position a2)%nat.
Proof.
  intros EB ET Enp Hra Hrb Hne Hsa Hsb Hfa Hfb.
  destruct (reset_ready np_load a Hsa Hfa) as (a1 & Ea1 & Sa1 & Ra1).
  destruct (reset_ready np_load b Hsb Hfb) as (b1 & Eb1 & Sb1 & Rb1).
  pose proof Sa1 as (EBa & ETa & Era & Enpa & Esa).
  pose proof Sb1 as (EBb & ETb & Erb & Enpb & Esb).
  destruct (next_batches_ready np_load na a1)
    as (batches_a & a2 & Ea2 & _ & _ & Sa2 & (_ & (ja & Hja) & _)).
  { rewrite <- Enpa. lia. }
  { now rewrite <- Esa. }
  { exact (shards_fit_same np_load _ _ Sa1 Hfa). }
  { exact Ra1. }
  destruct (next_batches_ready np_load nb b1)
    as (batches_b & b2 & Eb2 & _ & _ & Sb2 & (_ & (jb & Hjb) & _)).
  { rewrite <- Enpb. lia. }
  { now rewrite <- Esb. }
  { exact (shards_fit_same np_load _ _ Sb1 Hfb). }
  { exact Rb1. }
  exists a1, batches_a, a2, b1, batches_b, b2.
  split; [exact Ea1 |]. split; [exact Ea2 |].
  split; [exact Eb1 |]. split; [exact Eb2 |].
  destruct Sa2 as (EBa2 & ETa2 & Era2 & Enpa2 & _).
  destruct Sb2 as (EBb2 & ETb2 & Erb2 & Enpb2 & _).
  rewrite Hja, Hjb.
  rewrite <- EBa2, <- ETa2, <- Era2, <- Enpa2, <- EBb2, <- ETb2, <- Erb2, <- Enpb2.
  rewrite <- EBa, <- ETa, <- Era, <- Enpa, <- EBb, <- ETb, <- Erb, <- Enpb.
  rewrite <- EB, <- ET, <- Enp.
  set (N := (DataLoaderLite.B a * DataLoaderLite.T a)%nat).
  set (np := DataLoaderLite.num_processes a) in *.
  set (ra := DataLoaderLite.process_rank a) in *.
  set (rb := DataLoaderLite.process_rank b) in *.
  assert (Hk : (ra + ja * np <> rb + jb * np)%nat).
  { intros C. apply Hne.
    assert (M : ((ra + ja * np) mod np = (rb + jb * np) mod np)%nat)
      by now rewrite C.
    rewrite !Nat.Div0.mod_add in M.
    rewrite !Nat.mod_small in M by lia. exact M. }
  destruct (Nat.lt_gt_cases (ra + ja * np) (rb + jb * np)) as [Hlt _].
  destruct (Hlt Hk) as [L | L]; [left | right].
  - replace (N * (ra + ja * np) + N)%nat with (N * (ra + ja * np + 1))%nat by lia.
    apply Nat.mul_le_mono_l. lia.
  - replace (N * (rb + jb * np) + N)%nat with (N * (rb + jb * np + 1))%nat by lia.
    apply Nat.mul_le_mono_l. lia.
Qed.
End LoaderWindows.

Lemma next_batches_strided_witness :
  exists self1 batches self2,
    DataLoaderLite.reset Shards.np_load (Shards.loader 0) = Done self1
    /\ DataLoaderLite.next_batches Shards.np_load 2 self1
       = Done (batches, self2)
    /\ length batches = 2%nat.
Proof.
  destruct (next_batches_strided Shards.np_load (Shards.loader 0) 2
              "edu_fineweb10B/edufineweb_train_000001.npy")
    as (self1 & batches & self2 & E1 & E2 & L & _).
  - reflexivity.
  - simpl. lia.
  - vm_compute. lia.
  - exists self1, batches, self2. repeat split; assumption.
Defined.

Lemma ranks_read_disjoint_windows_witness :
  exists a2 b2 batches_a batches_b,
    DataLoaderLite.next_batches Shards.np_load 3 (Shards.loader 0)
    = Done (batches_a, a2)
    /\ DataLoaderLite.next_batches Shards.np_load 1 (Shards.loader 1)
       = Done (batches_b, b2)
    /\ (DataLoaderLite.current_position a2 + 2
        <= DataLoaderLite.current_position b2
        \/ DataLoaderLite.current_position b2 + 2
           <= DataLoaderLite.current_position a2)%nat.
Proof.
  destruct (ranks_read_disjoint_windows Shards.np_load
              (Shards.loader 0) (Shards.loader 1) 3 1)
    as (a1 & batches_a & a2 & b1 & batches_b & b2 & Ea1 & Ea2 & Eb1 & Eb2 & H);
    try reflexivity; try discriminate; try (simpl; lia);
    try (repeat constructor).
  exists a2, b2, batches_a, batches_b.
  vm_compute in Ea1. inversion Ea1. subst a1.
  vm_compute in Eb1. inversion Eb1. subst b1.
  split; [exact Ea2 |]. split; [exact Eb2 |]. exact H.
Defined.

(** ** The shards a loader is built over *)

Lemma insert_sorted_permutation (s : string) (l : list string) :
  Permutation (insert_sorted s l) (s :: l).
Proof.
  induction l as [| x l IH]; simpl; [reflexivity |].
  destruct (String.leb s x); [reflexivity |].
  rewrite IH. apply perm_swap.
Qed.

Lemma sorted_permutation (l : list string) : Permutation (sorted l) l.
Proof.
  induction l as [| s l IH]; simpl; [reflexivity |].
  rewrite insert_sorted_permutation. now constructor.
Qed.

Lemma insert_sorted_Sorted (s : string) (l : list string) :
  Sorted (fun a b => String.leb a b = true) l ->
  Sorted (fun a b => String.leb a b = true) (insert_sorted s l).
Proof.
  induction l as [| x l IH]; intros H; simpl.
  - repeat constructor.
  - destruct (String.leb s x) eqn:E.
    + constructor; [exact H | constructor; exact E].
    + inversion H as [| ? ? Hl Hx]. subst.
      constructor; [now apply IH |].
      assert (Hxs : String.leb x s = true)
        by (destruct (String.leb_total s x); congruence).
      destruct l as [| z l]; simpl; [now constructor |].
      destruct (String.leb s z); constructor; [exact Hxs |].
      now inversion Hx.
Qed.

Lemma sorted_Sorted (l : list string) :
  Sorted (fun a b => String.leb a b = true) (sorted l).
Proof.
  induction l as [| s l IH]; simpl; [constructor |].
  now apply insert_sorted_Sorted.
Qed.

(** X15: the constructor of the loader fails, with an [AssertionError],
    exactly when [split] is neither ["train"] nor ["val"] or no name of the
    directory listing contains it.  Otherwise the shards are the names
    that contain [split], each one once, in ascending order and joined to
    the data directory, and the loader starts on the first of them at
    position [B * T * process_rank]. *)
Theorem DataLoaderLite_new_outcome (np_load : string -> list Z)
        (B T process_rank num_processes : nat) (split : string)
        (listing : list string) :
  match DataLoaderLite.new np_load B T process_rank num_processes split
                           listing with
  | Failed f =>
      f = Python AssertionError
      /\ (~ (split = "train"%string \/ split = "val"%string)
          \/ filter (contains split) listing = [])
  | Done self =>
      (split = "train"%string \/ split = "val"%string)
      /\ (exists names,
             Sorted (fun a b => String.leb a b = true) names
             /\ Permutation names (filter (contains split) listing)
             /\ DataLoaderLite.shards self
                = map (path_join "edu_fineweb10B") names)
      /\ (exists filename,
             nth_error (DataLoaderLite.shards self) 0 = Some filename
             /\ DataLoaderLite.tokens self = load_tokens np_load filename)
      /\ DataLoaderLite.current_shard self = 0%nat
      /\ DataLoaderLite.current_position self = (B * T * process_rank)%nat
      /\ DataLoaderLite.B self = B /\ DataLoaderLite.T self = T
      /\ DataLoaderLite.process_rank self = process_rank
      /\ DataLoaderLite.num_processes self = num_processes
  end.
Proof.
  unfold DataLoaderLite.new.
  destruct (String.eqb_spec split "train") as [Et | Et];
    destruct (String.eqb_spec split "val") as [Ev | Ev]; cbn [orb negb];
    try (split; [reflexivity | left; tauto]).
  all: set (names := sorted (filter (contains split) listing)).
  all: pose proof (sorted_permutation (filter (contains split) listing)) as P.
  all: pose proof (sorted_Sorted (filter (contains split) listing)) as S.
  all: fold names in P, S.
  all: rewrite length_map.
  all: destruct names as [| name names'] eqn:En;
    [cbn; split; [reflexivity | right; now apply Permutation_nil in P] |].
  all: cbn.
  all: split; [tauto |].
  all: split; [exists (name :: names'); repeat split; assumption |].
  all: split; [eexists; split; reflexivity |].
  all: repeat split.
Qed.

(** ** From the loader to the model *)

Lemma Forall_firstn_of {A : Type} (P : A -> Prop) (n : nat) (l : list A) :
  Forall P l -> Forall P (firstn n l).
Proof.
  intros H. revert n. induction H as [| a l Ha _ IH]; intros [| n]; simpl;
    constructor; auto.
Qed.

Lemma Forall_skipn_of {A : Type} (P : A -> Prop) (n : nat) (l : list A) :
  Forall P l -> Forall P (skipn n l).
Proof.
  intros H. revert n. induction H as [| a l Ha Hl IH]; intros [| n]; simpl;
    try constructor; auto.
Qed.

Lemma view_valid_ids (V B T : nat) (data : list Z) (x : LongTensor) :
  Forall (fun id => (0 <= id < Z.of_nat V)%Z) data ->
  view B T data = Done x -> valid_ids V x.
Proof.
  intros Hd. unfold view. destruct (_ =? _)%nat; [| discriminate].
  intros H. inversion H. subst x. unfold valid_ids. simpl.
  apply Forall_forall. intros r Hr. apply in_map_iff in Hr.
  destruct Hr as (i & <- & _).
  now apply Forall_firstn_of, Forall_skipn_of.
Qed.

(** X16: a batch of the loader goes through the model: when a batch has a
    position ([B * T > 0]), the tokens of the current shard are ids of the
    vocabulary, [B * T + 1] of them are left and [T] is at most
    [block_size], [next_batch] returns [x] and [y] and [model(x, y)]
    returns logits and the mean loss of the [B * T] positions, without an
    exception. *)
Theorem next_batch_forward (np_load : string -> list Z) (m : GPT.t)
        (self : DataLoaderLite.t) :
  GPT.shaped m ->
  (0 < DataLoaderLite.B self * DataLoaderLite.T self)%nat ->
  DataLoaderLite.shards self <> [] ->
  (DataLoaderLite.current_position self
   + DataLoaderLite.B self * DataLoaderLite.T self + 1
   <= length (DataLoaderLite.tokens self))%nat ->
  (DataLoaderLite.T self <= GPTConfig.block_size (GPT.config m))%nat ->
  Forall (fun id => (0 <= id < Z.of_nat (GPTConfig.vocab_size (GPT.config m)))%Z)
         (DataLoaderLite.tokens self) ->
  exists x y self',
    DataLoaderLite.next_batch np_load self = Done (x, y, self')
    /\ GPT.forward m x (Some y)
       = Ok (logits_of m x,
             Some (mean_token_ce (logits_of m x) y
                     (DataLoaderLite.B self) (DataLoaderLite.T self))).
Proof.
  intros Hm _ Hs Hfit HT Hids.
  destruct (next_batch_fits np_load self Hs Hfit)
    as (x & y & self' & E & Vx & Vy & _).
  exists x, y, self'. split; [exact E |].
  destruct (view_shape _ _ _ _ Vx) as (Tx & Bx & Wx).
  destruct (view_shape _ _ _ _ Vy) as (Ty & By & Wy).
  assert (Hvx : valid_ids (GPTConfig.vocab_size (GPT.config m)) x).
  { eapply view_valid_ids; [| exact Vx].
    unfold slice. now apply Forall_firstn_of, Forall_skipn_of. }
  assert (Hvy : valid_ids (GPTConfig.vocab_size (GPT.config m)) y).
  { eapply view_valid_ids; [| exact Vy].
    unfold slice. now apply Forall_firstn_of, Forall_skipn_of. }
  rewrite forward_with_targets by (try assumption; now rewrite Tx).
  pose proof (logits_of_shape m x Hm Wx) as Hshape.
  rewrite Bx, Tx in Hshape.
  rewrite (cross_entropy_mean _ _ _ _ y Hshape Wy By Ty Hvy).
  reflexivity.
Qed.

Lemma next_batch_forward_witness :
  (0 < DataLoaderLite.B (Shards.loader 0)
       * DataLoaderLite.T (Shards.loader 0))%nat
  /\ exists x y self' logits loss,
      DataLoaderLite.next_batch Shards.np_load (Shards.loader 0)
      = Done (x, y, self')
      /\ GPT.forward Fixture.tiny x (Some y) = Ok (logits, Some loss).
Proof.
  assert (P : (0 < DataLoaderLite.B (Shards.loader 0)
                   * DataLoaderLite.T (Shards.loader 0))%nat)
    by (vm_compute; lia).
  split; [exact P |].
  destruct (next_batch_forward Shards.np_load Fixture.tiny (Shards.loader 0))
    as (x & y & self' & E & F).
  - apply fixture_shaped.
  - exact P.
  - discriminate.
  - vm_compute. lia.
  - vm_compute. lia.
  - vm_compute. repeat constructor; discriminate.
  - exists x, y, self'. do 2 eexists. split; [exact E | exact F].
Defined.

(** ** The schedule inside the training loop *)

(** X17: from step [warmup_steps] on, the learning rate is at least
    [min_lr] and equals it exactly at the steps from [max_steps] on: every
    step from [warmup_steps] up to [max_steps - 1], the last one of the
    loop, trains at a rate above [min_lr].  The warmup steps, below
    [warmup_steps], are not covered. *)
Theorem get_lr_min_lr_iff (max_lr : R) (warmup_steps max_steps it : Z) :
  (0 < warmup_steps)%Z -> (warmup_steps < max_steps)%Z -> 0 < max_lr ->
  (warmup_steps <= it)%Z ->
  exists r,
    Schedule.get_lr max_lr warmup_steps max_steps it = Ok r
    /\ Schedule.min_lr max_lr <= r
    /\ (r = Schedule.min_lr max_lr <-> (max_steps <= it)%Z).
Proof.
  intros Hw Hm Hlr Hit.
  destruct (Z.lt_ge_cases max_steps it) as [Hafter | Hle].
  - eexists. split; [apply get_lr_after; assumption |].
    split; [lra |]. split; [lia | reflexivity].
  - eexists. split; [apply get_lr_decay; [assumption | lia] |].
    set (ratio := IZR (it - warmup_steps) / IZR (max_steps - warmup_steps)).
    pose proof (decay_ratio_range warmup_steps max_steps Hm it
                  (conj Hit Hle)) as [R0 R1].
    fold ratio in R0, R1.
    pose proof (COS_bound (PI * ratio)) as [C1 C2].
    pose proof PI_RGT_0 as Hpi.
    unfold Schedule.min_lr.
    split; [nra |].
    destruct (Z.eq_dec it max_steps) as [E | NE].
    + assert (E1 : ratio = 1).
      { unfold ratio. subst it. field.
        apply not_0_IZR. lia. }
      rewrite E1, Rmult_1_r, cos_PI. split; [lia | lra].
    + assert (D : 0 < IZR (max_steps - warmup_steps)) by (apply IZR_lt; lia).
      assert (N : IZR (it - warmup_steps) < IZR (max_steps - warmup_steps))
        by (apply IZR_lt; lia).
      assert (R2 : ratio < 1).
      { unfold ratio, Rdiv.
        apply (Rmult_lt_reg_r (IZR (max_steps - warmup_steps))); [exact D |].
        rewrite Rmult_assoc, Rinv_l by lra. lra. }
      assert (C3 : -1 < cos (PI * ratio)).
      { rewrite <- cos_PI. apply cos_decreasing_1; nra. }
      split; [intros Heq; exfalso; nra | lia].
Qed.

Lemma get_lr_min_lr_iff_witness :
  exists r, Script.get_lr 19072 = Ok r /\ r <> Script.min_lr.
Proof.
  destruct (get_lr_min_lr_iff Script.max_lr Script.warmup_steps
              Script.max_steps 19072) as (r & E & _ & H).
  - reflexivity.
  - reflexivity.
  - unfold Script.max_lr. lra.
  - unfold Script.warmup_steps. lia.
  - exists r. split; [exact E |]. intros C. apply H in C.
    unfold Script.max_steps in C. lia.
Defined.

(** ** The number of micro-steps *)

(** X18: [grad_accum_steps] is computed exactly when [B * T *
    ddp_world_size] is not zero and divides [total_batch_size], and then
    [grad_accum_steps] micro-steps of [B * T] tokens on each of the
    processes make up the total batch exactly; a zero product is a
    [ZeroDivisionError], and a product that does not divide it an
    [AssertionError]. *)
Theorem grad_accum_steps_outcome (total_batch_size B T ddp_world_size : Z) :
  let n := (B * T * ddp_world_size)%Z in
  (forall g, grad_accum_steps total_batch_size B T ddp_world_size = Ok g
             <-> (n <> 0 /\ g * n = total_batch_size)%Z)
  /\ (grad_accum_steps total_batch_size B T ddp_world_size
      = Raise ZeroDivisionError <-> n = 0%Z)
  /\ (grad_accum_steps total_batch_size B T ddp_world_size
      = Raise AssertionError
      <-> (n <> 0 /\ total_batch_size mod n <> 0)%Z).
Proof.
  intros n. unfold grad_accum_steps, py_mod, py_floordiv. fold n.
  destruct (Z.eqb_spec n 0) as [E0 | N0]; cbn [bind].
  - repeat split; try discriminate; try tauto; try (intros [? _]; tauto).
  - destruct (Z.eqb_spec (total_batch_size mod n) 0) as [Em | Nm];
      cbn [bind py_assert].
    + destruct (Z.eqb_spec n 0) as [| _]; [contradiction |].
      split; [| split].
      * intros g. split.
        -- intros H. inversion H. split; [exact N0 |].
           rewrite Z.mul_comm. symmetry. now apply Z.div_exact.
        -- intros [_ H]. f_equal. subst total_batch_size.
           now apply Z.div_mul.
      * split; [discriminate | contradiction].
      * split; [discriminate | tauto].
    + split; [| split].
      * intros g. split; [discriminate |].
        intros [_ H]. subst total_batch_size.
        rewrite Z.mod_mul in Nm by assumption. contradiction.
      * split; [discriminate | contradiction].
      * split; [tauto | reflexivity].
Qed.

(** ** The pretrained configurations *)

Ltac pretrained_case built :=
  cbn [bind py_assert orb];
  split; [simpl In; tauto |];
  split; [reflexivity |];
  split; [reflexivity |];
  split; [reflexivity |];
  apply built;
  cbn [GPTConfig.n_head GPTConfig.n_embed]; [discriminate | reflexivity].

Section PretrainedFacts.
Variable generator : Type.
Variable normal_sample : generator -> nat -> R -> R -> list R * generator.
Variable uniform_sample : generator -> nat -> R -> R -> list R * generator.

(** X19: [from_pretrained] accepts exactly the four GPT-2 names; each of
    the configurations it builds has heads of size 64, the vocabulary of
    50257 tokens and the block size 1024 of the checkpoints, and passes the
    assertion of the attention constructor, so that [GPT(config)] is
    built. *)
Theorem pretrained_config_outcome (model_type : string)
        (w : world generator) :
  match pretrained_config model_type with
  | Ok config =>
      In model_type ["gpt2"; "gpt2-medium"; "gpt2-large"; "gpt2-xl"]%string
      /\ GPTConfig.n_embed config = (64 * GPTConfig.n_head config)%nat
      /\ GPTConfig.vocab_size config = 50257%nat
      /\ GPTConfig.block_size config = 1024%nat
      /\ exists g w',
          GPT_new generator normal_sample uniform_sample config w = Ok (g, w')
          /\ length (Obj.GPT.h g) = GPTConfig.n_layer config
  | Raise e =>
      e = AssertionError
      /\ ~ In model_type ["gpt2"; "gpt2-medium"; "gpt2-large"; "gpt2-xl"]%string
  end.
Proof.
  assert (built : forall config,
             GPTConfig.n_head config <> 0%nat ->
             (GPTConfig.n_embed config mod GPTConfig.n_head config = 0)%nat ->
             exists g w',
               GPT_new generator normal_sample uniform_sample config w
               = Ok (g, w')
               /\ length (Obj.GPT.h g) = GPTConfig.n_layer config).
  { intros config Hh Hd.
    destruct (GPT_new_ok generator normal_sample uniform_sample config w)
      as (g & w' & E); [right; split; assumption |].
    exists g, w'. split; [exact E |].
    apply GPT_new_obj in E. destruct E as [-> _].
    unfold gpt_obj. cbn. now rewrite length_map, length_seq. }
  unfold pretrained_config. cbn [existsb].
  destruct (String.eqb_spec model_type "gpt2") as [-> | N1].
  { pretrained_case built. }
  destruct (String.eqb_spec model_type "gpt2-medium") as [-> | N2].
  { pretrained_case built. }
  destruct (String.eqb_spec model_type "gpt2-large") as [-> | N3].
  { pretrained_case built. }
  destruct (String.eqb_spec model_type "gpt2-xl") as [-> | N4].
  { pretrained_case built. }
  cbn [bind py_assert orb]. split; [reflexivity |].
  intros [H | [H | [H | [H | []]]]]; congruence.
Qed.
End PretrainedFacts.

(** ** The HellaSwag evaluation across processes *)

Section HellaSwagFacts.
Variable example : Type.
Variable correct : example -> bool.

Lemma nat_sum_indicator_seq (n s k a : nat) :
  nat_sum (map (fun r => if (k =? r)%nat then a else 0%nat) (seq s n))
  = if ((s <=? k) && (k <? s + n))%nat then a else 0%nat.
Proof.
  revert s. induction n as [| n IH]; intros s.
  - simpl. destruct (Nat.leb_spec s k), (Nat.ltb_spec k (s + 0)); simpl;
      try reflexivity; lia.
  - cbn [seq map]. unfold nat_sum in *. cbn [fold_right]. rewrite IH.
    destruct (Nat.eqb_spec k s), (Nat.leb_spec (S s) k),
      (Nat.ltb_spec k (S s + n)), (Nat.leb_spec s k),
      (Nat.ltb_spec k (s + S n)); simpl; lia.
Qed.

Lemma nat_sum_indicator (W k a : nat) :
  (k < W)%nat ->
  nat_sum (map (fun r => if (k =? r)%nat then a else 0%nat) (seq 0 W)) = a.
Proof.
  intros H. rewrite nat_sum_indicator_seq.
  destruct (Nat.leb_spec 0 k), (Nat.ltb_spec k (0 + W)); simpl;
    try reflexivity; lia.
Qed.

(** The examples one process counts, and those it counts as correct. *)
Lemma count_examples_ok (W rank : nat) (examples : list example) :
  (0 < W)%nat ->
  forall i c t,
    count_examples example correct W rank i examples c t
    = Ok ((c + nat_sum (imap_from
                          (fun j e =>
                             if (j mod W =? rank)%nat
                             then (if correct e then 1 else 0)
                             else 0)%nat i examples))%nat,
          (t + nat_sum (imap_from
                          (fun j e => if (j mod W =? rank)%nat then 1 else 0)%nat
                          i examples))%nat).
Proof.
  intros HW. induction examples as [| e examples IH]; intros i c t.
  - simpl. now rewrite !Nat.add_0_r.
  - cbn [count_examples imap_from nat_sum fold_right].
    destruct (Nat.eqb_spec W 0) as [| _]; [lia |].
    destruct (i mod W =? rank)%nat; cbn [negb]; rewrite IH; unfold nat_sum;
      do 2 f_equal; lia.
Qed.

Lemma nat_sum_map_add {A : Type} (g h : A -> nat) (l : list A) :
  nat_sum (map (fun r => g r + h r)%nat l)
  = (nat_sum (map g l) + nat_sum (map h l))%nat.
Proof.
  unfold nat_sum. induction l as [| r l IH]; [reflexivity |].
  cbn [map fold_right]. rewrite IH. lia.
Qed.

Lemma nat_sum_ranks (W : nat) (f : nat -> example -> nat)
      (examples : list example) :
  (0 < W)%nat ->
  forall i,
    nat_sum (map (fun rank =>
                    nat_sum (imap_from
                               (fun j e => if (j mod W =? rank)%nat
                                           then f j e else 0%nat)
                               i examples))
                 (seq 0 W))
    = nat_sum (imap_from f i examples).
Proof.
  intros HW. induction examples as [| e examples IH]; intros i.
  - cbn [imap_from nat_sum fold_right]. clear.
    induction (seq 0 W) as [| r l IHl]; [reflexivity | exact IHl].
  - cbn [imap_from].
    transitivity
      (nat_sum
         (map (fun rank =>
                 (if (i mod W =? rank)%nat then f i e else 0%nat)
                 + nat_sum (imap_from
                              (fun j e => if (j mod W =? rank)%nat
                                          then f j e else 0%nat)
                              (S i) examples))%nat
              (seq 0 W))); [reflexivity |].
    rewrite nat_sum_map_add, IH.
    rewrite nat_sum_indicator by (apply Nat.mod_upper_bound; lia).
    reflexivity.
Qed.

Lemma nat_sum_single (f : nat -> example -> nat) (examples : list example) :
  forall i,
    nat_sum (imap_from (fun j e => if (j mod 1 =? 0)%nat then f j e else 0%nat)
                       i examples)
    = nat_sum (imap_from f i examples).
Proof.
  induction examples as [| e examples IH]; intros i; [reflexivity |].
  cbn [imap_from]. unfold nat_sum in *. cbn [fold_right].
  rewrite IH, Nat.mod_1_r. reflexivity.
Qed.

(** X20: a DDP evaluation over [ddp_world_size >= 1] processes reports on
    every process what a single process reports: each example is counted
    by exactly one process, so after the two sums the counters are the
    number of correctly predicted examples and the number of all examples,
    and the accuracy is their quotient; with no example at all the
    division raises [ZeroDivisionError]. *)
Theorem evaluate_hellaswag_ddp (ddp_world_size ddp_rank : nat)
        (examples : list example) :
  (0 < ddp_world_size)%nat ->
  let num_correct := length (filter correct examples) in
  let num_total := length examples in
  evaluate_hellaswag example correct true ddp_world_size ddp_rank examples
  = evaluate_hellaswag example correct false 1 0 examples
  /\ evaluate_hellaswag example correct false 1 0 examples
     = if (num_total =? 0)%nat then Raise ZeroDivisionError
       else Ok (num_correct, num_total, INR num_correct / INR num_total).
Proof.
  intros HW num_correct num_total.
  assert (Ecorrect : forall i,
             nat_sum (imap_from (fun (_ : nat) e =>
                                   if correct e then 1 else 0)%nat i examples)
             = num_correct).
  { unfold num_correct. clear. induction examples as [| e l IH]; intros i;
      [reflexivity |].
    cbn [imap_from filter]. unfold nat_sum in *. cbn [fold_right].
    rewrite IH. now destruct (correct e). }
  assert (Etotal : forall i,
             nat_sum (imap_from (fun (_ : nat) (_ : example) => 1%nat) i examples)
             = num_total).
  { unfold num_total. clear. induction examples as [| e l IH]; intros i;
      [reflexivity |].
    cbn [imap_from length]. unfold nat_sum in *. cbn [fold_right].
    now rewrite IH. }
  assert (Single :
            evaluate_hellaswag example correct false 1 0 examples
            = (acc_norm <- py_truediv (INR num_correct) (Z.of_nat num_total) ;;
               Ok (num_correct, num_total, acc_norm))).
  { unfold evaluate_hellaswag.
    rewrite count_examples_ok by lia. cbn [bind].
    rewrite (nat_sum_single (fun _ e => if correct e then 1 else 0)%nat).
    rewrite (nat_sum_single (fun _ _ => 1%nat)).
    now rewrite Ecorrect, Etotal. }
  split.
  - rewrite Single. unfold evaluate_hellaswag.
    rewrite count_examples_ok by assumption. cbn [bind].
    rewrite (mapM_total _ (fun rank =>
               ((0 + nat_sum (imap_from
                               (fun j e =>
                                  if (j mod ddp_world_size =? rank)%nat
                                  then (if correct e then 1 else 0)
                                  else 0)%nat 0 examples))%nat,
                (0 + nat_sum (imap_from
                               (fun j e =>
                                  if (j mod ddp_world_size =? rank)%nat
                                  then 1 else 0)%nat 0 examples))%nat)))
      by (apply Forall_forall; intros rank _;
          now apply count_examples_ok).
    cbn [bind]. rewrite !map_map. cbn [fst snd]. cbn [Nat.add].
    rewrite (nat_sum_ranks ddp_world_size
               (fun _ e => if correct e then 1 else 0)%nat examples HW 0).
    rewrite (nat_sum_ranks ddp_world_size (fun _ _ => 1%nat) examples HW 0).
    now rewrite Ecorrect, Etotal.
  - rewrite Single. unfold py_truediv.
    destruct (Nat.eqb_spec num_total 0) as [E | NE].
    + rewrite E. reflexivity.
    + destruct (Z.eqb_spec (Z.of_nat num_total) 0) as [| _]; [lia |].
      cbn [bind]. now rewrite <- INR_IZR_INZ.
Qed.
End HellaSwagFacts.

Lemma evaluate_hellaswag_ddp_witness :
  evaluate_hellaswag bool (fun b => b) true 2 1 [true; false; true]
  = evaluate_hellaswag bool (fun b => b) false 1 0 [true; false; true].
Proof.
  apply (evaluate_hellaswag_ddp bool (fun b => b) 2 1 [true; false; true]).
  lia.
Defined.

(** ** The parameters of a constructed model *)

Lemma append_assoc (a b c : string) : ((a ++ b) ++ c = a ++ (b ++ c))%string.
Proof. induction a as [| x a IH]; simpl; [reflexivity | now rewrite IH]. Qed.

Lemma append_inj_l (p a b : string) : (p ++ a = p ++ b)%string -> a = b.
Proof.
  induction p as [| x p IH]; simpl; intros H; [exact H |].
  inversion H. auto.
Qed.

Lemma digits_split (d d' : Decimal.uint) (a b : string) :
  (NilEmpty.string_of_uint d ++ "." ++ a
   = NilEmpty.string_of_uint d' ++ "." ++ b)%string ->
  NilEmpty.string_of_uint d = NilEmpty.string_of_uint d' /\ a = b.
Proof.
  revert d'. induction d as [| d IH | d IH | d IH | d IH | d IH | d IH
                             | d IH | d IH | d IH | d IH];
    intros [| d' | d' | d' | d' | d' | d' | d' | d' | d' | d']; simpl;
    intros H; try discriminate;
    try (injection H as H; destruct (IH d' H) as [-> ->]; now split).
  injection H as ->. now split.
Qed.

Lemma string_of_nat_digits (n : nat) :
  string_of_nat n = NilEmpty.string_of_uint (Nat.to_uint n).
Proof.
  unfold string_of_nat, NilZero.string_of_uint.
  destruct (Nat.to_uint n) eqn:E; try reflexivity.
  pose proof (DecimalNat.Unsigned.of_to n) as H. rewrite E in H.
  simpl in H. subst n. discriminate.
Qed.

Lemma string_of_nat_inj (i j : nat) :
  string_of_nat i = string_of_nat j -> i = j.
Proof.
  rewrite !string_of_nat_digits. intros H.
  apply DecimalNat.Unsigned.to_uint_inj.
  pose proof (NilEmpty.usu (Nat.to_uint i)) as Hi.
  pose proof (NilEmpty.usu (Nat.to_uint j)) as Hj.
  rewrite H in Hi. congruence.
Qed.

Lemma layer_name_inj (i j : nat) (a b : string) :
  ("transformer.h." ++ string_of_nat i ++ "." ++ a
   = "transformer.h." ++ string_of_nat j ++ "." ++ b)%string ->
  i = j /\ a = b.
Proof.
  intros H. apply append_inj_l in H.
  rewrite !string_of_nat_digits in H.
  apply digits_split in H. destruct H as [H ->].
  rewrite <- !string_of_nat_digits in H.
  split; [now apply string_of_nat_inj | reflexivity].
Qed.

Lemma imap_from_map_seq {A B : Type} (f : nat -> A -> B) (g : nat -> A)
      (n s : nat) :
  imap_from f s (map g (seq s n)) = map (fun i => f i (g i)) (seq s n).
Proof.
  revert s. induction n as [| n IH]; intros s; simpl; [reflexivity |].
  now rewrite IH.
Qed.

Lemma NoDup_concat_map_seq {A : Type} (f : nat -> list A) (n s : nat) :
  (forall i, NoDup (f i)) ->
  (forall i j x, In x (f i) -> In x (f j) -> i = j) ->
  NoDup (concat (map f (seq s n))).
Proof.
  intros Hf Hd. revert s. induction n as [| n IH]; intros s; simpl.
  - constructor.
  - apply NoDup_app; [apply Hf | apply IH |].
    intros x Hx Hin. apply in_concat in Hin. destruct Hin as (l & Hl & Hxl).
    apply in_map_iff in Hl. destruct Hl as (j & <- & Hj).
    apply in_seq in Hj. pose proof (Hd s j x Hx Hxl). lia.
Qed.

Lemma NoDup_map_inj {A B : Type} (f : A -> B) (l : list A) :
  (forall a b, In a l -> In b l -> f a = f b -> a = b) ->
  NoDup l -> NoDup (map f l).
Proof.
  intros Hinj H. induction H as [| a l Ha Hl IH]; simpl; constructor.
  - intros Hin. apply in_map_iff in Hin. destruct Hin as (b & E & Hb).
    assert (b = a) by (apply Hinj; [now right | now left | exact E]).
    now subst b.
  - apply IH. intros x y Hx Hy. apply Hinj; now right.
Qed.

Lemma remove_duplicate_seen (seen : list param_id)
      (l : list (string * Param.t)) :
  (forall np, In np l -> In (Param.id (snd np)) seen) ->
  remove_duplicate seen l = [].
Proof.
  induction l as [| [name p] l IH]; intros H; simpl; [reflexivity |].
  destruct (in_dec param_id_eq_dec (Param.id p) seen) as [_ | N].
  - apply IH. intros np Hnp. apply H. now right.
  - exfalso. apply N. apply (H (name, p)). now left.
Qed.

Lemma remove_duplicate_tied (l1 l2 : list (string * Param.t)) :
  forall seen,
    NoDup (map (fun np => Param.id (snd np)) l1) ->
    (forall np, In np l1 -> ~ In (Param.id (snd np)) seen) ->
    (forall np, In np l2 ->
                In (Param.id (snd np)) seen
                \/ In (Param.id (snd np)) (map (fun np => Param.id (snd np)) l1)) ->
    remove_duplicate seen (l1 ++ l2) = l1.
Proof.
  induction l1 as [| [name p] l1 IH]; intros seen Hnd Hnew Hold; simpl.
  - apply remove_duplicate_seen. intros np Hnp.
    destruct (Hold np Hnp) as [H | []]. exact H.
  - destruct (in_dec param_id_eq_dec (Param.id p) seen) as [Hin | _].
    + exfalso. apply (Hnew (name, p)); [now left | exact Hin].
    + f_equal. inversion Hnd as [| ? ? Hp Hnd']. subst. apply IH.
      * exact Hnd'.
      * intros np Hnp [E | Hin].
        -- apply Hp. apply in_map_iff. exists np. split; [now symmetry | exact Hnp].
        -- apply (Hnew np); [now right | exact Hin].
      * intros np Hnp. destruct (Hold np Hnp) as [H | [H | H]].
        -- left. now right.
        -- left. now left.
        -- now right.
Qed.

(** The parameters of block [i] under their names. *)
Lemma block_entries_ids (config : GPTConfig.t) (i : nat) :
  map (fun np => Param.id (snd np))
      (block_params ("transformer.h." ++ string_of_nat i ++ ".")
                    (block_obj config i))
  = map (h_param i)
        [ln_1_weight; ln_1_bias; attn_c_attn_weight; attn_c_attn_bias;
         attn_c_proj_weight; attn_c_proj_bias; ln_2_weight; ln_2_bias;
         mlp_c_fc_weight; mlp_c_fc_bias; mlp_c_proj_weight; mlp_c_proj_bias].
Proof. reflexivity. Qed.

Lemma block_entries_names (config : GPTConfig.t) (i : nat) :
  map fst (block_params ("transformer.h." ++ string_of_nat i ++ ".")
                        (block_obj config i))
  = map (fun suffix => "transformer.h." ++ string_of_nat i ++ "." ++ suffix)%string
        ["ln_1.weight"; "ln_1.bias"; "attn.c_attn.weight"; "attn.c_attn.bias";
         "attn.c_proj.weight"; "attn.c_proj.bias"; "ln_2.weight"; "ln_2.bias";
         "mlp.c_fc.weight"; "mlp.c_fc.bias"; "mlp.c_proj.weight";
         "mlp.c_proj.bias"]%string.
Proof.
  unfold block_params, layer_norm_params, linear_params, block_obj.
  cbn [Obj.Block.ln_1 Obj.Block.attn Obj.Block.ln_2 Obj.Block.mlp
       Obj.CausalSelfAttention.c_attn Obj.CausalSelfAttention.c_proj
       Obj.MLP.c_fc Obj.MLP.c_proj Obj.Linear.bias linear_obj option_map
       app map fst].
  rewrite !append_assoc. reflexivity.
Qed.

Lemma filter_concat_map {A B : Type} (f : B -> bool) (F : A -> list B)
      (l : list A) :
  filter f (concat (map F l)) = concat (map (fun i => filter f (F i)) l).
Proof.
  induction l as [| a l IH]; simpl; [reflexivity |].
  now rewrite filter_app, IH.
Qed.

Lemma map_concat_map {A B C : Type} (g : B -> C) (F : A -> list B)
      (l : list A) :
  map g (concat (map F l)) = concat (map (fun i => map g (F i)) l).
Proof.
  induction l as [| a l IH]; simpl; [reflexivity |].
  now rewrite map_app, IH.
Qed.

Lemma nat_sum_app (l1 l2 : list nat) :
  nat_sum (l1 ++ l2) = (nat_sum l1 + nat_sum l2)%nat.
Proof.
  unfold nat_sum. induction l1 as [| a l1 IH]; simpl; [reflexivity |].
  rewrite IH. lia.
Qed.

Lemma nat_sum_concat_const {A : Type} (F : A -> list nat) (c : nat)
      (l : list A) :
  (forall i, nat_sum (F i) = c) ->
  nat_sum (concat (map F l)) = (length l * c)%nat.
Proof.
  intros H. induction l as [| a l IH]; simpl; [reflexivity |].
  now rewrite nat_sum_app, IH, H.
Qed.

Lemma length_concat_const {A B : Type} (F : A -> list B) (c : nat)
      (l : list A) :
  (forall i, length (F i) = c) ->
  length (concat (map F l)) = (length l * c)%nat.
Proof.
  intros H. induction l as [| a l IH]; simpl; [reflexivity |].
  now rewrite length_app, IH, H.
Qed.

Lemma in_block_ids (config : GPTConfig.t) (l : list nat) (x : param_id) :
  In x (concat
          (map (fun i =>
                  map (fun np => Param.id (snd np))
                      (block_params ("transformer.h." ++ string_of_nat i ++ ".")
                                    (block_obj config i))) l)) ->
  exists i p, x = h_param i p.
Proof.
  intros H. apply in_concat in H. destruct H as (ids & Hids & Hx).
  apply in_map_iff in Hids. destruct Hids as (i & <- & _).
  rewrite block_entries_ids in Hx. apply in_map_iff in Hx.
  destruct Hx as (p & <- & _). now exists i, p.
Qed.

Lemma in_block_names (config : GPTConfig.t) (l : list nat) (x : string) :
  In x (concat
          (map (fun i =>
                  map fst
                      (block_params ("transformer.h." ++ string_of_nat i ++ ".")
                                    (block_obj config i))) l)) ->
  exists i suffix,
    x = ("transformer.h." ++ string_of_nat i ++ "." ++ suffix)%string.
Proof.
  intros H. apply in_concat in H. destruct H as (names & Hn & Hx).
  apply in_map_iff in Hn. destruct Hn as (i & <- & _).
  rewrite block_entries_names in Hx. apply in_map_iff in Hx.
  destruct Hx as (suffix & <- & _). now exists i, suffix.
Qed.

Lemma constructed_ids_NoDup (config : GPTConfig.t) :
  NoDup (map (fun np : string * Param.t => Param.id (snd np))
             ([("transformer.wte.weight"%string,
                Param.new lm_head_weight
                          [GPTConfig.vocab_size config; GPTConfig.n_embed config]);
               ("transformer.wpe.weight"%string,
                Param.new wpe_weight
                          [GPTConfig.block_size config; GPTConfig.n_embed config])]
              ++ concat (map (fun i =>
                                block_params
                                  ("transformer.h." ++ string_of_nat i ++ ".")
                                  (block_obj config i))
                             (seq 0 (GPTConfig.n_layer config)))
              ++ layer_norm_params "transformer.ln_f."
                   (layer_norm_obj ln_f_weight ln_f_bias
                                   (GPTConfig.n_embed config)))).
Proof.
  rewrite !map_app, map_concat_map.
  cbn [map snd Param.id Param.new layer_norm_params
       layer_norm_obj Obj.LayerNorm.weight Obj.LayerNorm.bias app].
  constructor.
  { intros [H | H]; [discriminate |]. apply in_app_or in H.
    destruct H as [H | [H | [H | []]]]; try discriminate.
    apply in_block_ids in H. destruct H as (i & p & H). discriminate. }
  constructor.
  { intros H. apply in_app_or in H.
    destruct H as [H | [H | [H | []]]]; try discriminate.
    apply in_block_ids in H. destruct H as (i & p & H). discriminate. }
  apply NoDup_app.
  - apply NoDup_concat_map_seq.
    + intros i. rewrite block_entries_ids.
      apply NoDup_map_inj; [intros a b _ _ H; now inversion H |].
      repeat constructor; simpl; intuition discriminate.
    + intros i j x Hi Hj. rewrite block_entries_ids in Hi, Hj.
      apply in_map_iff in Hi, Hj.
      destruct Hi as (p & <- & _). destruct Hj as (q & E & _).
      now inversion E.
  - repeat constructor; simpl; intuition discriminate.
  - intros x Hx [H | [H | []]]; subst x;
      apply in_block_ids in Hx; destruct Hx as (i & p & H); discriminate.
Qed.

(** [named_parameters] of a constructed model: the two embeddings, the
    twelve parameters of every block and the final layer norm; the output
    projection's weight is the token embedding's and is not listed again. *)
Lemma named_parameters_gpt_obj (config : GPTConfig.t) :
  named_parameters (gpt_obj config)
  = [("transformer.wte.weight"%string,
      Param.new lm_head_weight
                [GPTConfig.vocab_size config; GPTConfig.n_embed config]);
     ("transformer.wpe.weight"%string,
      Param.new wpe_weight
                [GPTConfig.block_size config; GPTConfig.n_embed config])]
    ++ concat (map (fun i =>
                      block_params ("transformer.h." ++ string_of_nat i ++ ".")
                                   (block_obj config i))
                   (seq 0 (GPTConfig.n_layer config)))
    ++ layer_norm_params "transformer.ln_f."
         (layer_norm_obj ln_f_weight ln_f_bias (GPTConfig.n_embed config)).
Proof.
  unfold named_parameters, gpt_obj.
  cbn [Obj.GPT.wte Obj.GPT.wpe Obj.GPT.h Obj.GPT.ln_f Obj.GPT.lm_head
       Obj.Embedding.weight Obj.Linear.weight linear_obj].
  unfold imap. rewrite imap_from_map_seq.
  pose proof (constructed_ids_NoDup config) as ND.
  set (blocks := concat (map (fun i => block_params _ (block_obj config i)) _))
    in *.
  set (head := [_; _]) in *.
  set (ln_f := layer_norm_params _ _) in *.
  replace (head ++ blocks ++ ln_f ++ linear_params "lm_head." _)
    with ((head ++ blocks ++ ln_f) ++ linear_params "lm_head."
            (linear_obj lm_head_weight None (GPTConfig.n_embed config)
                        (GPTConfig.vocab_size config) false))
    by (now rewrite <- !app_assoc).
  apply remove_duplicate_tied.
  - exact ND.
  - intros np _ [].
  - intros np [<- | []]. right. now left.
Qed.

Lemma named_parameters_names_NoDup (config : GPTConfig.t) :
  NoDup (map fst (named_parameters (gpt_obj config))).
Proof.
  rewrite named_parameters_gpt_obj, !map_app, map_concat_map.
  cbn [map fst layer_norm_params app].
  constructor.
  { intros [H | H]; [discriminate |]. apply in_app_or in H.
    destruct H as [H | [H | [H | []]]]; try discriminate.
    apply in_block_names in H. destruct H as (i & suffix & H). discriminate. }
  constructor.
  { intros H. apply in_app_or in H.
    destruct H as [H | [H | [H | []]]]; try discriminate.
    apply in_block_names in H. destruct H as (i & suffix & H). discriminate. }
  apply NoDup_app.
  - apply NoDup_concat_map_seq.
    + intros i. rewrite block_entries_names.
      apply NoDup_map_inj.
      * intros a b _ _ H. now apply layer_name_inj in H.
      * repeat constructor; simpl; intuition discriminate.
    + intros i j x Hi Hj. rewrite block_entries_names in Hi, Hj.
      apply in_map_iff in Hi, Hj.
      destruct Hi as (a & <- & _). destruct Hj as (b & E & _).
      apply layer_name_inj in E. destruct E as [E _]. now symmetry.
  - repeat constructor; simpl; intuition discriminate.
  - intros x Hx [H | [H | []]]; subst x;
      apply in_block_names in Hx; destruct Hx as (i & suffix & H); discriminate.
Qed.

Lemma configure_optimizers_for_groups (named : list (string * Param.t))
      (weight_decay learning_rate : R) (device_type : string) :
  0 <= learning_rate ->
  exists opt,
    configure_optimizers_for named weight_decay learning_rate device_type
                             true = Ok opt
    /\ map AdamW.params (AdamW.param_groups opt)
       = [filter (fun p => (2 <=? Param.dim p)%nat) (trainable named);
          filter (fun p => (Param.dim p <? 2)%nat) (trainable named)].
Proof.
  intros Hlr.
  unfold configure_optimizers_for.
  rewrite AdamW_new_ok by exact Hlr.
  eexists. split; [reflexivity |].
  cbn [AdamW.param_groups map AdamW.params fst snd]. unfold trainable.
  rewrite !(map_snd_filter (fun p => (2 <=? Param.dim p)%nat)).
  rewrite !(map_snd_filter (fun p => (Param.dim p <? 2)%nat)).
  rewrite !(map_snd_filter Param.requires_grad).
  reflexivity.
Qed.

Lemma trainable_gpt_obj (config : GPTConfig.t) :
  trainable (named_parameters (gpt_obj config))
  = [Param.new lm_head_weight
               [GPTConfig.vocab_size config; GPTConfig.n_embed config];
     Param.new wpe_weight
               [GPTConfig.block_size config; GPTConfig.n_embed config]]
    ++ concat (map (fun i =>
                      map snd
                          (block_params
                             ("transformer.h." ++ string_of_nat i ++ ".")
                             (block_obj config i)))
                   (seq 0 (GPTConfig.n_layer config)))
    ++ [Param.new ln_f_weight [GPTConfig.n_embed config];
        Param.new ln_f_bias [GPTConfig.n_embed config]].
Proof.
  unfold trainable.
  rewrite dict_of_nodup by apply named_parameters_names_NoDup.
  rewrite named_parameters_gpt_obj, !map_app, map_concat_map.
  rewrite !filter_app, filter_concat_map.
  reflexivity.
Qed.

Section ParameterCounts.
Variable generator : Type.
Variable normal_sample : generator -> nat -> R -> R -> list R * generator.
Variable uniform_sample : generator -> nat -> R -> R -> list R * generator.

(** X21: the optimizer of a constructed model, where the installed AdamW
    has the [fused] option (without it the call of AdamW is a TypeError) and
    the learning rate is not negative.  With [L = n_layer],
    [C = n_embed], [V = vocab_size] and [T = block_size], the group with
    weight decay holds [4 * L + 2] tensors with [V * C + T * C + 12 * L * C^2]
    entries, and the group without holds [8 * L + 2] tensors with
    [13 * L * C + 2 * C] entries; every parameter object is in one group
    once, the tied embedding and output matrix among them a single time. *)
Theorem configure_optimizers_counts (config : GPTConfig.t)
        (w w' : world generator) (g : Obj.GPT.t)
        (weight_decay learning_rate : R) (device_type : string)
        (fused_available : bool) :
  GPT_new generator normal_sample uniform_sample config w = Ok (g, w') ->
  0 <= learning_rate ->
  fused_available = true ->
  let L := GPTConfig.n_layer config in
  let C := GPTConfig.n_embed config in
  let V := GPTConfig.vocab_size config in
  let T := GPTConfig.block_size config in
  exists opt decay nodecay,
    configure_optimizers g weight_decay learning_rate device_type
                         fused_available = Ok opt
    /\ map AdamW.params (AdamW.param_groups opt) = [decay; nodecay]
    /\ length decay = (4 * L + 2)%nat
    /\ length nodecay = (8 * L + 2)%nat
    /\ nat_sum (map Param.numel decay) = (V * C + T * C + 12 * L * (C * C))%nat
    /\ nat_sum (map Param.numel nodecay) = (13 * L * C + 2 * C)%nat
    /\ NoDup (map Param.id (decay ++ nodecay)).
Proof.
  intros Hnew Hlr -> L C V T.
  apply GPT_new_obj in Hnew. destruct Hnew as [-> _].
  destruct (configure_optimizers_for_groups
              (named_parameters (gpt_obj config)) weight_decay learning_rate
              device_type Hlr) as (opt & E & G).
  exists opt. do 2 eexists. split; [exact E |]. split; [exact G |].
  assert (ND : NoDup (map Param.id
                          (filter (fun p => (2 <=? Param.dim p)%nat)
                                  (trainable (named_parameters (gpt_obj config)))
                           ++ filter (fun p => (Param.dim p <? 2)%nat)
                                (trainable (named_parameters (gpt_obj config)))))).
  { apply (Permutation_NoDup
             (l := map Param.id (trainable (named_parameters (gpt_obj config))))).
    - apply Permutation_map. symmetry.
      apply filter_split_permutation, dim_lt_2_negb.
    - unfold trainable.
      rewrite dict_of_nodup by apply named_parameters_names_NoDup.
      rewrite <- map_snd_filter, map_map.
      rewrite named_parameters_gpt_obj.
      rewrite !filter_app, filter_concat_map.
      apply constructed_ids_NoDup. }
  revert ND.
  rewrite trainable_gpt_obj. rewrite !filter_app, !filter_concat_map.
  cbn [filter Param.dim Param.new Param.shape length Nat.leb Nat.ltb app].
  fold L C V T. intros ND.
  split; [| split; [| split; [| split; [| exact ND]]]].
  - cbn [length]. rewrite length_app, (length_concat_const _ 4) by reflexivity.
    rewrite length_seq. simpl. lia.
  - rewrite length_app, (length_concat_const _ 8) by reflexivity.
    rewrite length_seq. simpl. lia.
  - rewrite app_nil_r. cbn [map]. rewrite map_concat_map.
    unfold nat_sum at 1. cbn [fold_right]. fold (nat_sum).
    rewrite (nat_sum_concat_const _ (12 * (C * C))).
    + rewrite length_seq. cbn. lia.
    + intros i. unfold nat_sum. cbn. fold C. lia.
  - rewrite map_app, map_concat_map, nat_sum_app.
    rewrite (nat_sum_concat_const _ (13 * C)).
    + rewrite length_seq. unfold nat_sum. cbn. fold C. lia.
    + intros i. unfold nat_sum. cbn. fold C. lia.
Qed.
End ParameterCounts.

Lemma configure_optimizers_counts_witness :
  exists g w' opt decay nodecay,
    GPT_new unit Fixture.constant_sample Fixture.constant_sample
            Fixture.tiny_config Fixture.world0 = Ok (g, w')
    /\ configure_optimizers g 0.1 6e-4 "cuda" true = Ok opt
    /\ map AdamW.params (AdamW.param_groups opt) = [decay; nodecay]
    /\ length decay = 6%nat /\ length nodecay = 10%nat.
Proof.
  destruct (GPT_new_ok unit Fixture.constant_sample Fixture.constant_sample
              Fixture.tiny_config Fixture.world0) as (g & w' & E).
  { right. split; [discriminate | reflexivity]. }
  destruct (configure_optimizers_counts
              unit Fixture.constant_sample Fixture.constant_sample
              Fixture.tiny_config Fixture.world0 w' g 0.1 6e-4 "cuda" true E)
    as (opt & decay & nodecay & Eopt & G & Ld & Ln & _).
  { lra. }
  { reflexivity. }
  exists g, w', opt, decay, nodecay.
  repeat split; assumption.
Defined.

(** ** Sampling from the model *)

Lemma attempt_mapM_total {A B : Type} (f : A -> attempt B) (g : A -> B)
      (l : list A) :
  Forall (fun a => f a = Done (g a)) l -> attempt_mapM f l = Done (map g l).
Proof.
  induction 1 as [| a l Ha _ IH]; simpl; [reflexivity |].
  now rewrite Ha, IH.
Qed.

Lemma last_in {A : Type} (l : list A) (d : A) : l <> [] -> In (last l d) l.
Proof.
  induction l as [| a l IH]; intros H; [congruence |].
  destruct l as [| b l]; [now left |].
  right. apply IH. discriminate.
Qed.

Lemma firstn_snoc {A : Type} (l : list A) (x : A) :
  firstn (length l) (l ++ [x]) = l.
Proof.
  rewrite firstn_app, Nat.sub_diag, firstn_all. simpl. apply app_nil_r.
Qed.

Section GenerationFacts.
Variable sample_rng : Type.
Variable topk : list R -> nat -> list R * list nat.
Variable multinomial : list (list R) -> sample_rng -> list nat * sample_rng.

(** What the development uses of the library's samplers: [topk] returns
    [k] values and [k] indices of the row when the row has [k] entries,
    and [multinomial] draws in every row a position of the row. *)
Hypothesis topk_indices :
  forall (row : list R) (k : nat),
    (k <= length row)%nat ->
    length (fst (topk row k)) = k
    /\ length (snd (topk row k)) = k
    /\ Forall (fun i => (i < length row)%nat) (snd (topk row k)).
Hypothesis multinomial_positions :
  forall (probs : list (list R)) (rng : sample_rng),
    Forall (fun row => (0 < length row)%nat) probs ->
    Forall2 (fun row ix => (ix < length row)%nat)
            probs (fst (multinomial probs rng)).

(** The state of the loop: a rectangular batch of ids of the vocabulary
    with at least one column. *)
Lemma generate_step_ok (m : GPT.t) (xgen : LongTensor) (rng : sample_rng) :
  GPT.shaped m ->
  well_formed xgen ->
  valid_ids (GPTConfig.vocab_size (GPT.config m)) xgen ->
  (1 <= size1 xgen <= GPTConfig.block_size (GPT.config m))%nat ->
  (50 <= GPTConfig.vocab_size (GPT.config m))%nat ->
  exists xgen' rng',
    generate_step sample_rng topk multinomial m xgen rng = Done (xgen', rng')
    /\ size1 xgen' = (size1 xgen + 1)%nat
    /\ well_formed xgen'
    /\ valid_ids (GPTConfig.vocab_size (GPT.config m)) xgen'
    /\ map (firstn (size1 xgen)) (rows xgen') = rows xgen.
Proof.
  intros Hm Hw Hv [HT1 HT] HV.
  set (V := GPTConfig.vocab_size (GPT.config m)) in *.
  unfold generate_step.
  rewrite (forward_no_targets m xgen Hm Hv HT). cbn [lift attempt_bind fst].
  destruct (logits_of_shape m xgen Hm Hw) as [LB Hshape]. fold V in Hshape.
  rewrite (attempt_mapM_total _ (fun xb => last xb [])).
  2:{ eapply Forall_impl; [| exact Hshape]. intros xb [L _].
      destruct xb; [simpl in L; lia | reflexivity]. }
  cbn [attempt_bind].
  assert (LV : length (Linear.weight (GPT.lm_head m)) = V).
  { destruct Hm as (_ & _ & _ & _ & _ & (LW & _) & _). exact LW. }
  rewrite LV. destruct (Nat.ltb_spec V 50) as [| _]; [lia |].
  set (probs := map (fun row => softmax (map Finite row))
                    (map (fun xb => last xb []) (logits_of m xgen))).
  assert (Hprobs : Forall (fun row => length row = V) probs).
  { unfold probs. rewrite map_map. apply Forall_forall. intros row Hrow.
    apply in_map_iff in Hrow. destruct Hrow as (xb & <- & Hxb).
    rewrite length_softmax, length_map.
    rewrite Forall_forall in Hshape. destruct (Hshape xb Hxb) as [L HVs].
    rewrite Forall_forall in HVs. apply HVs. apply last_in.
    destruct xb; [simpl in L; lia | discriminate]. }
  assert (Lprobs : length probs = length (rows xgen)).
  { unfold probs. rewrite !length_map. exact LB. }
  set (top := map (fun row => topk row 50) probs).
  assert (Htop : Forall (fun t => length (fst t) = 50%nat
                                  /\ length (snd t) = 50%nat
                                  /\ Forall (fun i => (i < V)%nat) (snd t)) top).
  { unfold top. apply Forall_forall. intros t Ht. apply in_map_iff in Ht.
    destruct Ht as (row & <- & Hrow).
    rewrite Forall_forall in Hprobs. specialize (Hprobs row Hrow).
    destruct (topk_indices row 50) as (L1 & L2 & Hi); [lia |].
    rewrite Hprobs in Hi. now repeat split. }
  pose proof (multinomial_positions (map fst top) rng) as Hix.
  destruct (multinomial (map fst top) rng) as [ix rng'] eqn:Emul.
  cbn [fst] in Hix.
  assert (Hpos : Forall (fun row => (0 < length row)%nat) (map fst top)).
  { apply Forall_forall. intros row Hrow. apply in_map_iff in Hrow.
    destruct Hrow as (t & <- & Ht). rewrite Forall_forall in Htop.
    destruct (Htop t Ht) as [L _]. lia. }
  specialize (Hix Hpos).
  assert (Lix : length ix = length top).
  { apply Forall2_length in Hix. now rewrite length_map in Hix. }
  rewrite length_map, Lix, Nat.eqb_refl. cbn [negb].
  (* the gathered column *)
  assert (Hcol : exists xcol,
             attempt_mapM (fun ii => gather_row (fst ii) (snd ii))
                          (combine (map snd top) ix) = Done xcol
             /\ length xcol = length top
             /\ Forall (fun id => (0 <= id < Z.of_nat V)%Z) xcol).
  { clear Emul Hpos Lix. revert ix Hix Htop.
    generalize top. clear. intros top.
    induction top as [| t top IH]; intros ix Hix Htop.
    - exists []. repeat split; constructor.
    - inversion Hix as [| ? i ? ix' Hi Hix' ]. subst.
      inversion Htop as [| ? ? (L1 & L2 & Hr) Htop']. subst.
      destruct (IH ix' Hix' Htop') as (xcol & E & L & Hxcol).
      cbn [map combine attempt_mapM fst snd]. unfold gather_row at 1.
      destruct (nth_error (snd t) i) as [j |] eqn:Ej.
      + cbn [attempt_bind]. rewrite E. cbn [attempt_bind].
        exists (Z.of_nat j :: xcol). split; [reflexivity |].
        split; [simpl; now rewrite L |]. constructor; [| exact Hxcol].
        rewrite Forall_forall in Hr.
        pose proof (Hr j (nth_error_In _ _ Ej)). lia.
      + apply nth_error_None in Ej. lia. }
  destruct Hcol as (xcol & Ecol & Lcol & Hxcol).
  rewrite Ecol. cbn [attempt_bind].
  assert (Lrows : length xcol = length (rows xgen)).
  { rewrite Lcol. unfold top. now rewrite length_map. }
  do 2 eexists. split; [reflexivity |]. cbn [size1 rows].
  split; [reflexivity |].
  unfold well_formed, valid_ids in *. cbn [size1 rows].
  clear - Hw Hv Hxcol Lrows. revert xcol Hxcol Lrows.
  induction (rows xgen) as [| row rs IH]; intros xcol Hxcol Lrows.
  - repeat split; constructor.
  - destruct xcol as [| x xcol]; [discriminate |].
    inversion Hw as [| ? ? Hrow Hw']. inversion Hv as [| ? ? Hvrow Hv'].
    inversion Hxcol as [| ? ? Hx Hxcol']. subst.
    destruct (IH Hw' Hv' xcol Hxcol') as (W' & V' & P');
      [simpl in Lrows; lia |].
    cbn [zip_with map]. repeat split.
    + constructor; [| exact W']. rewrite length_app, Hrow. reflexivity.
    + constructor; [| exact V']. apply Forall_app. split; [exact Hvrow |].
      now constructor.
    + f_equal; [| exact P']. rewrite <- Hrow. apply firstn_snoc.
Qed.
Lemma generate_loop_ok (m : GPT.t) (max_length : nat) (n : nat) :
  GPT.shaped m ->
  (max_length <= GPTConfig.block_size (GPT.config m) + 1)%nat ->
  (50 <= GPTConfig.vocab_size (GPT.config m))%nat ->
  forall (xgen : LongTensor) (rng : sample_rng) (extra : nat),
    well_formed xgen ->
    valid_ids (GPTConfig.vocab_size (GPT.config m)) xgen ->
    (1 <= size1 xgen)%nat ->
    (size1 xgen + n = max_length)%nat ->
    exists xgen' rng',
      generate_loop sample_rng topk multinomial (n + extra) m max_length
                    xgen rng
      = Done (Some (xgen', rng'))
      /\ size1 xgen' = max_length
      /\ well_formed xgen'
      /\ valid_ids (GPTConfig.vocab_size (GPT.config m)) xgen'
      /\ map (firstn (size1 xgen)) (rows xgen') = rows xgen.
Proof.
  intros Hm Hmax HV. induction n as [| n IH]; intros xgen rng extra Hw Hv H1 Hn.
  - exists xgen, rng.
    assert (E : generate_loop sample_rng topk multinomial (0 + extra) m
                              max_length xgen rng = Done (Some (xgen, rng))).
    { destruct extra; cbn [generate_loop Nat.add];
        destruct (Nat.ltb_spec (size1 xgen) max_length); try lia; reflexivity. }
    split; [exact E |]. split; [lia |]. split; [exact Hw |].
    split; [exact Hv |].
    unfold well_formed in Hw. clear - Hw.
    induction Hw as [| row rs Hrow _ IH]; [reflexivity |].
    cbn [map]. rewrite IH. f_equal. rewrite <- Hrow. apply firstn_all.
  - cbn [generate_loop Nat.add].
    destruct (Nat.ltb_spec (size1 xgen) max_length); [| lia].
    destruct (generate_step_ok m xgen rng Hm Hw Hv)
      as (x1 & rng1 & E1 & S1 & W1 & V1 & P1); [lia | exact HV |].
    rewrite E1. cbn [attempt_bind fst snd].
    destruct (IH x1 rng1 extra W1 V1) as (x2 & rng2 & E2 & S2 & W2 & V2 & P2);
      [lia | lia |].
    exists x2, rng2. split; [exact E2 |]. split; [exact S2 |].
    split; [exact W2 |]. split; [exact V2 |].
    rewrite <- P1, <- P2, map_map. apply map_ext. intros row.
    rewrite firstn_firstn. f_equal. lia.
Qed.

(** X22: the sampling loop ends.  On a model with the constructor's shapes
    and a vocabulary of at least 50 tokens, started from a rectangular
    batch of ids of the vocabulary with between 1 and [max_length] columns,
    with [max_length <= block_size + 1], the loop returns after
    [max_length - size(1)] rounds (more fuel changes nothing) without an
    exception: the batch then has [max_length] columns, holds ids of the
    vocabulary only and still begins with the prompt. *)
Theorem generate_loop_returns (m : GPT.t) (max_length : nat)
        (xgen : LongTensor) (rng : sample_rng) (extra : nat) :
  GPT.shaped m ->
  well_formed xgen ->
  valid_ids (GPTConfig.vocab_size (GPT.config m)) xgen ->
  (1 <= size1 xgen <= max_length)%nat ->
  (max_length <= GPTConfig.block_size (GPT.config m) + 1)%nat ->
  (50 <= GPTConfig.vocab_size (GPT.config m))%nat ->
  exists xgen' rng',
    generate_loop sample_rng topk multinomial
                  (max_length - size1 xgen + extra) m max_length xgen rng
    = Done (Some (xgen', rng'))
    /\ size1 xgen' = max_length
    /\ size0 xgen' = size0 xgen
    /\ well_formed xgen'
    /\ valid_ids (GPTConfig.vocab_size (GPT.config m)) xgen'
    /\ rows (first_columns (size1 xgen) xgen') = rows xgen.
Proof.
  intros Hm Hw Hv [H1 H2] Hmax HV.
  destruct (generate_loop_ok m max_length (max_length - size1 xgen) Hm Hmax HV
              xgen rng extra Hw Hv H1)
    as (x' & rng' & E & S & W & V & P); [lia |].
  exists x', rng'. split; [exact E |]. split; [exact S |].
  split; [| split; [exact W | split; [exact V | exact P]]].
  unfold size0. rewrite <- P. now rewrite length_map.
Qed.

(** X23: the samples of the script.  Assuming of the library's samplers
    that [topk] returns [k] values and [k] in-range indices of a row with at
    least [k] entries and that [multinomial] draws in every non-empty row a
    position of that row: for a prompt of between 1 and 32 ids of the
    vocabulary, a model with the constructor's shapes, [block_size >= 31]
    and at least 50 tokens, the generation returns four samples without an
    exception, each of 32 ids of the vocabulary and beginning with the
    prompt. *)
Theorem generate_samples (m : GPT.t) (tokens : list Z) (rng : sample_rng)
        (extra : nat) :
  GPT.shaped m ->
  Forall (fun id => (0 <= id < Z.of_nat (GPTConfig.vocab_size (GPT.config m)))%Z)
         tokens ->
  (1 <= length tokens <= 32)%nat ->
  (31 <= GPTConfig.block_size (GPT.config m))%nat ->
  (50 <= GPTConfig.vocab_size (GPT.config m))%nat ->
  exists samples,
    generate sample_rng topk multinomial (32 - length tokens + extra) m
             tokens rng = Done (Some samples)
    /\ length samples = 4%nat
    /\ Forall (fun sample =>
                 length sample = 32%nat
                 /\ firstn (length tokens) sample = tokens
                 /\ Forall (fun id =>
                              (0 <= id
                               < Z.of_nat (GPTConfig.vocab_size (GPT.config m)))%Z)
                           sample)
              samples.
Proof.
  intros Hm Htok [H1 H2] Hbs HV. unfold generate.
  set (xgen := {| size1 := length tokens; rows := repeat tokens 4 |}).
  destruct (generate_loop_ok m 32 (32 - length tokens) Hm) with
      (xgen := xgen) (rng := rng) (extra := extra)
    as (x' & rng' & E & S & W & V & P);
    try (cbn [size1 xgen]; lia).
  - unfold well_formed. cbn. repeat constructor.
  - unfold valid_ids. cbn. repeat constructor; exact Htok.
  - cbn [size1 xgen] in E, P. rewrite E. cbn [attempt_bind option_map fst].
    unfold well_formed in W. rewrite S in W.
    assert (Efull : map (firstn 32) (rows x') = rows x').
    { clear - W. induction W as [| row rs Hrow _ IH]; [reflexivity |].
      cbn [map]. rewrite IH. f_equal. rewrite <- Hrow. apply firstn_all. }
    rewrite Efull. eexists. split; [reflexivity |].
    split.
    + rewrite <- (length_map (firstn (length tokens))), P. reflexivity.
    + cbn [rows xgen] in P. unfold valid_ids in V.
      rewrite Forall_forall in W, V. apply Forall_forall. intros sample Hs.
      split; [now apply W |]. split; [| now apply V].
      pose proof (in_map (firstn (length tokens)) _ _ Hs) as Hin.
      rewrite P in Hin. now apply repeat_spec in Hin.
Qed.
End GenerationFacts.

Lemma generate_loop_returns_witness :
  exists xgen' rng',
    generate_loop unit Sampling.first_k Sampling.first_choice 1
                  Sampling.model 2 {| size1 := 1; rows := [[0%Z]; [7%Z]] |} tt
    = Done (Some (xgen', rng'))
    /\ size1 xgen' = 2%nat.
Proof.
  destruct (generate_loop_returns unit Sampling.first_k Sampling.first_choice)
    with (m := Sampling.model) (max_length := 2%nat)
         (xgen := {| size1 := 1; rows := [[0%Z]; [7%Z]] |}) (rng := tt)
         (extra := 0%nat)
    as (x' & rng' & E & S & _).
  - intros row k Hk. unfold Sampling.first_k. cbn [fst snd].
    rewrite length_firstn, length_seq. split; [lia |]. split; [reflexivity |].
    apply Forall_forall. intros i Hi. apply in_seq in Hi. lia.
  - intros probs rng Hpos. unfold Sampling.first_choice. cbn [fst].
    induction Hpos as [| row probs Hrow _ IH]; constructor; assumption.
  - apply fixture_shaped.
  - repeat constructor.
  - repeat constructor; cbn; lia.
  - cbn. lia.
  - cbn. lia.
  - cbn. lia.
  - exists x', rng'. split; [exact E | exact S].
Defined.

Lemma generate_samples_witness :
  exists samples,
    generate unit Sampling.first_k Sampling.first_choice 31 Sampling.model
             [7%Z] tt = Done (Some samples)
    /\ length samples = 4%nat.
Proof.
  destruct (generate_samples unit Sampling.first_k Sampling.first_choice)
    with (m := Sampling.model) (tokens := [7%Z]) (rng := tt) (extra := 0%nat)
    as (samples & E & L & _).
  - intros row k Hk. unfold Sampling.first_k. cbn [fst snd].
    rewrite length_firstn, length_seq. split; [lia |]. split; [reflexivity |].
    apply Forall_forall. intros i Hi. apply in_seq in Hi. lia.
  - intros probs rng Hpos. unfold Sampling.first_choice. cbn [fst].
    induction Hpos as [| row probs Hrow _ IH]; constructor; assumption.
  - apply fixture_shaped.
  - repeat constructor; cbn; lia.
  - cbn. lia.
  - cbn. lia.
  - cbn. lia.
  - exists samples. split; [exact E | exact L].
Defined.

(** ** The most likely completion *)










(** ** Reading a shard *)

(** X25: [load_tokens] keeps the number of tokens of the file, returns
    values of 32 bits, and changes no value that fits in 32 bits: the
    16-bit token ids the shards hold come out as they are. *)
Theorem load_tokens_values (np_load : string -> list Z) (filename : string) :
  length (load_tokens np_load filename) = length (np_load filename)
  /\ Forall (fun z => (- 2 ^ 31 <= z < 2 ^ 31)%Z) (load_tokens np_load filename)
  /\ (Forall (fun z => (- 2 ^ 31 <= z < 2 ^ 31)%Z) (np_load filename) ->
      load_tokens np_load filename = np_load filename)
  /\ (Forall (fun z => (0 <= z < 2 ^ 16)%Z) (np_load filename) ->
      load_tokens np_load filename = np_load filename).
Proof.
  unfold load_tokens.
  assert (Keep : Forall (fun z => (- 2 ^ 31 <= z < 2 ^ 31)%Z) (np_load filename) ->
                 map astype_int32 (np_load filename) = np_load filename).
  { induction 1 as [| z l Hz _ IH]; [reflexivity |].
    cbn [map]. rewrite IH. f_equal. unfold astype_int32.
    rewrite Z.mod_small; lia. }
  split; [apply length_map |]. split; [| split; [exact Keep |]].
  - apply Forall_forall. intros z Hz. apply in_map_iff in Hz.
    destruct Hz as (z0 & <- & _). unfold astype_int32.
    pose proof (Z.mod_pos_bound (z0 + 2 ^ 31) (2 ^ 32)). lia.
  - intros H. apply Keep. eapply Forall_impl; [| exact H].
    intros z Hz. cbn beta in Hz. lia.
Qed.

Lemma load_tokens_values_witness :
  load_tokens Shards.np_load "edu_fineweb10B/edufineweb_train_000001.npy"
  = Shards.np_load "edu_fineweb10B/edufineweb_train_000001.npy".
Proof.
  apply (load_tokens_values Shards.np_load
           "edu_fineweb10B/edufineweb_train_000001.npy").
  vm_compute. repeat constructor; discriminate.
Defined.

(** ** The cadence of the loop *)

(** X26: at every step of the loop, a checkpoint is only written together
    with a validation, and (unless the model is compiled) at a step that
    also evaluates HellaSwag and generates samples, since the checkpoint
    interval is a multiple of the evaluation interval; samples are only
    generated at steps that evaluate; and the last step does all of it,
    the checkpoint when it is not step 0 and the process is the master. *)
Theorem events_cadence (max_steps step : Z) (use_compile master_process : bool) :
  (0 <= step < max_steps)%Z ->
  let e := events max_steps step use_compile master_process in
  (saves_checkpoint e = true ->
   evaluates_validation e = true /\ master_process = true /\ step <> 0%Z
   /\ (use_compile = false ->
       evaluates_hellaswag e = true /\ generates_samples e = true))
  /\ (generates_samples e = true ->
      evaluates_hellaswag e = true /\ evaluates_validation e = true)
  /\ (step = (max_steps - 1)%Z ->
      evaluates_validation e = true
      /\ evaluates_hellaswag e = negb use_compile
      /\ generates_samples e = negb use_compile
      /\ saves_checkpoint e = (master_process && (step >? 0)%Z)%bool).
Proof.
  intros Hstep e. unfold e, events.
  cbn [evaluates_validation saves_checkpoint evaluates_hellaswag
       generates_samples].
  assert (M : (step mod 5000 = 0 -> step mod 250 = 0)%Z).
  { intros H. apply Z.mod_divide in H; [| lia]. apply Z.mod_divide; [lia |].
    apply (Z.divide_trans _ 5000); [| exact H]. exists 20%Z. reflexivity. }
  destruct (Z.eqb_spec step (max_steps - 1)) as [El | Nl];
    destruct (Z.eqb_spec (step mod 250) 0) as [E250 | N250];
    destruct (Z.eqb_spec (step mod 5000) 0) as [E5000 | N5000];
    destruct (Z.gtb_spec step 0) as [Hpos | Hzero];
    destruct use_compile, master_process; cbn;
    repeat split; intros; try discriminate; try reflexivity; try lia;
    try tauto.
Qed.

Lemma events_cadence_witness :
  saves_checkpoint (events 19073 5000 false true) = true
  /\ generates_samples (events 19073 5000 false true) = true.
Proof.
  destruct (events_cadence 19073 5000 false true) as (H & _ & _); [lia |].
  split; [reflexivity |]. apply H; reflexivity.
Defined.
